(** * Family-Tree-Builder: the genealogy engine of [genealogia_core.py]

    A shallow embedding of the model and business rules of the Python
    module (persons, families, the registry [ArbolGenealogico], its
    relationship operations, queries and the simulated clock), the
    properties of it that its specification states, and further
    properties of the same operations.

    Conventions.
    - Python [int] is [Z]; [str] is [string] (UTF-8 bytes); a [set] of
      strings is a [gset string]; a [dict] is an insertion-ordered
      association list with unique keys ([dict]); a [list] is a [list].
    - [float] is IEEE 754 binary64 with round-to-nearest-even, through the
      [spec_float] operations at precision 53.
    - Python objects are references: every [Persona] lives in an object
      store and families map identifiers to references.
    - [date] follows the [datetime.date] class of the Python library.
    - An operation that can raise returns an outcome together with the
      state at the point where it stopped. *)

From Stdlib Require Import ZArith Lia DecimalString.
From Corelib Require Import SpecFloat.
From stdpp Require Import gmap strings list relations.

Local Open Scope string_scope.
Local Open Scope Z_scope.

(** ** Dates ([datetime.date]) *)

Record date := mk_date { year : Z; month : Z; day : Z }.

#[global] Instance date_eq_dec : EqDecision date.
Proof. solve_decision. Defined.

Definition is_leap (y : Z) : bool :=
  (y mod 4 =? 0) && (negb (y mod 100 =? 0) || (y mod 400 =? 0)).

Definition days_in_month (y m : Z) : Z :=
  if (m =? 2) then (if is_leap y then 29 else 28)
  else if (m =? 4) || (m =? 6) || (m =? 9) || (m =? 11) then 30
  else 31.

Definition MINYEAR : Z := 1.
Definition MAXYEAR : Z := 9999.

(** The check the [date] constructor performs on its fields. *)
Definition date_ok (d : date) : bool :=
  (MINYEAR <=? year d) && (year d <=? MAXYEAR)
  && (1 <=? month d) && (month d <=? 12)
  && (1 <=? day d) && (day d <=? days_in_month (year d) (month d)).

(** Tuples of integers compare lexicographically. *)
Definition pair_ltb (a b : Z * Z) : bool :=
  (fst a <? fst b) || ((fst a =? fst b) && (snd a <? snd b)).

Definition date_ltb (a b : date) : bool :=
  (year a <? year b)
  || ((year a =? year b) && pair_ltb (month a, day a) (month b, day b)).

Definition date_leb (a b : date) : bool := negb (date_ltb b a).

(** [a >= b] on dates. *)
Definition date_geb (a b : date) : bool := date_leb b a.

(** *** Ordinals and [date + timedelta] *)

Definition days_before_year (y : Z) : Z :=
  let y := y - 1 in y * 365 + y / 4 - y / 100 + y / 400.

Definition DAYS_BEFORE_MONTH (m : Z) : Z :=
  nth (Z.to_nat m) [0; 0; 31; 59; 90; 120; 151; 181; 212; 243; 273; 304; 334] 0.

Definition DAYS_IN_MONTH (m : Z) : Z :=
  nth (Z.to_nat m) [0; 31; 28; 31; 30; 31; 30; 31; 31; 30; 31; 30; 31] 0.

Definition days_before_month (y m : Z) : Z :=
  DAYS_BEFORE_MONTH m + (if (2 <? m) && is_leap y then 1 else 0).

Definition toordinal (d : date) : Z :=
  days_before_year (year d) + days_before_month (year d) (month d) + day d.

Definition DI400Y : Z := 146097.
Definition DI100Y : Z := 36524.
Definition DI4Y : Z := 1461.
Definition MAXORDINAL : Z := 3652059.

Definition fromordinal (n : Z) : date :=
  let n := n - 1 in
  let n400 := n / DI400Y in let n := n mod DI400Y in
  let y := n400 * 400 + 1 in
  let n100 := n / DI100Y in let n := n mod DI100Y in
  let n4 := n / DI4Y in let n := n mod DI4Y in
  let n1 := n / 365 in let n := n mod 365 in
  let y := y + n100 * 100 + n4 * 4 + n1 in
  if (n1 =? 4) || (n100 =? 4) then mk_date (y - 1) 12 31
  else
    let leapyear := (n1 =? 3) && (negb (n4 =? 24) || (n100 =? 3)) in
    let m := Z.shiftr (n + 50) 5 in
    let preceding := DAYS_BEFORE_MONTH m + (if (2 <? m) && leapyear then 1 else 0) in
    let '(m, preceding) :=
      if n <? preceding
      then (m - 1,
            preceding - (DAYS_IN_MONTH (m - 1)
                         + (if (m - 1 =? 2) && leapyear then 1 else 0)))
      else (m, preceding) in
    mk_date y m (n - preceding + 1).

(** ** Date utilities *)

(** [ref or hoy()]: a date object is always true. *)
Definition ref_o_hoy (ref : option date) (hoy : date) : date :=
  match ref with Some r => r | None => hoy end.

Definition anios_entre (fecha : option date) (ref : option date) (hoy : date) : Z :=
  match fecha with
  | None => 0
  | Some fecha =>
      let ref := ref_o_hoy ref hoy in
      let y := year ref - year fecha in
      let y := if pair_ltb (month ref, day ref) (month fecha, day fecha)
               then y - 1 else y in
      Z.max 0 y
  end.

(** ** Domain model *)

Record Persona := mk_Persona {
  cedula : string;
  nombre : string;
  fecha_nacimiento : date;
  genero : string;
  provincia : string;
  estado_civil : string;
  fecha_fallecimiento : option date;
  padres : gset string;
  hijos : gset string;
  parejas : gset string;
  afinidades : gset string;
  historial : list (Z * string);
  salud_emocional : Z
}.

#[global] Instance Persona_eq_dec : EqDecision Persona.
Proof. solve_decision. Defined.

(** The dataclass constructor with its defaults. *)
Definition Persona_nueva (ced nom : string) (nac : date) (gen prov : string) : Persona :=
  {| cedula := ced; nombre := nom; fecha_nacimiento := nac; genero := gen;
     provincia := prov; estado_civil := "Soltero(a)";
     fecha_fallecimiento := None;
     padres := ∅; hijos := ∅; parejas := ∅; afinidades := ∅;
     historial := []; salud_emocional := 75 |}.

Definition edad (p : Persona) (ref : option date) (hoy : date) : Z :=
  match fecha_fallecimiento p with
  | Some f => anios_entre (Some (fecha_nacimiento p)) (Some f) hoy
  | None => anios_entre (Some (fecha_nacimiento p)) ref hoy
  end.

Definition vivo (p : Persona) : bool :=
  match fecha_fallecimiento p with None => true | Some _ => false end.

(** ** Exceptions

    [SinObjeto] is not a Python exception: it is the outcome of following a
    reference that has no object, which no run of the program does. *)

Inductive exn :=
| ValueError (msg : string)
| OverflowError
| ZeroDivisionError
| SinObjeto.

Inductive res (A : Type) :=
| Ok (a : A)
| Raise (e : exn).
Arguments Ok {A} a.
Arguments Raise {A} e.

Definition res_bind {A B} (c : res A) (k : A -> res B) : res B :=
  match c with Ok a => k a | Raise e => Raise e end.

Notation "'let?' x := c 'in' k" := (res_bind c (fun x => k))
  (at level 10, x name, c at level 100, k at level 200).

(** ** Floating point ([float] is binary64) *)

Definition prec : Z := 53.
Definition emax : Z := 1024.

Definition float := spec_float.

(** The quotient of two integers rounded once to the nearest double: this
    is what [int / int] computes, and what a decimal literal denotes. *)
Definition cociente (a b : Z) : float :=
  match a, b with
  | Z0, _ => S754_zero false
  | _, Z0 => S754_nan
  | _, _ =>
      let '(q, e, l) := SFdiv_core_binary prec emax (Z.abs a) 0 (Z.abs b) 0 in
      binary_round_aux prec emax (xorb (a <? 0) (b <? 0)) q e l
  end.

Definition decimal (num den : Z) : float := cociente num den.

(** Conversion of an [int] operand: too large a value raises. *)
Definition float_of_int (z : Z) : res float :=
  match binary_normalize prec emax z 0 false with
  | S754_infinity _ => Raise OverflowError
  | f => Ok f
  end.

(** A small integer operand, which converts exactly. *)
Definition entero (z : Z) : float := binary_normalize prec emax z 0 false.

(** [a / b] on integers. *)
Definition int_truediv (a b : Z) : res float :=
  if b =? 0 then Raise ZeroDivisionError
  else match cociente a b with
       | S754_infinity _ => Raise OverflowError
       | f => Ok f
       end.

Definition fmul (x y : float) : float := SFmul prec emax x y.
Definition fadd (x y : float) : float := SFadd prec emax x y.

(** [x / y] on floats. *)
Definition fdiv (x y : float) : res float :=
  match y with
  | S754_zero _ => Raise ZeroDivisionError
  | _ => Ok (SFdiv prec emax x y)
  end.

Definition fltb (x y : float) : bool := SFltb x y.

(** [int(x)]: truncation towards zero. *)
Definition int_of_float (x : float) : res Z :=
  match x with
  | S754_zero _ => Ok 0
  | S754_finite s m e =>
      let v := Z.shiftl (Zpos m) e in
      Ok (if s then - v else v)
  | S754_infinity _ => Raise OverflowError
  | S754_nan => Raise (ValueError "cannot convert float NaN to integer")
  end.

(** ** Compatibility of two persons *)

(** The weighted index of the second half of [es_compatible_para_union]. *)
Definition indice_de_compatibilidad (self otra : Persona) : res Z :=
  let afin_comun := Z.of_nat (size (afinidades self ∩ afinidades otra)) in
  let afin_total :=
    let n := Z.of_nat (size (afinidades self ∪ afinidades otra)) in
    if n =? 0 then 1 else n in
  let? q := int_truediv afin_comun afin_total in
  let? score_afinidad := int_of_float (fmul (entero 100) q) in
  let score_emocional := (salud_emocional self + salud_emocional otra) / 2 in
  let comp_genetica :=
    if negb (bool_decide (padres self = ∅))
       && bool_decide (padres self = padres otra) then 20 else 100 in
  let? fa := float_of_int score_afinidad in
  let? fe := float_of_int score_emocional in
  let? fg := float_of_int comp_genetica in
  int_of_float (fadd (fadd (fmul (decimal 6 10) fa) (fmul (decimal 2 10) fe))
                     (fmul (decimal 2 10) fg)).

Definition es_compatible_para_union (self otra : Persona) (hoy : date) : res bool :=
  if negb (vivo self) || negb (vivo otra) then Ok false
  else if bool_decide (estado_civil self = "Casado(a)")
          || bool_decide (estado_civil self = "Unión libre") then Ok false
  else if bool_decide (estado_civil otra = "Casado(a)")
          || bool_decide (estado_civil otra = "Unión libre") then Ok false
  else if (edad self None hoy <? 18) || (edad otra None hoy <? 18) then Ok false
  else if Z.abs (edad self None hoy - edad otra None hoy) >? 15 then Ok false
  else
    let? indice := indice_de_compatibilidad self otra in
    Ok (indice >=? 70).

(** The compatibility rule in the words of the specification: the four
    gates, then the weighted index in exact arithmetic. *)
Definition affinity_score_spec (a b : Persona) : Z :=
  let shared := Z.of_nat (size (afinidades a ∩ afinidades b)) in
  let union := Z.of_nat (size (afinidades a ∪ afinidades b)) in
  if union =? 0 then 0 else (100 * shared) / union.

Definition emotional_score_spec (a b : Persona) : Z :=
  (salud_emocional a + salud_emocional b) / 2.

Definition genetic_score_spec (a b : Persona) : Z :=
  if bool_decide (padres a ≠ ∅ ∧ padres b ≠ ∅ ∧ padres a = padres b)
  then 20 else 100.

(** floor (0.6 x + 0.2 y + 0.2 z) = floor ((6 x + 2 y + 2 z) / 10) *)
Definition index_spec (a b : Persona) : Z :=
  (6 * affinity_score_spec a b + 2 * emotional_score_spec a b
   + 2 * genetic_score_spec a b) / 10.

Definition gate_fails_spec (a b : Persona) (hoy : date) : bool :=
  negb (vivo a) || negb (vivo b)
  || bool_decide (estado_civil a = "Casado(a)" ∨ estado_civil a = "Unión libre")
  || bool_decide (estado_civil b = "Casado(a)" ∨ estado_civil b = "Unión libre")
  || (edad a None hoy <? 18) || (edad b None hoy <? 18)
  || (15 <? Z.abs (edad a None hoy - edad b None hoy)).

Definition is_union_compatible_spec (a b : Persona) (hoy : date) : bool :=
  if gate_fails_spec a b hoy then false else 70 <=? index_spec a b.

(** ** Dictionaries

    A Python [dict] keeps its keys in insertion order; assigning to a key
    that is present replaces the value in place. *)

Definition dict (V : Type) := list (string * V).

Fixpoint dict_get {V} (k : string) (d : dict V) : option V :=
  match d with
  | [] => None
  | (k', v) :: d' => if bool_decide (k' = k) then Some v else dict_get k d'
  end.

Fixpoint dict_set {V} (k : string) (v : V) (d : dict V) : dict V :=
  match d with
  | [] => [(k, v)]
  | (k', v') :: d' =>
      if bool_decide (k' = k) then (k, v) :: d' else (k', v') :: dict_set k v d'
  end.

Definition dict_in {V} (k : string) (d : dict V) : bool :=
  match dict_get k d with Some _ => true | None => false end.

Definition dict_keys {V} (d : dict V) : list string := d.*1.
Definition dict_values {V} (d : dict V) : list V := d.*2.

(** ** Families, the registry and the object store *)

(** A reference to a [Persona] object: its position in the store. *)
Abbreviation ref := nat (only parsing).

Record Familia := mk_Familia {
  id_familia : string;
  nombre_familia : string;
  miembros : dict ref
}.

(** The state of a run: the [Persona] objects, the two attributes of the
    [ArbolGenealogico] ([familias], [fecha_simulada]), the outcomes the
    random generator will give, and today's date as [date.today()] gives
    it. *)
Record Mundo := mk_Mundo {
  objetos : list Persona;
  familias : dict Familia;
  fecha_simulada : date;
  azar : list N;
  fecha_hoy : date
}.

Definition con_objetos (o : list Persona) (st : Mundo) : Mundo :=
  mk_Mundo o (familias st) (fecha_simulada st) (azar st) (fecha_hoy st).
Definition con_familias (f : dict Familia) (st : Mundo) : Mundo :=
  mk_Mundo (objetos st) f (fecha_simulada st) (azar st) (fecha_hoy st).
Definition con_fecha_simulada (d : date) (st : Mundo) : Mundo :=
  mk_Mundo (objetos st) (familias st) d (azar st) (fecha_hoy st).
Definition con_azar (a : list N) (st : Mundo) : Mundo :=
  mk_Mundo (objetos st) (familias st) (fecha_simulada st) a (fecha_hoy st).

(** [ArbolGenealogico()] on a given day, before any object exists. *)
Definition Mundo_inicial (hoy : date) (rnd : list N) : Mundo :=
  mk_Mundo [] [] hoy rnd hoy.

(** Computations over the state that may raise; the state at the point of
    the exception is kept. *)
Definition M (A : Type) : Type := Mundo -> res A * Mundo.

Definition ret {A} (a : A) : M A := fun st => (Ok a, st).
Definition raise {A} (e : exn) : M A := fun st => (Raise e, st).
Definition bind {A B} (c : M A) (k : A -> M B) : M B :=
  fun st => match c st with
            | (Ok a, st') => k a st'
            | (Raise e, st') => (Raise e, st')
            end.
Definition lift {A} (c : res A) : M A := fun st => (c, st).

Notation "'let*' x := c 'in' k" := (bind c (fun x => k))
  (at level 10, x name, c at level 100, k at level 200).
Notation "c ;; k" := (bind c (fun _ => k))
  (at level 100, k at level 200, right associativity).

Fixpoint para_cada {A} (l : list A) (cuerpo : A -> M unit) : M unit :=
  match l with
  | [] => ret tt
  | x :: l' => cuerpo x ;; para_cada l' cuerpo
  end.

Definition leer {A} (f : Mundo -> A) : M A := fun st => (Ok (f st), st).

(** The object behind a reference. *)
Definition objeto (r : ref) : M Persona :=
  fun st => match objetos st !! r with
            | Some p => (Ok p, st)
            | None => (Raise SinObjeto, st)
            end.

(** In-place mutation of the object behind a reference. *)
Definition modificar (r : ref) (f : Persona -> Persona) : M unit :=
  fun st => (Ok tt, con_objetos (alter f r (objetos st)) st).

(** Construction of a new object. *)
Definition crear_objeto (p : Persona) : M ref :=
  fun st => (Ok (length (objetos st)), con_objetos (objetos st ++ [p]) st).

(** ** Field assignments on [Persona] *)

Definition con_estado_civil (v : string) (p : Persona) : Persona :=
  mk_Persona (cedula p) (nombre p) (fecha_nacimiento p) (genero p) (provincia p)
    v (fecha_fallecimiento p) (padres p) (hijos p) (parejas p) (afinidades p)
    (historial p) (salud_emocional p).
Definition con_fecha_fallecimiento (v : option date) (p : Persona) : Persona :=
  mk_Persona (cedula p) (nombre p) (fecha_nacimiento p) (genero p) (provincia p)
    (estado_civil p) v (padres p) (hijos p) (parejas p) (afinidades p)
    (historial p) (salud_emocional p).
Definition con_padres (v : gset string) (p : Persona) : Persona :=
  mk_Persona (cedula p) (nombre p) (fecha_nacimiento p) (genero p) (provincia p)
    (estado_civil p) (fecha_fallecimiento p) v (hijos p) (parejas p) (afinidades p)
    (historial p) (salud_emocional p).
Definition con_hijos (v : gset string) (p : Persona) : Persona :=
  mk_Persona (cedula p) (nombre p) (fecha_nacimiento p) (genero p) (provincia p)
    (estado_civil p) (fecha_fallecimiento p) (padres p) v (parejas p) (afinidades p)
    (historial p) (salud_emocional p).
Definition con_parejas (v : gset string) (p : Persona) : Persona :=
  mk_Persona (cedula p) (nombre p) (fecha_nacimiento p) (genero p) (provincia p)
    (estado_civil p) (fecha_fallecimiento p) (padres p) (hijos p) v (afinidades p)
    (historial p) (salud_emocional p).
Definition con_afinidades (v : gset string) (p : Persona) : Persona :=
  mk_Persona (cedula p) (nombre p) (fecha_nacimiento p) (genero p) (provincia p)
    (estado_civil p) (fecha_fallecimiento p) (padres p) (hijos p) (parejas p) v
    (historial p) (salud_emocional p).
Definition con_historial (v : list (Z * string)) (p : Persona) : Persona :=
  mk_Persona (cedula p) (nombre p) (fecha_nacimiento p) (genero p) (provincia p)
    (estado_civil p) (fecha_fallecimiento p) (padres p) (hijos p) (parejas p)
    (afinidades p) v (salud_emocional p).
Definition con_salud_emocional (v : Z) (p : Persona) : Persona :=
  mk_Persona (cedula p) (nombre p) (fecha_nacimiento p) (genero p) (provincia p)
    (estado_civil p) (fecha_fallecimiento p) (padres p) (hijos p) (parejas p)
    (afinidades p) (historial p) v.

(** ** Date operations that raise *)

(** [d + timedelta(days=dias)] *)
Definition date_add_days (d : date) (dias : Z) : res date :=
  if (dias <? -999999999) || (999999999 <? dias) then Raise OverflowError
  else
    let o := toordinal d + dias in
    if (0 <? o) && (o <=? MAXORDINAL) then Ok (fromordinal o)
    else Raise OverflowError.

(** [d.replace(year=y)]: the constructor checks the new fields. *)
Definition date_replace_year (d : date) (y : Z) : res date :=
  if negb ((MINYEAR <=? y) && (y <=? MAXYEAR))
  then Raise (ValueError "year is out of range")
  else if negb ((1 <=? day d) && (day d <=? days_in_month y (month d)))
  then Raise (ValueError "day is out of range for month")
  else Ok (mk_date y (month d) (day d)).

(** ** Methods of [Persona] that mutate it *)

Definition registrar_evento (descripcion : string) (fecha_ref : option date)
    (hoy : date) (self : Persona) : Persona :=
  let f := ref_o_hoy fecha_ref hoy in
  con_historial (historial self ++ [(year f, descripcion)]) self.

Definition marcar_fallecido (fecha_def : option date) (hoy : date)
    (self : Persona) : Persona :=
  match fecha_fallecimiento self with
  | None =>
      let self := con_fecha_fallecimiento (Some (ref_o_hoy fecha_def hoy)) self in
      let self :=
        con_estado_civil
          (if bool_decide (parejas self = ∅) then estado_civil self else "Viudo(a)")
          self in
      registrar_evento "Fallecimiento" None hoy self
  | Some _ => self
  end.

(** ** The random generator

    Each call takes the next outcome from [azar]; [randbelow n] reduces it
    to [0 .. n-1], and the other functions are built on it as in the
    [random] module. *)

Definition tirar : M N :=
  fun st => (Ok (hd 0%N (azar st)), con_azar (tl (azar st)) st).

Definition randbelow (n : Z) : M Z :=
  let* x := tirar in ret (Z.of_N x mod n).

(** [random.random()]: a multiple of 2^-53 in [0, 1). *)
Definition random_random : M float :=
  let* x := tirar in
  ret (binary_normalize prec emax (Z.of_N x mod 2 ^ 53) (-53) false).

Definition randint (a b : Z) : M Z :=
  let* j := randbelow (b - a + 1) in ret (a + j).

Definition choice {A} (l : list A) (d : A) : M A :=
  let* j := randbelow (Z.of_nat (length l)) in ret (nth (Z.to_nat j) l d).

(** [random.sample(pop, 2)]: selection from a pool without replacement;
    [j1] and [j2] are the two positions drawn. *)
Definition seleccion2 (pop : list string) (j1 j2 : Z) : list string :=
  let n := Z.of_nat (length pop) in
  let r0 := nth (Z.to_nat j1) pop "" in
  let pool := <[Z.to_nat j1 := nth (Z.to_nat (n - 1)) pop ""]> pop in
  let r1 := nth (Z.to_nat j2) pool "" in
  [r0; r1].

Definition sample2 (pop : list string) : M (list string) :=
  let n := Z.of_nat (length pop) in
  let* j1 := randbelow n in
  let* j2 := randbelow (n - 1) in
  ret (seleccion2 pop j1 j2).

Definition swap {A} (i j : nat) (l : list A) : list A :=
  match l !! i, l !! j with
  | Some x, Some y => <[i := y]> (<[j := x]> l)
  | _, _ => l
  end.

(** [random.shuffle(x)]: for i from len(x)-1 down to 1, swap x[i] with
    x[randbelow(i+1)]. *)
Fixpoint shuffle_desde {A} (i : nat) (l : list A) : M (list A) :=
  match i with
  | O => ret l
  | S i' =>
      let* j := randbelow (Z.of_nat i + 1) in
      shuffle_desde i' (swap i (Z.to_nat j) l)
  end.

Definition shuffle {A} (l : list A) : M (list A) :=
  shuffle_desde (length l - 1)%nat l.

(** ** Base data *)

Definition AFINIDADES : list string :=
  ["Deporte"; "Arte"; "Ciencia"; "Música"; "Lectura"; "Viajes"; "Gastronomía";
   "Videojuegos"].

(** [str(n)] for an integer. *)
Definition str (n : Z) : string := NilZero.string_of_int (Z.to_int n).

(** ** The registry: families and persons *)

Definition crear_familia (id_fam nom : string) : M unit :=
  fun st =>
    if dict_in id_fam (familias st)
    then (Raise (ValueError "ID de familia ya existe"), st)
    else (Ok tt, con_familias (dict_set id_fam (mk_Familia id_fam nom []) (familias st)) st).

Definition get_familia (id_fam : string) : M (option Familia) :=
  leer (fun st => dict_get id_fam (familias st)).

(** [fam.obtener(cedula)]: the member object, if any. *)
Definition obtener (fam : Familia) (ced : string) : option ref :=
  dict_get ced (miembros fam).

Definition todas_personas (fam : Familia) : list ref :=
  dict_values (miembros fam).

(** [fam.agregar_persona(p)] on the family registered as [id_fam]. *)
Definition Familia_agregar_persona (id_fam : string) (p : ref) : M unit :=
  let* per := objeto p in
  fun st =>
    match dict_get id_fam (familias st) with
    | Some fam =>
        let fam' := mk_Familia (id_familia fam) (nombre_familia fam)
                      (dict_set (cedula per) p (miembros fam)) in
        (Ok tt, con_familias (dict_set id_fam fam' (familias st)) st)
    | None => (Ok tt, st)
    end.

Definition evento (r : ref) (descripcion : string) (fecha_ref : option date) : M unit :=
  let* hoy := leer fecha_hoy in
  modificar r (registrar_evento descripcion fecha_ref hoy).

Definition agregar_persona (id_fam : string) (persona : ref) : M unit :=
  let* fam := get_familia id_fam in
  match fam with
  | None => raise (ValueError "Familia no existe")
  | Some fam =>
      let* per := objeto persona in
      if dict_in (cedula per) (miembros fam)
      then raise (ValueError "Cédula ya existe en la familia")
      else
        let* _ :=
          if Z.of_nat (size (afinidades per)) <? 2
          then
            let* muestra := sample2 AFINIDADES in
            modificar persona
              (fun p => con_afinidades (afinidades p ∪ list_to_set muestra) p)
          else ret tt in
        let* _ := Familia_agregar_persona id_fam persona in
        let* per := objeto persona in
        evento persona "Nacimiento" (Some (fecha_nacimiento per))
  end.

(** ** Relationships *)

Definition agregar_a (c : string) (s : gset string) : gset string := s ∪ {[c]}.

Definition unir_pareja (id_fam ced1 ced2 : string) : M bool :=
  let* fam := get_familia id_fam in
  match fam with
  | None => ret false
  | Some fam =>
      match obtener fam ced1, obtener fam ced2 with
      | Some a, Some b =>
          let* pa := objeto a in
          let* pb := objeto b in
          let* hoy := leer fecha_hoy in
          let* compatible := lift (es_compatible_para_union pa pb hoy) in
          if negb compatible then ret false
          else
            let* pb := objeto b in
            let* _ := modificar a (fun p => con_parejas (agregar_a (cedula pb) (parejas p)) p) in
            let* pa := objeto a in
            let* _ := modificar b (fun p => con_parejas (agregar_a (cedula pa) (parejas p)) p) in
            let* _ := modificar a (con_estado_civil "Unión libre") in
            let* _ := modificar b (con_estado_civil "Unión libre") in
            let* pb := objeto b in
            let* _ := evento a ("Unión de pareja con " ++ nombre pb) None in
            let* pa := objeto a in
            let* _ := evento b ("Unión de pareja con " ++ nombre pa) None in
            ret true
      | _, _ => ret false
      end
  end.

Definition registrar_matrimonio (id_fam ced1 ced2 : string) : M bool :=
  let* fam := get_familia id_fam in
  match fam with
  | None => ret false
  | Some fam =>
      match obtener fam ced1, obtener fam ced2 with
      | Some a, Some b =>
          let* pa := objeto a in
          let* pb := objeto b in
          let* unidos :=
            if bool_decide (cedula pb ∈ parejas pa) then ret true
            else unir_pareja id_fam ced1 ced2 in
          if negb unidos then ret false
          else
            let* _ := modificar a (con_estado_civil "Casado(a)") in
            let* _ := modificar b (con_estado_civil "Casado(a)") in
            let* pb := objeto b in
            let* _ := evento a ("Matrimonio con " ++ nombre pb) None in
            let* pa := objeto a in
            let* _ := evento b ("Matrimonio con " ++ nombre pa) None in
            ret true
      | _, _ => ret false
      end
  end.

Definition registrar_padre_hijo (id_fam ced_padre ced_hijo : string) : M bool :=
  let* fam := get_familia id_fam in
  match fam with
  | None => ret false
  | Some fam =>
      match obtener fam ced_padre, obtener fam ced_hijo with
      | Some padre, Some hijo =>
          let* pp := objeto padre in
          let* _ := modificar hijo (fun p => con_padres (agregar_a (cedula pp) (padres p)) p) in
          let* ph := objeto hijo in
          let* _ := modificar padre (fun p => con_hijos (agregar_a (cedula ph) (hijos p)) p) in
          ret true
      | _, _ => ret false
      end
  end.

Definition NOMBRES : list string :=
  ["Alex"; "Sam"; "Pat"; "Luz"; "Mar"; "Ari"; "Noa"; "Kai"].

Definition registrar_nacimiento_de_pareja (id_fam ced1 ced2 : string)
    : M (option ref) :=
  let* fam := get_familia id_fam in
  match fam with
  | None => ret None
  | Some fam =>
      match obtener fam ced1, obtener fam ced2 with
      | Some a, Some b =>
          let* pa := objeto a in
          let* pb := objeto b in
          if negb (bool_decide (cedula pb ∈ parejas pa)) then ret None
          else
            let* n := randint 10000000 99999999 in
            let new_ced := str n in
            let* nom := choice NOMBRES "" in
            let* gen := choice ["Masculino"; "Femenino"] "" in
            let* prov := choice [provincia pa; provincia pb] "" in
            let* fs := leer fecha_simulada in
            let* p := crear_objeto (Persona_nueva new_ced nom fs gen prov) in
            let* _ := agregar_persona id_fam p in
            let* pa := objeto a in
            let* pb := objeto b in
            let* _ := modificar p
                        (fun q => con_padres (padres q ∪ {[cedula pa; cedula pb]}) q) in
            let* pn := objeto p in
            let* _ := modificar a (fun q => con_hijos (agregar_a (cedula pn) (hijos q)) q) in
            let* _ := modificar b (fun q => con_hijos (agregar_a (cedula pn) (hijos q)) q) in
            let* _ := evento a ("Nacimiento de hijo/a " ++ nombre pn) None in
            let* _ := evento b ("Nacimiento de hijo/a " ++ nombre pn) None in
            ret (Some p)
      | _, _ => ret None
      end
  end.

(** ** Side effects of a death *)

Definition gestionar_viudez (fam : Familia) (persona_fallecida : ref) : M unit :=
  let* pf := objeto persona_fallecida in
  para_cada (elements (parejas pf)) (fun ced =>
    match obtener fam ced with
    | None => ret tt
    | Some pareja =>
        let* pp := objeto pareja in
        if vivo pp then
          let* _ := modificar pareja (con_estado_civil "Viudo(a)") in
          let* pf := objeto persona_fallecida in
          let* _ := modificar pareja
                      (fun p => con_parejas (parejas p ∖ {[cedula pf]}) p) in
          let* _ := evento pareja "Quedó viudo(a)" None in
          modificar pareja
            (fun p => con_salud_emocional (Z.max 0 (salud_emocional p - 10)) p)
        else ret tt
    end).

(** ** A family as its queries read it

    The queries and the guardianship pass read a family without changing
    its member map: they see the dictionary from identifiers to the
    current [Persona] objects. *)

Definition vista (o : list Persona) (fam : Familia) : dict Persona :=
  omap (fun kr => match o !! kr.2 with
                  | Some p => Some (kr.1, p)
                  | None => None
                  end) (miembros fam).

(** ** Guardianship of minors *)

(** [max(l, key=key)] for a non-empty list: the first maximal element. *)
Fixpoint max_por {A} (key : A -> Z) (x : A) (l : list A) : A :=
  match l with
  | [] => x
  | y :: l' => max_por key (if key x <? key y then y else x) l'
  end.

(** The candidates one parent [pp] contributes: the living persons other
    than [pp] that share a parent with it, then its living parents. *)
Definition candidatos_de (m : dict Persona) (pp : Persona) : list Persona :=
  List.filter (fun q =>
                 negb (bool_decide (cedula q = cedula pp) || negb (vivo q))
            && negb (bool_decide (padres q = ∅))
            && negb (bool_decide (padres q ∩ padres pp = ∅)))
         (dict_values m)
  ++ omap (fun ced_ab => match dict_get ced_ab m with
                         | Some ab => if vivo ab then Some ab else None
                         | None => None
                         end) (elements (padres pp)).

Definition candidatos (m : dict Persona) (padres_p : list (option Persona))
    : list Persona :=
  flat_map (fun o => match o with
                     | None => []
                     | Some pp => candidatos_de m pp
                     end) padres_p.

(** The guardian the pass gives to [p], if it gives one. *)
Definition tutor_de (fs hoy : date) (m : dict Persona) (p : Persona)
    : option Persona :=
  if negb (vivo p) then None
  else if edad p (Some fs) hoy <? 18 then
    let padres_p := map (fun c => dict_get c m) (elements (padres p)) in
    if negb (bool_decide (padres_p = []))
       && forallb (fun o => match o with
                            | Some pp => negb (vivo pp)
                            | None => false
                            end) padres_p
    then
      match candidatos m padres_p with
      | [] => None
      | c :: cs => Some (max_por (fun r => edad r (Some fs) hoy) c cs)
      end
    else None
  else None.

(** The body of the loop of [reasignar_tutoria_menores], for the member
    object [p]. *)
Definition tutoria_de (fam : Familia) (p : ref) : M unit :=
  let* per := objeto p in
  let* m := leer (fun st => vista (objetos st) fam) in
  let* fs := leer fecha_simulada in
  let* hoy := leer fecha_hoy in
  match tutor_de fs hoy m per with
  | Some tutor => evento p ("Tutor legal asignado: " ++ nombre tutor) None
  | None => ret tt
  end.

Definition reasignar_tutoria_menores (fam : Familia) : M unit :=
  para_cada (todas_personas fam) (tutoria_de fam).

(** ** Queries *)

(** The loop of [descendientes_vivos]; [stack] is the Python list, whose
    last element [pop()] takes. The loop has no bound of its own: [fuel]
    bounds the number of iterations, and [None] is a run that has not
    finished within it. *)
Fixpoint descendientes_bucle (fuel : nat) (m : dict Persona)
    (stack : list string) (res : list Persona) : option (list Persona) :=
  match fuel with
  | O => None
  | S fuel' =>
      match last stack with
      | None => Some res
      | Some ced =>
          let stack := removelast stack in
          match dict_get ced m with
          | Some p =>
              descendientes_bucle fuel' m (stack ++ elements (hijos p))
                (if vivo p then res ++ [p] else res)
          | None => descendientes_bucle fuel' m stack res
          end
      end
  end.

Definition descendientes_vivos (fuel : nat) (m : dict Persona) (ced_x : string)
    : option (list Persona) :=
  match dict_get ced_x m with
  | None => Some []
  | Some x => descendientes_bucle fuel m (elements (hijos x)) []
  end.

Definition nacidos_ultimos_10_anios (fs : date) (m : dict Persona)
    : res (list Persona) :=
  let? cutoff := date_replace_year fs (year fs - 10) in
  Ok (List.filter (fun p => date_geb (fecha_nacimiento p) cutoff) (dict_values m)).

(** ** The simulated clock *)

Definition tick_diario (dias : Z) : M unit :=
  let* fs := leer fecha_simulada in
  let* fs' := lift (date_add_days fs dias) in
  fun st => (Ok tt, con_fecha_simulada fs' st).

Definition estado_libre (e : string) : bool :=
  bool_decide (e = "Soltero(a)") || bool_decide (e = "Divorciado(a)")
  || bool_decide (e = "Viudo(a)").

(** The consecutive pairs [(l[i], l[i+1])] for even [i]. *)
Fixpoint de_dos_en_dos {A} (l : list A) : list (A * A) :=
  match l with
  | x :: y :: l' => (x, y) :: de_dos_en_dos l'
  | _ => []
  end.

(** Step 2: random deaths among the living. *)
Definition fallecimientos (fam : Familia) : M unit :=
  para_cada (todas_personas fam) (fun p =>
    let* per := objeto p in
    if negb (vivo per) then ret tt
    else
      let* fs := leer fecha_simulada in
      let* hoy := leer fecha_hoy in
      let* fe := lift (float_of_int (edad per (Some fs) hoy)) in
      let* q1 := lift (fdiv fe (entero 1200)) in
      let base := fadd (decimal 1 1000) q1 in
      let* fsal := lift (float_of_int (50 - salud_emocional per)) in
      let* q2 := lift (fdiv fsal (entero 10000)) in
      let base := fadd base q2 in
      let* u := random_random in
      if fltb u base then
        let* _ := modificar p (marcar_fallecido (Some fs) hoy) in
        gestionar_viudez fam p
      else ret tt).

(** Step 3: unions among the shuffled living. *)
Definition uniones (id_fam : string) (fam : Familia) : M unit :=
  let* vivos := leer (fun st =>
                  List.filter (fun q => match objetos st !! q with
                                   | Some per => vivo per
                                   | None => false
                                   end) (todas_personas fam)) in
  let* vivos := shuffle vivos in
  para_cada (de_dos_en_dos vivos) (fun ab =>
    let* pa := objeto ab.1 in
    let* pb := objeto ab.2 in
    if estado_libre (estado_civil pa) && estado_libre (estado_civil pb) then
      let* hoy := leer fecha_hoy in
      let* compatible := lift (es_compatible_para_union pa pb hoy) in
      if compatible then
        let* u := random_random in
        if fltb u (decimal 25 100) then
          let* _ := unir_pareja id_fam (cedula pa) (cedula pb) in ret tt
        else ret tt
      else ret tt
    else ret tt).

(** Step 4: births in the couples, each couple taken once. *)
Definition parejas_de (o : list Persona) (fam : Familia) : list (ref * option ref) :=
  flat_map (fun p =>
              match o !! p with
              | Some per =>
                  omap (fun ced_par =>
                          if String.ltb (cedula per) ced_par
                          then Some (p, obtener fam ced_par) else None)
                       (elements (parejas per))
              | None => []
              end) (todas_personas fam).

Definition nacimientos (id_fam : string) (fam : Familia) : M unit :=
  let* parejas_l := leer (fun st => parejas_de (objetos st) fam) in
  para_cada parejas_l (fun ab =>
    match ab.2 with
    | None => ret tt
    | Some b =>
        let a := ab.1 in
        let* pa := objeto a in
        let* pb := objeto b in
        let* fs := leer fecha_simulada in
        let* hoy := leer fecha_hoy in
        if (edad pa (Some fs) hoy <=? 45) && (edad pb (Some fs) hoy <=? 45) then
          let* u := random_random in
          if fltb u (decimal 15 100) then
            let* _ := registrar_nacimiento_de_pareja id_fam (cedula pa) (cedula pb) in
            ret tt
          else ret tt
        else ret tt
    end).

Definition evento_cada_10s (id_fam : string) : M unit :=
  let* fam := get_familia id_fam in
  match fam with
  | None => ret tt
  | Some fam =>
      let* _ := tick_diario 365 in
      let* _ := fallecimientos fam in
      let* _ := uniones id_fam fam in
      let* _ := nacimientos id_fam fam in
      (* the family object has the children born in step 4 *)
      let* fam := get_familia id_fam in
      match fam with
      | Some fam => reasignar_tutoria_menores fam
      | None => ret tt
      end
  end.

(** ** Notions used to state the properties *)

Definition raises {A} (r : res A) : Prop := exists e, r = Raise e.

(** Two distinct labels of the vocabulary, as [random.sample] returns
    them. *)
Definition muestra_valida (l : list string) : Prop :=
  exists x y, l = [x; y] /\ x ≠ y /\ x ∈ AFINIDADES /\ y ∈ AFINIDADES.

(** The family [fam] once it has [p] under the identifier [ced]. *)
Definition Familia_con (fam : Familia) (ced : string) (p : ref) : Familia :=
  mk_Familia (id_familia fam) (nombre_familia fam) (dict_set ced p (miembros fam)).

(** The store after a successful [unir_pareja] on the objects [a] and [b]. *)
Definition objetos_unidos (a b : ref) (pa pb : Persona) (hoy : date)
    (o : list Persona) : list Persona :=
  alter (registrar_evento ("Unión de pareja con " ++ nombre pa) None hoy) b
    (alter (registrar_evento ("Unión de pareja con " ++ nombre pb) None hoy) a
       (alter (con_estado_civil "Unión libre") b
          (alter (con_estado_civil "Unión libre") a
             (alter (fun p => con_parejas (agregar_a (cedula pa) (parejas p)) p) b
                (alter (fun p => con_parejas (agregar_a (cedula pb) (parejas p)) p) a
                   o))))).

(** The store after the marriage steps of [registrar_matrimonio]. *)
Definition objetos_casados (a b : ref) (pa pb : Persona) (hoy : date)
    (o : list Persona) : list Persona :=
  alter (registrar_evento ("Matrimonio con " ++ nombre pa) None hoy) b
    (alter (registrar_evento ("Matrimonio con " ++ nombre pb) None hoy) a
       (alter (con_estado_civil "Casado(a)") b
          (alter (con_estado_civil "Casado(a)") a o))).

(** The identifier the random draw gives to a child. *)
Definition cedula_sorteada (st : Mundo) : string :=
  str (10000000 + Z.of_N (hd 0%N (azar st)) mod 90000000).

(** The two floating-point computations of the index, on their integer
    inputs. *)
Definition score_afinidad_float (c t : Z) : res Z :=
  let? q := int_truediv c t in int_of_float (fmul (entero 100) q).

Definition indice_float (s e g : Z) : res Z :=
  let? fa := float_of_int s in
  let? fe := float_of_int e in
  let? fg := float_of_int g in
  int_of_float (fadd (fadd (fmul (decimal 6 10) fa) (fmul (decimal 2 10) fe))
                     (fmul (decimal 2 10) fg)).

Definition res_eqb_Z (r : res Z) (z : Z) : bool :=
  match r with Ok v => v =? z | Raise _ => false end.

(** With [c] shared labels out of [t], the float score is the exact one. *)
Definition afinidad_coincide (t c : nat) : bool :=
  res_eqb_Z (score_afinidad_float (Z.of_nat c) (Z.of_nat t))
            (100 * Z.of_nat c / Z.of_nat t).

(** On the scores [s], [e], [g], the float index and the exact one are on
    the same side of 70. *)
Definition umbral_coincide (s e : nat) (g : Z) : bool :=
  match indice_float (Z.of_nat s) (Z.of_nat e) g with
  | Ok i => Bool.eqb (i >=? 70) (70 <=? (6 * Z.of_nat s + 2 * Z.of_nat e + 2 * g) / 10)
  | Raise _ => false
  end.

(** A person of the data model: its emotional health is in [0, 100] and
    its affinity labels are labels of the fixed vocabulary. *)
Definition persona_del_modelo (p : Persona) : Prop :=
  0 <= salud_emocional p <= 100 /\ afinidades p ⊆ list_to_set AFINIDADES.

(** Fifty distinct labels, for persons with many affinities. *)
Definition etiquetas (n : nat) : gset string :=
  list_to_set (map (fun i => "afinidad " ++ str (Z.of_nat i)) (seq 0 n)).

(** A child link of the family: [c] is a member and [c'] is one of its
    children. *)
Definition enlace (m : dict Persona) (c c' : string) : Prop :=
  exists p, dict_get c m = Some p /\ c' ∈ hijos p.

(** A cycle of child links can be reached from [x]. *)
Definition ciclo_alcanzable (m : dict Persona) (x : string) : Prop :=
  exists c, rtc (enlace m) x c /\ tc (enlace m) c c.

(** [p] is a living member reached from [x] by one or more child links. *)
Definition descendiente_vivo (m : dict Persona) (x : string) (p : Persona) : Prop :=
  exists c, tc (enlace m) x c /\ dict_get c m = Some p /\ vivo p = true.

(** The loop takes finitely many iterations to process the top [c] of the
    stack with all that hangs from it, and then has the rest of the stack
    and the living persons met. *)
Definition procesa (m : dict Persona) (c : string) : Prop :=
  forall pre res, exists n out,
    (forall k, descendientes_bucle (n + k) m (pre ++ [c]) res
               = descendientes_bucle k m pre (res ++ out))
    /\ forall p, p ∈ out <->
                 exists c', rtc (enlace m) c c' /\ dict_get c' m = Some p
                            /\ vivo p = true.

Definition procesa_lista (m : dict Persona) (cs : list string) : Prop :=
  forall pre res, exists n out,
    (forall k, descendientes_bucle (n + k) m (pre ++ cs) res
               = descendientes_bucle k m pre (res ++ out))
    /\ forall p, p ∈ out <->
                 exists c c', c ∈ cs /\ rtc (enlace m) c c'
                              /\ dict_get c' m = Some p /\ vivo p = true.

Definition alcanza_ciclo (m : dict Persona) (c : string) : Prop :=
  exists d, rtc (enlace m) c d /\ tc (enlace m) d d.

(** A person without its history; two persons that are the same up to
    their history. *)
Definition sin_historial (p : Persona) : Persona := con_historial [] p.

Definition salvo_historial (p q : Persona) : Prop :=
  sin_historial p = sin_historial q.






Definition con_entradas (e : list (Z * string)) (p : Persona) : Persona :=
  con_historial (historial p ++ e) p.

(** ** Reachable states and their invariant *)

(** [r] is registered in the family [id_fam] under the identifier [k]. *)
Definition registrado (st : Mundo) (id_fam k : string) (r : ref) : Prop :=
  exists fam, dict_get id_fam (familias st) = Some fam /\ obtener fam k = Some r.

(** [p] is the member of the family [id_fam] with the identifier [k]. *)
Definition miembro (st : Mundo) (id_fam k : string) (r : ref) (p : Persona) : Prop :=
  registrado st id_fam k r /\ objetos st !! r = Some p.

Record Inv (st : Mundo) : Prop := mk_Inv {
  inv_claves : forall id_fam fam,
    dict_get id_fam (familias st) = Some fam -> NoDup (dict_keys (miembros fam));
  inv_cedula : forall id_fam k r,
    registrado st id_fam k r -> exists p, objetos st !! r = Some p /\ cedula p = k;
  inv_unico : forall id_fam k r id_fam' k',
    registrado st id_fam k r -> registrado st id_fam' k' r ->
    id_fam = id_fam' /\ k = k';
  inv_resuelve : forall id_fam k r p c,
    miembro st id_fam k r p -> c ∈ parejas p -> exists r', registrado st id_fam c r';
  inv_mutuo : forall id_fam ka ra pa kb rb pb,
    miembro st id_fam ka ra pa -> vivo pa = true -> kb ∈ parejas pa ->
    miembro st id_fam kb rb pb -> ka ∈ parejas pb
}.

(** The objects of [st'] are those of [st], each with the same identifier
    and not alive unless it was. *)
Definition mismos_objetos (st st' : Mundo) : Prop :=
  familias st' = familias st
  /\ forall r p', objetos st' !! r = Some p' ->
       exists p, objetos st !! r = Some p /\ cedula p' = cedula p
                 /\ (vivo p' = true -> vivo p = true).

(** A modification that keeps the identifier and the partner set, and
    does not bring back to life. *)
Definition discreta (f : Persona -> Persona) : Prop :=
  forall p, cedula (f p) = cedula p /\ parejas (f p) = parejas p
            /\ (vivo (f p) = true -> vivo p = true).

(** What the amended claim asks of a person object given to
    [agregar_persona]: an empty partner set, and no registration yet. *)
Definition persona_propia (st : Mundo) (p : ref) : Prop :=
  (exists per, objetos st !! p = Some per /\ parejas per = ∅)
  /\ forall id_fam k, ~ registrado st id_fam k p.

(** From a state with [P], the computation ends with a value and a state
    with [Q], or raises in a state with [E]. *)
Definition hoare {A} (P : Mundo -> Prop) (c : M A) (Q : A -> Mundo -> Prop)
    (E : Mundo -> Prop) : Prop :=
  forall st, P st ->
    match c st with
    | (Ok a, st') => Q a st'
    | (Raise _, st') => E st'
    end.

(** [I] holds after the computation, and [E] where it raises. *)
Definition estable {A} (I E : Mundo -> Prop) (c : M A) : Prop :=
  hoare I c (fun _ => I) E.

Definition incluye (I E : Mundo -> Prop) : Prop := forall st, I st -> E st.

(** [I] does not depend on the random outcomes to come. *)
Definition sin_azar (I : Mundo -> Prop) : Prop :=
  forall st az, I st -> I (con_azar az st).

(** The invariant with a family known to be registered, and with a member
    of it known to be deceased. *)
Definition Inv_fam (id_fam : string) (fam : Familia) (st : Mundo) : Prop :=
  Inv st /\ dict_get id_fam (familias st) = Some fam.

Definition Inv_fallecida (id_fam : string) (fam : Familia) (p : ref) (st : Mundo) : Prop :=
  Inv_fam id_fam fam st
  /\ exists pd, objetos st !! p = Some pd /\ vivo pd = false
                /\ obtener fam (cedula pd) = Some p.

(** The three invariants are kept by a discrete modification. *)
Definition admite_discretas (I : Mundo -> Prop) : Prop :=
  forall r f st, discreta f -> I st -> I (modificar r f st).2.

(** One step of a client of the registry: it builds a person object, time
    passes (today's date and the random outcomes to come are not the
    registry's), or it calls one of the operations. [G] is what is asked of
    an object given to [agregar_persona]. *)
Inductive paso (G : Mundo -> ref -> Prop) (st : Mundo) : Mundo -> Prop :=
| paso_objeto p : paso G st (crear_objeto p st).2
| paso_ambiente az hoy :
    paso G st (mk_Mundo (objetos st) (familias st) (fecha_simulada st) az hoy)
| paso_crear_familia id_fam nom : paso G st (crear_familia id_fam nom st).2
| paso_agregar_persona id_fam r : G st r -> paso G st (agregar_persona id_fam r st).2
| paso_unir_pareja id_fam c1 c2 : paso G st (unir_pareja id_fam c1 c2 st).2
| paso_registrar_matrimonio id_fam c1 c2 :
    paso G st (registrar_matrimonio id_fam c1 c2 st).2
| paso_registrar_padre_hijo id_fam c1 c2 :
    paso G st (registrar_padre_hijo id_fam c1 c2 st).2
| paso_registrar_nacimiento id_fam c1 c2 :
    paso G st (registrar_nacimiento_de_pareja id_fam c1 c2 st).2
| paso_tick_diario dias : paso G st (tick_diario dias st).2
| paso_evento_cada_10s id_fam : paso G st (evento_cada_10s id_fam st).2.

Inductive alcanzable (G : Mundo -> ref -> Prop) : Mundo -> Prop :=
| alcanzable_inicial hoy az : alcanzable G (Mundo_inicial hoy az)
| alcanzable_paso st st' : alcanzable G st -> paso G st st' -> alcanzable G st'.

(** Any person object may be given to [agregar_persona]. *)
Definition persona_cualquiera (st : Mundo) (p : ref) : Prop :=
  is_Some (objetos st !! p).

Definition ana : Persona :=
  con_afinidades {["Arte"; "Música"]}
    (Persona_nueva "101" "Ana" (mk_date 1985 5 10) "Femenino" "Cartago").
Definition luis : Persona :=
  con_afinidades {["Arte"; "Música"]}
    (Persona_nueva "102" "Luis" (mk_date 1982 3 2) "Masculino" "Alajuela").

(** Ana and Luis are added to the family "F1" and united. *)
Definition mundo_unidos : Mundo :=
  let st := Mundo_inicial (mk_date 2025 6 15)
              [0; 9007199254740991; 9007199254740991]%N in
  let st := (crear_familia "F1" "Mora" st).2 in
  let st := (crear_objeto ana st).2 in
  let st := (crear_objeto luis st).2 in
  let st := (agregar_persona "F1" 0%nat st).2 in
  let st := (agregar_persona "F1" 1%nat st).2 in
  (unir_pareja "F1" "101" "102" st).2.

(** Then the clock ticks, and Ana dies in it. *)
Definition mundo_viudez : Mundo := (evento_cada_10s "F1" mundo_unidos).2.

(** The references registered in some family. *)
Definition registradas (st : Mundo) : list ref :=
  flat_map (fun fam => dict_values (miembros fam)) (dict_values (familias st)).

(** Ana is built with Luis already in her partner set, and both are added
    to the family "F1". *)
Definition mundo_parejas_previas : Mundo :=
  let st := Mundo_inicial (mk_date 2025 6 15) [] in
  let st := (crear_familia "F1" "Mora" st).2 in
  let st := (crear_objeto (con_parejas {["102"]} ana) st).2 in
  let st := (crear_objeto luis st).2 in
  let st := (agregar_persona "F1" 0%nat st).2 in
  (agregar_persona "F1" 1%nat st).2.

(** Ana is added to the families "F1" and "F2"; each has its own Luis, and
    she is united with the one of "F2". *)
Definition mundo_dos_familias : Mundo :=
  let st := Mundo_inicial (mk_date 2025 6 15) [] in
  let st := (crear_familia "F1" "Mora" st).2 in
  let st := (crear_familia "F2" "Solano" st).2 in
  let st := (crear_objeto ana st).2 in
  let st := (crear_objeto luis st).2 in
  let st := (crear_objeto luis st).2 in
  let st := (agregar_persona "F1" 0%nat st).2 in
  let st := (agregar_persona "F1" 1%nat st).2 in
  let st := (agregar_persona "F2" 0%nat st).2 in
  let st := (agregar_persona "F2" 2%nat st).2 in
  (unir_pareja "F2" "101" "102" st).2.

(** Two living members of [id_fam] of whom the first has the second in
    its partner set, and the second has not the first. *)
Definition parejas_no_mutuas (st : Mundo) (id_fam : string) (ra rb : ref) : Prop :=
  exists fam pa pb,
    dict_get id_fam (familias st) = Some fam
    /\ obtener fam (cedula pa) = Some ra /\ obtener fam (cedula pb) = Some rb
    /\ objetos st !! ra = Some pa /\ objetos st !! rb = Some pb
    /\ vivo pa = true /\ vivo pb = true
    /\ cedula pb ∈ parejas pa /\ cedula pa ∉ parejas pb.

(** ** Notions for the further properties *)

(** The date [d] with its year moved by [n] years. *)
Definition date_mas_anios (n : Z) (d : date) : date :=
  mk_date (year d + n) (month d) (day d).

(** [f] holds of the [n] integers from [z] on. *)
Fixpoint todos_desde (f : Z -> bool) (n : nat) (z : Z) : bool :=
  match n with
  | O => true
  | S n' => if f z then todos_desde f n' (z + 1) else false
  end.

(** [d] is a date of the first cycle of 400 years whose ordinal is [n]. *)
Definition comprueba_ordinal (d : date) (n : Z) : bool :=
  (toordinal d =? n) && date_ok d && (year d <=? 400)
  && ((145731 <? n) || (year d <=? 399)).

(** The modifications the operations make to a [Persona] object. *)
Inductive mutacion : (Persona -> Persona) -> Prop :=
| mutacion_afinidades l :
    mutacion (fun p => con_afinidades (afinidades p ∪ list_to_set l) p)
| mutacion_evento d f h : mutacion (registrar_evento d f h)
| mutacion_pareja c : mutacion (fun p => con_parejas (agregar_a c (parejas p)) p)
| mutacion_union : mutacion (con_estado_civil "Unión libre")
| mutacion_casado : mutacion (con_estado_civil "Casado(a)")
| mutacion_viudo : mutacion (con_estado_civil "Viudo(a)")
| mutacion_padre c : mutacion (fun p => con_padres (agregar_a c (padres p)) p)
| mutacion_padres c1 c2 : mutacion (fun q => con_padres (padres q ∪ {[c1; c2]}) q)
| mutacion_hijo c : mutacion (fun p => con_hijos (agregar_a c (hijos p)) p)
| mutacion_sin_pareja c : mutacion (fun p => con_parejas (parejas p ∖ {[c]}) p)
| mutacion_salud :
    mutacion (fun p => con_salud_emocional (Z.max 0 (salud_emocional p - 10)) p)
| mutacion_fallecido fd h : mutacion (marcar_fallecido fd h).

(** A property of the state that the random outcomes, the modifications of
    objects, the construction of objects and the registration of a person
    keep. *)
Record conservado (I : Mundo -> Prop) : Prop := mk_conservado {
  c_azar : sin_azar I;
  c_mutacion : forall r f st, mutacion f -> I st -> I (modificar r f st).2;
  c_objeto : forall p st, I st -> I (crear_objeto p st).2;
  c_agregar : forall id_fam r, estable I I (agregar_persona id_fam r)
}.

(** The object behind [r] exists and has the property [P]. *)
Definition en (r : nat) (P : Persona -> Prop) (st : Mundo) : Prop :=
  exists q, objetos st !! r = Some q /\ P q.

(** [P] is kept by every modification the operations make. *)
Definition perdura (P : Persona -> Prop) : Prop :=
  forall f, mutacion f -> forall q, P q -> P (f q).

(** The simulated date is [d]. *)
Definition reloj_en (d : date) (st : Mundo) : Prop := fecha_simulada st = d.

(** The family [fam'] is [fam] with members added at the end. *)
Definition familia_extiende (fam fam' : Familia) : Prop :=
  id_familia fam' = id_familia fam /\ nombre_familia fam' = nombre_familia fam
  /\ miembros fam `prefix_of` miembros fam'.

(** The family registered as [id_fam] extends [fam]. *)
Definition registro_de (id_fam : string) (fam : Familia) (st : Mundo) : Prop :=
  exists fam', dict_get id_fam (familias st) = Some fam' /\ familia_extiende fam fam'.

(** After the tick of the clock come the clock's own steps among the
    members of the family. *)
Definition resto_del_evento (id_fam : string) (fam : Familia) : M unit :=
  let* _ := fallecimientos fam in
  let* _ := uniones id_fam fam in
  let* _ := nacimientos id_fam fam in
  let* fam := get_familia id_fam in
  match fam with
  | Some fam => reasignar_tutoria_menores fam
  | None => ret tt
  end.

(** The first tick kills Ana; the second is a day later. *)
Definition mundo_dia_despues : Mundo := (tick_diario 1 mundo_viudez).2.

(** *** The other queries *)

(** [p.padres and q.padres and p.padres.intersection(q.padres)] *)
Definition comparten_padre (p q : Persona) : bool :=
  negb (bool_decide (padres p = ∅)) && negb (bool_decide (padres q = ∅))
  && negb (bool_decide (padres p ∩ padres q = ∅)).

Definition relacion_entre (m : dict Persona) (ced_a ced_b : string) : string :=
  match dict_get ced_a m, dict_get ced_b m with
  | Some a, Some b =>
      if bool_decide (cedula b ∈ parejas a) then "Pareja"
      else if bool_decide (cedula b ∈ hijos a) then "Padre/Madre de B"
      else if bool_decide (cedula a ∈ hijos b) then "Hijo(a) de B"
      else if comparten_padre a b then "Hermanos(as)"
      else
        let padres_a := map (fun c => dict_get c m) (elements (padres a)) in
        let padres_b := map (fun c => dict_get c m) (elements (padres b)) in
        if existsb (fun pa =>
                      existsb (fun pb =>
                                 match pa, pb with
                                 | Some pa, Some pb => comparten_padre pa pb
                                 | _, _ => false
                                 end) padres_b) padres_a
        then "Primos(as) de primer grado"
        else "Relación lejana o no directa"
  | _, _ => "No encontrado"
  end.

(** The last loop of [primos_primer_grado]: the first person of each
    identifier, in order. *)
Fixpoint sin_repetidos (vistos : gset string) (l : list Persona) : list Persona :=
  match l with
  | [] => []
  | p :: l' =>
      if bool_decide (cedula p ∈ vistos) then sin_repetidos vistos l'
      else p :: sin_repetidos (vistos ∪ {[cedula p]}) l'
  end.

(** The members, other than [padre], that share a parent with it. *)
Definition hermanos_de (m : dict Persona) (padre : Persona) : list Persona :=
  List.filter (fun q => negb (bool_decide (cedula q = cedula padre))
                        && negb (bool_decide (padres q = ∅))
                        && negb (bool_decide (padres padre ∩ padres q = ∅)))
              (dict_values m).

Definition primos_primer_grado (m : dict Persona) (ced_x : string) : list Persona :=
  match dict_get ced_x m with
  | None => []
  | Some x =>
      let primos :=
        flat_map (fun ced_padre =>
                    match dict_get ced_padre m with
                    | None => []
                    | Some padre =>
                        flat_map (fun tio =>
                                    omap (fun ced_sobr => dict_get ced_sobr m)
                                         (elements (hijos tio)))
                                 (hermanos_de m padre)
                    end) (elements (padres x)) in
      sin_repetidos ∅ primos
  end.

(** The parent [antepasados_maternos] goes up to from [p]: the first
    parent that is a member and a woman, and without one the first parent
    of the set, if it is a member. *)
Definition madre_de (m : dict Persona) (p : Persona) : option Persona :=
  match List.find (fun o : option Persona =>
                     match o with
                     | Some q => bool_decide (genero q = "Femenino")
                     | None => false
                     end)
                  (map (fun c => dict_get c m) (elements (padres p))) with
  | Some (Some q) => Some q
  | _ =>
      match elements (padres p) with
      | [] => None
      | c :: _ => dict_get c m
      end
  end.

(** The loop of [antepasados_maternos]; it has no bound of its own, and
    [None] is a run that has not finished within [fuel] iterations. *)
Fixpoint antepasados_bucle (fuel : nat) (m : dict Persona) (cur : option Persona)
    (res : list Persona) : option (list Persona) :=
  match fuel with
  | O => None
  | S fuel' =>
      match cur with
      | None => Some res
      | Some c => antepasados_bucle fuel' m (madre_de m c) (res ++ [c])%list
      end
  end.

Definition antepasados_maternos (fuel : nat) (m : dict Persona) (ced_x : string)
    : option (list Persona) :=
  match dict_get ced_x m with
  | None => Some []
  | Some x => antepasados_bucle fuel m (madre_de m x) []
  end.

(** One iteration of the inner loop of [parejas_con_mas_de_dos_hijos]. *)
Definition paso_pareja (m : dict Persona) (p : Persona)
    (acc : gset (string * string) * list (Persona * Persona)) (ced_par : string)
    : gset (string * string) * list (Persona * Persona) :=
  let '(vistos, res) := acc in
  if bool_decide ((cedula p, ced_par) ∈ vistos)
     || bool_decide ((ced_par, cedula p) ∈ vistos) then acc
  else
    match dict_get ced_par m with
    | None => acc
    | Some pareja =>
        (vistos ∪ {[(cedula p, ced_par)]},
         if 2 <=? Z.of_nat (size (hijos p ∩ hijos pareja))
         then (res ++ [(p, pareja)])%list else res)
    end.

Definition parejas_con_mas_de_dos_hijos (m : dict Persona)
    : list (Persona * Persona) :=
  (foldl (fun acc p => foldl (paso_pareja m p) acc (elements (parejas p)))
         (∅, []) (dict_values m)).2.

Definition fallecidos_antes_de_50 (hoy : date) (m : dict Persona) : list Persona :=
  List.filter (fun p => match fecha_fallecimiento p with
                        | Some f => anios_entre (Some (fecha_nacimiento p)) (Some f) hoy <? 50
                        | None => false
                        end) (dict_values m).

(** The relation read from the other side. *)
Definition inversa (s : string) : string :=
  if bool_decide (s = "Padre/Madre de B") then "Hijo(a) de B"
  else if bool_decide (s = "Hijo(a) de B") then "Padre/Madre de B"
  else s.

(** Every member of the family is an object of the store (a reference
    always has its object). *)
Definition completa (o : list Persona) (fam : Familia) : Prop :=
  forall r, r ∈ todas_personas fam -> is_Some (o !! r).

(** The store after a successful [registrar_padre_hijo] on the objects
    [padre] and [hijo]. *)
Definition objetos_enlazados (padre hijo : nat) (pp ph : Persona)
    (o : list Persona) : list Persona :=
  alter (fun p => con_hijos (agregar_a (cedula ph) (hijos p)) p) padre
    (alter (fun p => con_padres (agregar_a (cedula pp) (padres p)) p) hijo o).

(** Ana and Luis are members of "F1" and not yet united. *)
Definition mundo_registrados : Mundo :=
  let st := Mundo_inicial (mk_date 2025 6 15)
              [0; 9007199254740991; 9007199254740991]%N in
  let st := (crear_familia "F1" "Mora" st).2 in
  let st := (crear_objeto ana st).2 in
  let st := (crear_objeto luis st).2 in
  let st := (agregar_persona "F1" 0%nat st).2 in
  (agregar_persona "F1" 1%nat st).2.

Definition familia_F1 : Familia :=
  mk_Familia "F1" "Mora" [("101", 0%nat); ("102", 1%nat)].

(** The status of a person in a union or a marriage. *)
Definition en_union (p : Persona) : Prop :=
  estado_civil p = "Unión libre" \/ estado_civil p = "Casado(a)".

(** What [gestionar_viudez] does to the surviving partner of the person
    with the identifier [c]. *)
Definition enviudada (hoy : date) (c : string) (p : Persona) : Persona :=
  con_salud_emocional (Z.max 0 (salud_emocional p - 10))
    (registrar_evento "Quedó viudo(a)" None hoy
       (con_parejas (parejas p ∖ {[c]}) (con_estado_civil "Viudo(a)" p))).

(** The store after the iteration of [gestionar_viudez] for the partner
    identifier [ced]. *)
Definition paso_viudez (fam : Familia) (hoy : date) (c : string)
    (o : list Persona) (ced : string) : list Persona :=
  match obtener fam ced with
  | Some r =>
      match o !! r with
      | Some pp => if vivo pp then alter (enviudada hoy c) r o else o
      | None => o
      end
  | None => o
  end.

(** The member [p] is a first cousin of the member registered as [x] as
    [primos_primer_grado] finds them: a child, by its identifier, of a
    member other than a parent of [x] that shares a parent with that
    parent. *)
Definition es_primo (m : dict Persona) (x : string) (p : Persona) : Prop :=
  exists px cpad padre tio cs,
    dict_get x m = Some px /\ cpad ∈ padres px /\ dict_get cpad m = Some padre
    /\ tio ∈ dict_values m /\ cedula tio ≠ cedula padre
    /\ padres padre ∩ padres tio ≠ ∅
    /\ cs ∈ hijos tio /\ dict_get cs m = Some p.

(** A family whose members are registered under their own identifier,
    once, and whose child links have their parent link. *)
Record bien_formada (m : dict Persona) : Prop := mk_bien_formada {
  bf_claves : NoDup (dict_keys m);
  bf_cedula : forall k p, dict_get k m = Some p -> cedula p = k;
  bf_enlaces : forall p c q,
    p ∈ dict_values m -> c ∈ hijos p -> dict_get c m = Some q -> cedula p ∈ padres q
}.

(** A family whose members are registered once, under their own
    identifier. *)
Definition registrada (m : dict Persona) : Prop :=
  NoDup (dict_keys m) /\ forall k p, dict_get k m = Some p -> cedula p = k.

(** Three generations: the grandparents Rosa and Juan, their daughters
    Marta and Elena, and the grandchildren Ana (of Marta), Leo and Eva (of
    Elena); Juan died at 49. *)
Definition persona_de (ced nom : string) (nac : date) (gen : string)
    (pad hij par : list string) (def : option date) : Persona :=
  con_fecha_fallecimiento def
    (con_parejas (list_to_set par)
       (con_hijos (list_to_set hij)
          (con_padres (list_to_set pad)
             (Persona_nueva ced nom nac gen "Cartago")))).

Definition tres_generaciones : dict Persona :=
  [("1", persona_de "1" "Rosa" (mk_date 1950 1 1) "Femenino" [] ["3"; "4"] ["2"] None);
   ("2", persona_de "2" "Juan" (mk_date 1948 5 5) "Masculino" [] ["3"; "4"] ["1"]
           (Some (mk_date 1998 5 4)));
   ("3", persona_de "3" "Marta" (mk_date 1972 3 3) "Femenino" ["1"; "2"] ["5"] [] None);
   ("4", persona_de "4" "Elena" (mk_date 1975 4 4) "Femenino" ["1"; "2"] ["6"; "7"] [] None);
   ("5", persona_de "5" "Ana" (mk_date 2000 6 6) "Femenino" ["3"] [] [] None);
   ("6", persona_de "6" "Leo" (mk_date 2002 7 7) "Masculino" ["4"] [] [] None);
   ("7", persona_de "7" "Eva" (mk_date 2004 8 8) "Femenino" ["4"] [] [] None)].

(** [bien_formada], computed. *)
Definition bien_formada_b (m : dict Persona) : bool :=
  bool_decide (NoDup (dict_keys m))
  && forallb (fun kp : string * Persona => bool_decide (cedula kp.2 = kp.1)) m
  && forallb (fun p =>
                forallb (fun c => match dict_get c m with
                                  | Some q => bool_decide (cedula p ∈ padres q)
                                  | None => true
                                  end) (elements (hijos p)))
             (dict_values m).

(** The relations of [relacion_entre] between close relatives. *)
Definition RELACIONES_CERCANAS : list string :=
  ["Pareja"; "Padre/Madre de B"; "Hijo(a) de B"; "Hermanos(as)";
   "Primos(as) de primer grado"].

(** [q] is a parent of [p] on record that is a member of the family. *)
Definition progenitor (m : dict Persona) (p q : Persona) : Prop :=
  exists c, c ∈ padres p /\ dict_get c m = Some q.

(** [q] is the parent [antepasados_maternos] may go up to from [p]: a
    parent on record that is a member, and a woman if some parent of [p]
    that is a member is a woman. *)
Definition asciende (m : dict Persona) (p q : Persona) : Prop :=
  progenitor m p q
  /\ ((exists q', progenitor m p q' /\ genero q' = "Femenino") ->
      genero q = "Femenino").

(** Each person of the list is related to the one before it, the first to
    [p]. *)
Fixpoint cadena {A} (R : A -> A -> Prop) (p : A) (l : list A) : Prop :=
  match l with
  | [] => True
  | q :: l' => R p q /\ cadena R q l'
  end.

(** The iterations of the two loops of [parejas_con_mas_de_dos_hijos], in
    order: each person with each identifier of its partner set. *)
Definition pares_de (l : list Persona) : list (Persona * string) :=
  flat_map (fun p => map (pair p) (elements (parejas p))) l.

(** [q] is the member that the partner set of the member [p] names, and
    they have at least two children in common. *)
Definition pareja_con_hijos (m : dict Persona) (p q : Persona) : Prop :=
  p ∈ dict_values m /\ cedula q ∈ parejas p /\ dict_get (cedula q) m = Some q
  /\ (2 <= size (hijos p ∩ hijos q))%nat.

(** What holds of the identifier pairs seen and of the answer after the
    iterations [l]. *)
Record recorrido (m : dict Persona) (l : list (Persona * string))
    (acc : gset (string * string) * list (Persona * Persona)) : Prop := mk_recorrido {
  rec_vistos : forall a b, (a, b) ∈ acc.1 ->
    exists p q, p ∈ dict_values m /\ cedula p = a /\ b ∈ parejas p
                /\ dict_get b m = Some q
                /\ ((2 <= size (hijos p ∩ hijos q))%nat -> (p, q) ∈ acc.2);
  rec_res : forall p q, (p, q) ∈ acc.2 ->
    pareja_con_hijos m p q /\ (cedula p, cedula q) ∈ acc.1;
  rec_unico : NoDup acc.2 /\ forall p q, (p, q) ∈ acc.2 -> p ≠ q -> (q, p) ∉ acc.2;
  rec_completo : forall p ced q, (p, ced) ∈ l -> dict_get ced m = Some q ->
    (2 <= size (hijos p ∩ hijos q))%nat -> (p, q) ∈ acc.2 \/ (q, p) ∈ acc.2
}.

(** The child [registrar_nacimiento_de_pareja] builds for the parents
    [pa] and [pb], once registered: [c] is its identifier, [fs] the
    simulated date and [l] the two affinities drawn. *)
Definition recien_nacido (c nom gen prov : string) (fs : date) (l : list string)
    (pa pb : Persona) : Persona :=
  {| cedula := c; nombre := nom; fecha_nacimiento := fs; genero := gen;
     provincia := prov; estado_civil := "Soltero(a)";
     fecha_fallecimiento := None;
     padres := {[cedula pa; cedula pb]}; hijos := ∅; parejas := ∅;
     afinidades := list_to_set l;
     historial := [(year fs, "Nacimiento")]; salud_emocional := 75 |}.

(** The store after a successful [registrar_nacimiento_de_pareja]: [n] is
    the new object. *)
Definition objetos_con_hijo (a b n : nat) (hijo : Persona) (hoy : date)
    (o : list Persona) : list Persona :=
  alter (registrar_evento ("Nacimiento de hijo/a " ++ nombre hijo) None hoy) b
    (alter (registrar_evento ("Nacimiento de hijo/a " ++ nombre hijo) None hoy) a
       (alter (fun q => con_hijos (agregar_a (cedula hijo) (hijos q)) q) b
          (alter (fun q => con_hijos (agregar_a (cedula hijo) (hijos q)) q) a
             (o ++ [hijo])%list))).

(** Ana and Luis, united, with random outcomes to come. *)
Definition mundo_pareja : Mundo := con_azar [5; 3; 1; 0; 2; 4]%N mundo_unidos.

(** Ana, united with Luis, has just been marked as deceased. *)
Definition mundo_fallecida : Mundo :=
  (modificar 0%nat (marcar_fallecido (Some (mk_date 2026 6 15)) (mk_date 2025 6 15))
     mundo_unidos).2.

(** *** The generations of the drawn tree

    [_layout_generacional] of the interface, [genealogia_ui.py], reads a
    family as the queries of the engine do. *)

(** [all(fam.obtener(c) is None for c in p.padres)]. *)
Definition padres_fuera (m : dict Persona) (p : Persona) : bool :=
  forallb (fun c => match dict_get c m with None => true | Some _ => false end)
    (elements (padres p)).

(** The queue [_layout_generacional] starts from: the members without
    parents, then the members whose parents are all outside the family,
    each at level 0. *)
Definition cola_inicial (m : dict Persona) : list (string * Z) :=
  (map (fun p => (cedula p, 0))
     (List.filter (fun p => bool_decide (padres p = ∅)) (dict_values m))
   ++ map (fun p => (cedula p, 0))
        (List.filter (fun p => negb (bool_decide (padres p = ∅)) && padres_fuera m p)
           (dict_values m)))%list.

(** The loop of [_layout_generacional]; [queue.pop(0)] takes the first
    element of the list. [fuel] bounds the number of iterations. *)
Fixpoint layout_bucle (fuel : nat) (m : dict Persona) (queue : list (string * Z))
    (seen : gset string) (nivel : dict Z) : option (dict Z) :=
  match fuel with
  | O => None
  | S fuel' =>
      match queue with
      | [] => Some nivel
      | (ced, niv) :: queue =>
          if bool_decide (ced ∈ seen) then layout_bucle fuel' m queue seen nivel
          else
            let seen := {[ced]} ∪ seen in
            let nivel := dict_set ced (Z.min niv (default niv (dict_get ced nivel))) nivel in
            match dict_get ced m with
            | Some pers =>
                layout_bucle fuel' m
                  (queue ++ map (fun h => (h, niv + 1)) (elements (hijos pers))) seen nivel
            | None => layout_bucle fuel' m queue seen nivel
            end
      end
  end.

Definition _layout_generacional (fuel : nat) (m : dict Persona) : option (dict Z) :=
  layout_bucle fuel m (cola_inicial m) ∅ [].

(** The identifier of a member without parents in the family. *)
Definition raiz (m : dict Persona) (c : string) : Prop :=
  exists p, p ∈ dict_values m /\ cedula p = c
            /\ forall c', c' ∈ padres p -> dict_get c' m = None.

(** [camino m n c]: [n] child links lead from a root to [c]. *)
Inductive camino (m : dict Persona) : nat -> string -> Prop :=
  | camino_raiz c : raiz m c -> camino m 0 c
  | camino_paso n c c' : camino m n c -> enlace m c c' -> camino m (S n) c'.

(** The child sets of the members that the loop has not seen yet. *)
Definition pendiente (m : dict Persona) (seen : gset string) : nat :=
  sum_list (map (fun kp : string * Persona =>
                   if bool_decide (kp.1 ∈ seen) then 0%nat else size (hijos kp.2)) m).

(** What the loop of [_layout_generacional] keeps. *)
Record layout_inv (m : dict Persona) (queue : list (string * Z)) (seen : gset string)
    (nivel : dict Z) : Prop := mk_layout_inv {
  li_dom : forall c, c ∈ seen <-> is_Some (dict_get c nivel);
  li_ord : forall i j c n c' n',
    queue !! i = Some (c, n) -> queue !! j = Some (c', n') -> (i <= j)%nat ->
    n <= n' <= n + 1;
  li_cola : forall c l, (c, l) ∈ queue -> exists n, l = Z.of_nat n /\ camino m n c;
  li_visto : forall c d, dict_get c nivel = Some d ->
    exists n, d = Z.of_nat n /\ camino m n c /\ forall n', camino m n' c -> (n <= n')%nat;
  li_hijos : forall c d p h,
    dict_get c nivel = Some d -> dict_get c m = Some p -> h ∈ hijos p ->
    (exists d', dict_get h nivel = Some d' /\ d' <= d + 1) \/ (h, d + 1) ∈ queue;
  li_bajo : forall c d y l, dict_get c nivel = Some d -> (y, l) ∈ queue -> d <= l;
  li_raiz : forall c, raiz m c -> dict_get c nivel = Some 0 \/ (c, 0) ∈ queue
}.

(** A family with a cycle of child links below a root: the member "1" has
    the child "2", who has "3", who has "2" again and "4", an identifier
    that is not registered. *)
Definition familia_con_ciclo : dict Persona :=
  [("1", persona_de "1" "Rosa" (mk_date 1950 1 1) "Femenino" [] ["2"] [] None);
   ("2", persona_de "2" "Marta" (mk_date 1972 3 3) "Femenino" ["1"; "3"] ["3"] [] None);
   ("3", persona_de "3" "Ana" (mk_date 2000 6 6) "Femenino" ["2"] ["2"; "4"] [] None);
   ("8", persona_de "8" "Eva" (mk_date 2000 6 6) "Femenino" ["9"] ["9"] [] None);
   ("9", persona_de "9" "Leo" (mk_date 2000 6 6) "Masculino" ["8"] ["8"] [] None)].

(** * Properties *)

(** ** Dictionaries, the monad and the store *)

Section Dict.
Context {V : Type}.
Implicit Types (d : dict V) (k : string) (v : V).

Lemma dict_get_set_eq k v d : dict_get k (dict_set k v d) = Some v.
Proof.
  induction d as [|[k' v'] d IH]; simpl.
  - by rewrite bool_decide_eq_true_2.
  - case_bool_decide; simpl; case_bool_decide; done.
Qed.

Lemma dict_get_set_ne k k' v d :
  k ≠ k' -> dict_get k' (dict_set k v d) = dict_get k' d.
Proof.
  intros Hne. induction d as [|[k0 v0] d IH]; simpl.
  - by rewrite bool_decide_eq_false_2.
  - case_bool_decide; simpl; repeat case_bool_decide; congruence.
Qed.

Lemma dict_in_true k d : dict_in k d = true <-> is_Some (dict_get k d).
Proof.
  unfold dict_in. destruct (dict_get k d) as [v|].
  - split; [by eexists|done].
  - split; [done|]. by intros [? ?].
Qed.

Lemma dict_in_false k d : dict_in k d = false <-> dict_get k d = None.
Proof. unfold dict_in. by destruct (dict_get k d). Qed.
End Dict.

Lemma bind_ok {A B} (c : M A) (k : A -> M B) st a st' :
  c st = (Ok a, st') -> bind c k st = k a st'.
Proof. unfold bind. by intros ->. Qed.

Lemma bind_raise {A B} (c : M A) (k : A -> M B) st e st' :
  c st = (Raise e, st') -> bind c k st = (Raise e, st').
Proof. unfold bind. by intros ->. Qed.

Lemma objeto_ok r st p : objetos st !! r = Some p -> objeto r st = (Ok p, st).
Proof. unfold objeto. by intros ->. Qed.

Lemma lookup_alter_si {A} (f : A -> A) (l : list A) i j :
  alter f i l !! j = (if decide (i = j) then f else id) <$> l !! j.
Proof.
  rewrite list_lookup_alter. case_decide; subst; [done|].
  by destruct (l !! j).
Qed.

Lemma alter_lookup {A} (f : A -> A) (l : list A) i x :
  l !! i = Some x -> alter f i l = <[i := f x]> l.
Proof.
  revert i. induction l as [|y l IH]; intros [|i] H; simplify_eq/=; try done.
  f_equal. by apply IH.
Qed.

Lemma alter_alter {A} (f g : A -> A) (l : list A) i :
  alter f i (alter g i l) = alter (fun x => f (g x)) i l.
Proof.
  revert i. induction l as [|y l IH]; intros [|i]; simpl; try done.
  f_equal. apply IH.
Qed.

(** One step of a run whose operation does not depend on the store. *)
Ltac corre := erewrite bind_ok; [|reflexivity].

(** One step that reads the object behind a reference, through the
    modifications made so far; [H] gives the object in the initial store. *)
Ltac lee H :=
  erewrite bind_ok;
  [|apply objeto_ok; cbn [objetos con_objetos];
    rewrite ?lookup_alter_si, H;
    repeat match goal with
           | |- context [decide (?x = ?y)] =>
               destruct (decide (x = y)); [try congruence|try congruence]
           end;
    simpl; reflexivity].

(** ** Ages *)

Lemma anios_entre_nonneg fecha ref hoy : 0 <= anios_entre fecha ref hoy.
Proof. unfold anios_entre. destruct fecha; lia. Qed.

Lemma anios_entre_mono fecha r1 r2 h1 h2 :
  date_leb (ref_o_hoy r1 h1) (ref_o_hoy r2 h2) = true ->
  anios_entre fecha r1 h1 <= anios_entre fecha r2 h2.
Proof.
  unfold anios_entre, date_leb, date_ltb, pair_ltb.
  destruct fecha as [f|]; [|lia].
  generalize (ref_o_hoy r1 h1) (ref_o_hoy r2 h2).
  intros [y1 m1 d1] [y2 m2 d2]; simpl. intros H.
  repeat match goal with
         | |- context [if ?b then _ else _] => destruct b eqn:?
         end; lia.
Qed.

(** C8. For every person, [edad] does not decrease when the reference date
    (the argument, or today when it is absent) advances, it is never
    negative, and for a deceased person it is the number of years between
    birth and death whatever the reference date. *)
Theorem edad_monotone_nonneg_constant (p : Persona) (r1 r2 : option date) (h1 h2 : date) :
  (date_leb (ref_o_hoy r1 h1) (ref_o_hoy r2 h2) = true ->
     edad p r1 h1 <= edad p r2 h2)
  /\ 0 <= edad p r1 h1
  /\ (forall f, fecha_fallecimiento p = Some f ->
        edad p r1 h1 = anios_entre (Some (fecha_nacimiento p)) (Some f) h2
        /\ edad p r2 h2 = edad p r1 h1).
Proof.
  split; [|split].
  - intros H. unfold edad. destruct (fecha_fallecimiento p).
    + unfold anios_entre; simpl; lia.
    + by apply anios_entre_mono.
  - unfold edad. destruct (fecha_fallecimiento p); apply anios_entre_nonneg.
  - intros f Hf. unfold edad. rewrite Hf. by unfold anios_entre.
Qed.

Lemma edad_monotone_nonneg_constant_witness :
  let p := con_fecha_fallecimiento (Some (mk_date 2020 1 1))
             (Persona_nueva "1" "Ana" (mk_date 1985 5 10) "Femenino" "Cartago") in
  edad p None (mk_date 2024 5 9) <= edad p (Some (mk_date 2024 5 10)) (mk_date 1 1 1)
  /\ edad p None (mk_date 2024 5 9) = 34.
Proof.
  split.
  - apply (edad_monotone_nonneg_constant _ None (Some (mk_date 2024 5 10))
             (mk_date 2024 5 9) (mk_date 1 1 1)).
    reflexivity.
  - reflexivity.
Defined.

(** ** Registration of families and persons *)

Lemma con_afinidades_id q : con_afinidades (afinidades q ∪ ∅) q = q.
Proof. destruct q. unfold con_afinidades. simpl. by rewrite union_empty_r_L. Qed.

Lemma seleccion2_AFINIDADES j1 j2 :
  0 <= j1 < 8 -> 0 <= j2 < 7 -> muestra_valida (seleccion2 AFINIDADES j1 j2).
Proof.
  intros H1 H2.
  assert (Hj1 : j1 = 0 \/ j1 = 1 \/ j1 = 2 \/ j1 = 3 \/ j1 = 4 \/ j1 = 5
                \/ j1 = 6 \/ j1 = 7) by lia.
  assert (Hj2 : j2 = 0 \/ j2 = 1 \/ j2 = 2 \/ j2 = 3 \/ j2 = 4 \/ j2 = 5
                \/ j2 = 6) by lia.
  unfold muestra_valida.
  destruct Hj1 as [->|[->|[->|[->|[->|[->|[->| ->]]]]]]];
    destruct Hj2 as [->|[->|[->|[->|[->|[->| ->]]]]]];
    (eexists _, _; split; [reflexivity|]; split;
     [intros Heq; vm_compute in Heq; discriminate Heq|];
     split; apply list_elem_of_In; vm_compute; tauto).
Qed.

Lemma sample2_AFINIDADES st :
  exists l, sample2 AFINIDADES st = (Ok l, con_azar (tl (tl (azar st))) st)
            /\ muestra_valida l.
Proof.
  eexists. split; [reflexivity|].
  apply seleccion2_AFINIDADES; apply Z.mod_pos_bound; done.
Qed.

Lemma agregar_persona_sin_familia st id_fam p :
  dict_get id_fam (familias st) = None ->
  agregar_persona id_fam p st = (Raise (ValueError "Familia no existe"), st).
Proof.
  intros Hf. unfold agregar_persona.
  erewrite bind_ok; [|unfold get_familia, leer; rewrite Hf; reflexivity].
  reflexivity.
Qed.

Lemma agregar_persona_duplicada st id_fam p fam per :
  dict_get id_fam (familias st) = Some fam ->
  objetos st !! p = Some per ->
  dict_in (cedula per) (miembros fam) = true ->
  agregar_persona id_fam p st
  = (Raise (ValueError "Cédula ya existe en la familia"), st).
Proof.
  intros Hf Hp Hin. unfold agregar_persona.
  erewrite bind_ok; [|unfold get_familia, leer; rewrite Hf; reflexivity].
  cbv beta iota.
  erewrite bind_ok; [|apply objeto_ok, Hp]. rewrite Hin. reflexivity.
Qed.

Lemma agregar_persona_exito st id_fam p fam per :
  dict_get id_fam (familias st) = Some fam ->
  objetos st !! p = Some per ->
  dict_in (cedula per) (miembros fam) = false ->
  exists extra az,
    ((2 <= size (afinidades per) /\ extra = ∅ /\ az = azar st)%nat
     \/ (size (afinidades per) < 2 /\ az = tl (tl (azar st))
         /\ exists l, muestra_valida l /\ extra = list_to_set l)%nat)
    /\ agregar_persona id_fam p st
       = (Ok tt,
          mk_Mundo
            (<[p := registrar_evento "Nacimiento" (Some (fecha_nacimiento per))
                      (fecha_hoy st)
                      (con_afinidades (afinidades per ∪ extra) per)]> (objetos st))
            (dict_set id_fam (Familia_con fam (cedula per) p) (familias st))
            (fecha_simulada st) az (fecha_hoy st)).
Proof.
  intros Hf Hp Hin. unfold agregar_persona.
  erewrite bind_ok; [|unfold get_familia, leer; rewrite Hf; reflexivity].
  cbv beta iota.
  erewrite bind_ok; [|apply objeto_ok, Hp]. rewrite Hin. cbv beta iota.
  destruct (Z.of_nat (size (afinidades per)) <? 2) eqn:Hsz; cbv beta iota.
  - destruct (sample2_AFINIDADES st) as (l & Hs & Hv).
    exists (list_to_set l), (tl (tl (azar st))). split.
    { right. split; [lia|]. split; [done|]. by exists l. }
    erewrite bind_ok; [|erewrite bind_ok; [|apply Hs]; reflexivity].
    unfold Familia_agregar_persona.
    erewrite bind_ok.
    2:{ erewrite bind_ok;
          [|apply objeto_ok; simpl; rewrite list_lookup_alter_eq, Hp; reflexivity].
        simpl. rewrite Hf. reflexivity. }
    erewrite bind_ok.
    2:{ apply objeto_ok. simpl. rewrite list_lookup_alter_eq, Hp. reflexivity. }
    unfold evento, bind, leer, modificar. simpl.
    rewrite alter_alter. erewrite alter_lookup by done. reflexivity.
  - exists ∅, (azar st). split.
    { left. split; [lia|]. done. }
    erewrite bind_ok; [|reflexivity].
    unfold Familia_agregar_persona.
    erewrite bind_ok.
    2:{ erewrite bind_ok; [|apply objeto_ok, Hp]. rewrite Hf. reflexivity. }
    erewrite bind_ok; [|apply objeto_ok; simpl; apply Hp].
    unfold evento, bind, leer, modificar. simpl.
    erewrite alter_lookup by done. rewrite con_afinidades_id.
    by destruct st.
Qed.

Lemma crear_familia_duplicada st id_fam nom :
  dict_in id_fam (familias st) = true ->
  crear_familia id_fam nom st = (Raise (ValueError "ID de familia ya existe"), st).
Proof. unfold crear_familia. by intros ->. Qed.

Lemma crear_familia_exito st id_fam nom :
  dict_in id_fam (familias st) = false ->
  crear_familia id_fam nom st
  = (Ok tt, con_familias (dict_set id_fam (mk_Familia id_fam nom []) (familias st)) st).
Proof. unfold crear_familia. by intros ->. Qed.

(** C6. [crear_familia] raises exactly when the family identifier is
    already registered, and [agregar_persona] raises exactly when the
    family is absent or the person's identifier is already a member of it.
    A call that raises leaves the whole state as it was (the registry, the
    member map and the supplied person object), and a call that does not
    raise registers the family, or the person under its identifier. *)
Theorem crear_familia_agregar_persona_errores
    (st : Mundo) (id_fam nom : string) (p : ref) (per : Persona) :
  objetos st !! p = Some per ->
  (raises (crear_familia id_fam nom st).1 <-> dict_in id_fam (familias st) = true)
  /\ (raises (crear_familia id_fam nom st).1 -> (crear_familia id_fam nom st).2 = st)
  /\ (~ raises (crear_familia id_fam nom st).1 ->
        dict_get id_fam (familias (crear_familia id_fam nom st).2)
        = Some (mk_Familia id_fam nom []))
  /\ (raises (agregar_persona id_fam p st).1 <->
        dict_get id_fam (familias st) = None
        \/ exists fam, dict_get id_fam (familias st) = Some fam
                       /\ dict_in (cedula per) (miembros fam) = true)
  /\ (raises (agregar_persona id_fam p st).1 -> (agregar_persona id_fam p st).2 = st)
  /\ (~ raises (agregar_persona id_fam p st).1 ->
        exists fam',
          dict_get id_fam (familias (agregar_persona id_fam p st).2) = Some fam'
          /\ obtener fam' (cedula per) = Some p).
Proof.
  intros Hp.
  assert (Hcf : (raises (crear_familia id_fam nom st).1
                 <-> dict_in id_fam (familias st) = true)
                /\ (raises (crear_familia id_fam nom st).1 ->
                    (crear_familia id_fam nom st).2 = st)
                /\ (~ raises (crear_familia id_fam nom st).1 ->
                    dict_get id_fam (familias (crear_familia id_fam nom st).2)
                    = Some (mk_Familia id_fam nom []))).
  { destruct (dict_in id_fam (familias st)) eqn:Hin.
    - rewrite crear_familia_duplicada by done. simpl.
      split; [split; [done|by eexists]|]. split; [done|].
      intros Hn. destruct Hn. by eexists.
    - rewrite crear_familia_exito by done. simpl.
      split; [split; [by intros [e He]|done]|]. split; [by intros [e He]|].
      intros _. apply dict_get_set_eq. }
  destruct Hcf as (H1 & H2 & H3). do 3 (split; [done|]). clear H1 H2 H3.
  destruct (dict_get id_fam (familias st)) as [fam|] eqn:Hf.
  - destruct (dict_in (cedula per) (miembros fam)) eqn:Hin.
    + erewrite agregar_persona_duplicada by done. simpl.
      split; [split; [intros _; right; by exists fam|by eexists]|].
      split; [done|]. intros Hn. destruct Hn. by eexists.
    + destruct (agregar_persona_exito st id_fam p fam per Hf Hp Hin)
        as (extra & az & _ & ->). simpl.
      split; [split; [by intros [e He]|]|].
      { intros [?|(fam0 & ? & Hin0)]; [done|]. simplify_eq. congruence. }
      split; [by intros [e He]|].
      intros _. eexists. split; [apply dict_get_set_eq|].
      unfold obtener, Familia_con. simpl. apply dict_get_set_eq.
  - rewrite agregar_persona_sin_familia by done. simpl.
    split; [split; [by left|by eexists]|].
    split; [done|]. intros Hn. destruct Hn. by eexists.
Qed.

Lemma crear_familia_agregar_persona_errores_witness :
  let st := mk_Mundo [Persona_nueva "1" "Ana" (mk_date 1985 5 10) "Femenino" "Cartago"]
              [("F1", mk_Familia "F1" "Mora" [("1", 0%nat)])]
              (mk_date 2025 6 15) [] (mk_date 2025 6 15) in
  raises (agregar_persona "F1" 0%nat st).1 /\ raises (crear_familia "F1" "Mora" st).1.
Proof.
  intros st.
  destruct (crear_familia_agregar_persona_errores st "F1" "Mora" 0%nat
              (Persona_nueva "1" "Ana" (mk_date 1985 5 10) "Femenino" "Cartago")
              eq_refl) as (H1 & _ & _ & H4 & _).
  split.
  - apply H4. right. eexists. split; reflexivity.
  - apply H1. reflexivity.
Defined.

(** C4, as stated, fails: a person supplied with the one affinity
    "Deporte" ends with three labels when the draw gives two other
    labels. *)
Lemma agregar_persona_tres_afinidades :
  let per := con_afinidades {["Deporte"]}
               (Persona_nueva "1" "Ana" (mk_date 1985 5 10) "Femenino" "Cartago") in
  let st := mk_Mundo [per] [("F1", mk_Familia "F1" "Mora" [])]
              (mk_date 2025 6 15) [1%N; 1%N] (mk_date 2025 6 15) in
  size (afinidades per) = 1%nat
  /\ (agregar_persona "F1" 0%nat st).1 = Ok tt
  /\ exists per', objetos (agregar_persona "F1" 0%nat st).2 !! 0%nat = Some per'
                  /\ elements (afinidades per') ≡ₚ ["Deporte"; "Arte"; "Videojuegos"]
                  /\ size (afinidades per') = 3%nat.
Proof.
  intros per st. split; [vm_compute; reflexivity|].
  split; [vm_compute; reflexivity|].
  eexists. split; [vm_compute; reflexivity|].
  split; [|vm_compute; reflexivity].
  apply (bool_decide_unpack _). vm_compute. exact I.
Qed.

(** C4, amended. When a person supplied with fewer than two affinities is
    added, two distinct labels of the vocabulary are added to the ones it
    was supplied with, whatever the draw: it ends with two or three
    labels, and with exactly two, both of the vocabulary, when it was
    supplied with none. *)
Theorem agregar_persona_completa_afinidades
    (st st' : Mundo) (id_fam : string) (p : ref) (per : Persona) :
  objetos st !! p = Some per ->
  (size (afinidades per) < 2)%nat ->
  agregar_persona id_fam p st = (Ok tt, st') ->
  exists per' x y,
    objetos st' !! p = Some per'
    /\ x ≠ y /\ x ∈ AFINIDADES /\ y ∈ AFINIDADES
    /\ afinidades per' = afinidades per ∪ {[x; y]}
    /\ (2 <= size (afinidades per') <= 3)%nat
    /\ (afinidades per = ∅ ->
        size (afinidades per') = 2%nat
        /\ forall z, z ∈ afinidades per' -> z ∈ AFINIDADES).
Proof.
  intros Hp Hsz Hrun.
  destruct (dict_get id_fam (familias st)) as [fam|] eqn:Hf;
    [|by rewrite agregar_persona_sin_familia in Hrun].
  destruct (dict_in (cedula per) (miembros fam)) eqn:Hin;
    [by erewrite agregar_persona_duplicada in Hrun|].
  destruct (agregar_persona_exito st id_fam p fam per Hf Hp Hin)
    as (extra & az & Hcase & Heq).
  rewrite Heq in Hrun. simplify_eq.
  destruct Hcase as [(? & _)|(_ & _ & l & (x & y & -> & Hxy & Hx & Hy) & ->)]; [lia|].
  eexists _, x, y. split.
  { simpl. apply list_lookup_insert_eq. by eapply lookup_lt_Some. }
  simpl. split; [done|]. split; [done|]. split; [done|].
  rewrite (right_id_L ∅ (∪) {[y]}).
  assert (H2 : size ({[x; y]} : gset string) = 2%nat).
  { rewrite size_union; [by rewrite !size_singleton|].
    by apply disjoint_singleton_l, not_elem_of_singleton. }
  split; [done|]. split.
  - split.
    + rewrite <- H2. apply subseteq_size, union_subseteq_r.
    + etrans; [apply Nat.eq_le_incl, size_union_alt|].
      assert (size ({[x; y]} ∖ afinidades per) <= 2)%nat; [|lia].
      rewrite <- H2. by apply subseteq_size, subseteq_difference_l.
  - intros Hempty. rewrite Hempty, (left_id_L ∅ (∪)). split; [done|].
    intros z Hz.
    apply elem_of_union in Hz as [Hz|Hz]; apply elem_of_singleton in Hz;
      by subst.
Qed.

Lemma agregar_persona_completa_afinidades_witness :
  let per := con_afinidades {["Deporte"]}
               (Persona_nueva "1" "Ana" (mk_date 1985 5 10) "Femenino" "Cartago") in
  let st := mk_Mundo [per] [("F1", mk_Familia "F1" "Mora" [])]
              (mk_date 2025 6 15) [1%N; 1%N] (mk_date 2025 6 15) in
  exists per' x y,
    objetos (agregar_persona "F1" 0%nat st).2 !! 0%nat = Some per'
    /\ x ≠ y /\ x ∈ AFINIDADES /\ y ∈ AFINIDADES
    /\ afinidades per' = afinidades per ∪ {[x; y]}
    /\ (2 <= size (afinidades per') <= 3)%nat
    /\ (afinidades per = ∅ ->
        size (afinidades per') = 2%nat
        /\ forall z, z ∈ afinidades per' -> z ∈ AFINIDADES).
Proof.
  intros per st.
  apply (agregar_persona_completa_afinidades st _ "F1" 0%nat per).
  - reflexivity.
  - vm_compute. lia.
  - vm_compute. reflexivity.
Defined.

(** ** Unions and marriages *)

Lemma unir_pareja_exec st id_fam fam c1 c2 a b pa pb :
  dict_get id_fam (familias st) = Some fam ->
  obtener fam c1 = Some a -> obtener fam c2 = Some b ->
  objetos st !! a = Some pa -> objetos st !! b = Some pb ->
  unir_pareja id_fam c1 c2 st
  = match es_compatible_para_union pa pb (fecha_hoy st) with
    | Raise e => (Raise e, st)
    | Ok false => (Ok false, st)
    | Ok true =>
        (Ok true, con_objetos (objetos_unidos a b pa pb (fecha_hoy st) (objetos st)) st)
    end.
Proof.
  intros Hf Ha Hb Hpa Hpb. unfold unir_pareja, objetos_unidos.
  erewrite bind_ok; [|unfold get_familia, leer; rewrite Hf; reflexivity].
  cbv beta iota. rewrite Ha, Hb.
  erewrite bind_ok; [|apply objeto_ok, Hpa].
  erewrite bind_ok; [|apply objeto_ok, Hpb].
  corre.
  destruct (es_compatible_para_union pa pb (fecha_hoy st)) as [[|]|e] eqn:Hc.
  2:{ erewrite bind_ok; [|unfold lift; reflexivity]. reflexivity. }
  2:{ erewrite bind_raise; [|unfold lift; reflexivity]. reflexivity. }
  erewrite bind_ok; [|unfold lift; reflexivity]. cbv beta iota delta [negb].
  destruct (decide (a = b)) as [Hab|Hab];
    [subst b; assert (E : pb = pa) by congruence; rewrite E in *; clear E|];
    (lee Hpb; corre; lee Hpa; corre; corre; corre; lee Hpb; corre; lee Hpa; corre;
     reflexivity).
Qed.

Lemma registrar_matrimonio_exec st id_fam fam c1 c2 a b pa pb :
  dict_get id_fam (familias st) = Some fam ->
  obtener fam c1 = Some a -> obtener fam c2 = Some b ->
  objetos st !! a = Some pa -> objetos st !! b = Some pb ->
  cedula pb ∉ parejas pa ->
  registrar_matrimonio id_fam c1 c2 st
  = match es_compatible_para_union pa pb (fecha_hoy st) with
    | Raise e => (Raise e, st)
    | Ok false => (Ok false, st)
    | Ok true =>
        (Ok true,
         con_objetos
           (objetos_casados a b pa pb (fecha_hoy st)
              (objetos_unidos a b pa pb (fecha_hoy st) (objetos st))) st)
    end.
Proof.
  intros Hf Ha Hb Hpa Hpb Hno. unfold registrar_matrimonio.
  erewrite bind_ok; [|unfold get_familia, leer; rewrite Hf; reflexivity].
  cbv beta iota. rewrite Ha, Hb.
  erewrite bind_ok; [|apply objeto_ok, Hpa].
  erewrite bind_ok; [|apply objeto_ok, Hpb].
  rewrite bool_decide_eq_false_2 by done. cbv beta iota.
  pose proof (unir_pareja_exec st id_fam fam c1 c2 a b pa pb Hf Ha Hb Hpa Hpb) as Hu.
  destruct (es_compatible_para_union pa pb (fecha_hoy st)) as [[|]|e] eqn:Hc.
  2:{ erewrite bind_ok; [|apply Hu]. reflexivity. }
  2:{ erewrite bind_raise; [|apply Hu]. reflexivity. }
  erewrite bind_ok; [|apply Hu]. cbv beta iota delta [negb].
  unfold objetos_casados, objetos_unidos.
  destruct (decide (a = b)) as [Hab|Hab];
    [subst b; assert (E : pb = pa) by congruence; rewrite E in *; clear E|];
    (corre; corre; lee Hpb; corre; lee Hpa; corre; reflexivity).
Qed.

(** C7. For two members of a family of which the second is not in the
    first's partner set, [registrar_matrimonio] returns true exactly when
    [es_compatible_para_union] does; when it returns false the state is
    exactly as before the call (so are both persons' marital status,
    partner sets and history); when it returns true both persons have the
    status "Casado(a)" and each history has gained its "Matrimonio con"
    entry. *)
Theorem registrar_matrimonio_sin_union_previa
    (st : Mundo) (id_fam c1 c2 : string) (fam : Familia) (a b : ref)
    (pa pb : Persona) :
  dict_get id_fam (familias st) = Some fam ->
  obtener fam c1 = Some a -> obtener fam c2 = Some b ->
  objetos st !! a = Some pa -> objetos st !! b = Some pb ->
  cedula pb ∉ parejas pa ->
  ((registrar_matrimonio id_fam c1 c2 st).1 = Ok true
   <-> es_compatible_para_union pa pb (fecha_hoy st) = Ok true)
  /\ ((registrar_matrimonio id_fam c1 c2 st).1 = Ok false ->
      (registrar_matrimonio id_fam c1 c2 st).2 = st)
  /\ ((registrar_matrimonio id_fam c1 c2 st).1 = Ok true ->
      exists pa' pb' ha hb,
        objetos (registrar_matrimonio id_fam c1 c2 st).2 !! a = Some pa'
        /\ objetos (registrar_matrimonio id_fam c1 c2 st).2 !! b = Some pb'
        /\ estado_civil pa' = "Casado(a)" /\ estado_civil pb' = "Casado(a)"
        /\ historial pa' = (historial pa ++ ha)%list
        /\ (year (fecha_hoy st), "Matrimonio con " ++ nombre pb) ∈ ha
        /\ historial pb' = (historial pb ++ hb)%list
        /\ (year (fecha_hoy st), "Matrimonio con " ++ nombre pa) ∈ hb).
Proof.
  intros Hf Ha Hb Hpa Hpb Hno.
  rewrite (registrar_matrimonio_exec st id_fam fam c1 c2 a b pa pb) by done.
  destruct (es_compatible_para_union pa pb (fecha_hoy st)) as [[|]|e] eqn:Hc;
    simpl; [|by repeat split..].
  split; [done|]. split; [done|]. intros _.
  unfold objetos_casados, objetos_unidos. rewrite !lookup_alter_si, Hpa, Hpb.
  destruct (decide (a = b)) as [Hab|Hab].
  - subst b. assert (E : pb = pa) by congruence. subst pb.
    rewrite !decide_True by done.
    unfold registrar_evento, con_estado_civil, con_parejas, con_historial; simpl.
    eexists _, _, _, _. split; [reflexivity|]. split; [reflexivity|].
    split; [reflexivity|]. split; [reflexivity|].
    split; [cbn; rewrite <- !(assoc_L (++)); reflexivity|].
    split; [cbn; set_solver|].
    split; [cbn; rewrite <- !(assoc_L (++)); reflexivity|]. cbn; set_solver.
  - repeat match goal with
           | |- context [decide (?x = ?y)] =>
               destruct (decide (x = y)); [try congruence|try congruence]
           end.
    unfold registrar_evento, con_estado_civil, con_parejas, con_historial; simpl.
    eexists _, _, _, _. split; [reflexivity|]. split; [reflexivity|].
    split; [reflexivity|]. split; [reflexivity|].
    split; [cbn; rewrite <- !(assoc_L (++)); reflexivity|].
    split; [cbn; set_solver|].
    split; [cbn; rewrite <- !(assoc_L (++)); reflexivity|]. cbn; set_solver.
Qed.

Lemma registrar_matrimonio_sin_union_previa_witness :
  let ana := con_afinidades {["Arte"; "Música"]}
               (Persona_nueva "101" "Ana" (mk_date 1985 5 10) "Femenino" "Cartago") in
  let luis := con_afinidades {["Arte"; "Música"]}
                (Persona_nueva "102" "Luis" (mk_date 1982 3 2) "Masculino" "Alajuela") in
  let st := mk_Mundo [ana; luis]
              [("F1", mk_Familia "F1" "Mora" [("101", 0%nat); ("102", 1%nat)])]
              (mk_date 2025 6 15) [] (mk_date 2025 6 15) in
  (registrar_matrimonio "F1" "101" "102" st).1 = Ok true.
Proof.
  intros ana luis st.
  apply (registrar_matrimonio_sin_union_previa st "F1" "101" "102"
           (mk_Familia "F1" "Mora" [("101", 0%nat); ("102", 1%nat)])
           0%nat 1%nat ana luis);
    first [apply not_elem_of_empty | vm_compute; reflexivity].
Defined.

(** ** Births *)

(** C9. [registrar_nacimiento_de_pareja] does not always return the child
    or nothing: when the two members are partners and the identifier
    drawn for the child is already one of the family, the call raises the
    duplicate error of [agregar_persona]; every object that existed, the
    parents and their sets of children among them, and every family are
    then as before the call. *)
Theorem registrar_nacimiento_de_pareja_cedula_repetida
    (st : Mundo) (id_fam c1 c2 : string) (fam : Familia) (a b : ref)
    (pa pb : Persona) :
  dict_get id_fam (familias st) = Some fam ->
  obtener fam c1 = Some a -> obtener fam c2 = Some b ->
  objetos st !! a = Some pa -> objetos st !! b = Some pb ->
  cedula pb ∈ parejas pa ->
  dict_in (cedula_sorteada st) (miembros fam) = true ->
  (registrar_nacimiento_de_pareja id_fam c1 c2 st).1
  = Raise (ValueError "Cédula ya existe en la familia")
  /\ familias (registrar_nacimiento_de_pareja id_fam c1 c2 st).2 = familias st
  /\ (forall r per, objetos st !! r = Some per ->
        objetos (registrar_nacimiento_de_pareja id_fam c1 c2 st).2 !! r = Some per)
  /\ (exists pa' pb',
        objetos (registrar_nacimiento_de_pareja id_fam c1 c2 st).2 !! a = Some pa'
        /\ objetos (registrar_nacimiento_de_pareja id_fam c1 c2 st).2 !! b = Some pb'
        /\ hijos pa' = hijos pa /\ hijos pb' = hijos pb).
Proof.
  intros Hf Ha Hb Hpa Hpb Hpar Hdup.
  assert (Hrun : exists nuevo az,
             registrar_nacimiento_de_pareja id_fam c1 c2 st
             = (Raise (ValueError "Cédula ya existe en la familia"),
                mk_Mundo (objetos st ++ [nuevo])%list (familias st) (fecha_simulada st)
                  az (fecha_hoy st))).
  { unfold registrar_nacimiento_de_pareja.
    erewrite bind_ok; [|unfold get_familia, leer; rewrite Hf; reflexivity].
    cbv beta iota. rewrite Ha, Hb.
    erewrite bind_ok; [|apply objeto_ok, Hpa].
    erewrite bind_ok; [|apply objeto_ok, Hpb].
    rewrite bool_decide_eq_true_2 by done. cbv beta iota delta [negb].
    do 6 corre.
    eexists _, _. erewrite bind_raise; [reflexivity|].
    eapply agregar_persona_duplicada.
    - exact Hf.
    - simpl. apply list_lookup_middle. reflexivity.
    - exact Hdup. }
  destruct Hrun as (nuevo & az & ->). simpl.
  split; [done|]. split; [done|].
  assert (Hkeep : forall r per, objetos st !! r = Some per ->
                                (objetos st ++ [nuevo])%list !! r = Some per).
  { intros r per Hr. by apply lookup_app_l_Some. }
  split; [done|]. exists pa, pb. auto.
Qed.

Lemma registrar_nacimiento_de_pareja_cedula_repetida_witness :
  let ana := con_parejas {["10000000"]}
               (Persona_nueva "101" "Ana" (mk_date 1985 5 10) "Femenino" "Cartago") in
  let luis := con_parejas {["101"]}
                (Persona_nueva "10000000" "Luis" (mk_date 1982 3 2) "Masculino"
                   "Alajuela") in
  let st := mk_Mundo [ana; luis]
              [("F1", mk_Familia "F1" "Mora" [("101", 0%nat); ("10000000", 1%nat)])]
              (mk_date 2025 6 15) [0%N] (mk_date 2025 6 15) in
  (registrar_nacimiento_de_pareja "F1" "101" "10000000" st).1
  = Raise (ValueError "Cédula ya existe en la familia").
Proof.
  intros ana luis st.
  apply (registrar_nacimiento_de_pareja_cedula_repetida st "F1" "101" "10000000"
           (mk_Familia "F1" "Mora" [("101", 0%nat); ("10000000", 1%nat)])
           0%nat 1%nat ana luis);
    reflexivity.
Defined.

(** ** Persons born in the last ten years *)

Lemma bisiesto_menos_10 y : is_leap y = true -> is_leap (y - 10) = false.
Proof.
  unfold is_leap. intros H.
  apply andb_true_iff in H as [H _]. apply Z.eqb_eq in H.
  apply andb_false_iff. left. apply Z.eqb_neq. Z.to_euclidean_division_equations. lia.
Qed.

Lemma date_ok_campos d :
  date_ok d = true ->
  1 <= year d <= 9999 /\ 1 <= month d <= 12 /\ 1 <= day d <= days_in_month (year d) (month d).
Proof.
  unfold date_ok, MINYEAR, MAXYEAR. intros H.
  repeat (apply andb_true_iff in H as [H ?]). lia.
Qed.

Lemma days_in_month_otro_anio y y' m : m ≠ 2 -> days_in_month y m = days_in_month y' m.
Proof. unfold days_in_month. intros H. by rewrite (proj2 (Z.eqb_neq m 2)). Qed.

Lemma days_in_month_febrero y : days_in_month y 2 = if is_leap y then 29 else 28.
Proof. reflexivity. Qed.

Lemma date_replace_year_menos_10 fs :
  date_ok fs = true ->
  ((month fs = 2 /\ day fs = 29) \/ year fs <= 10 ->
     raises (date_replace_year fs (year fs - 10)))
  /\ (~ ((month fs = 2 /\ day fs = 29) \/ year fs <= 10) ->
      date_replace_year fs (year fs - 10)
      = Ok (mk_date (year fs - 10) (month fs) (day fs))).
Proof.
  intros Hok. apply date_ok_campos in Hok as (Hy & Hm & Hd).
  unfold date_replace_year, MINYEAR, MAXYEAR.
  destruct (decide (year fs <= 10)) as [Hy10|Hy10].
  { rewrite (proj2 (Z.leb_gt 1 (year fs - 10))) by lia. simpl.
    split; [intros _; by eexists|]. intros Hn. destruct Hn. by right. }
  rewrite (proj2 (Z.leb_le 1 (year fs - 10))) by lia.
  rewrite (proj2 (Z.leb_le (year fs - 10) 9999)) by lia. simpl.
  rewrite (proj2 (Z.leb_le 1 (day fs))) by lia. simpl.
  destruct (decide (month fs = 2)) as [Hm2|Hm2].
  - rewrite Hm2 in *. rewrite days_in_month_febrero in *.
    destruct (is_leap (year fs)) eqn:Hleap.
    + rewrite (bisiesto_menos_10 _ Hleap).
      destruct (decide (day fs = 29)) as [Hd29|Hd29].
      * rewrite (proj2 (Z.leb_gt (day fs) 28)) by lia. simpl.
        split; [intros _; by eexists|]. intros Hn. destruct Hn. by left.
      * rewrite (proj2 (Z.leb_le (day fs) 28)) by lia. simpl.
        split; [|done]. intros [[_ ?]|?]; [done|lia].
    + assert (Hle : day fs <= (if is_leap (year fs - 10) then 29 else 28))
        by (destruct (is_leap (year fs - 10)); lia).
      rewrite (proj2 (Z.leb_le _ _) Hle). simpl.
      split; [|done]. intros [[_ ?]|?]; lia.
  - rewrite <- (days_in_month_otro_anio (year fs)) by done.
    rewrite (proj2 (Z.leb_le _ _)) by lia. simpl.
    split; [|done]. intros [[? _]|?]; [done|lia].
Qed.

(** C10, as stated, fails: on 15 June of the year 10, which is not a
    29 February, the cutoff year is 0 and the query raises. *)
Lemma nacidos_ultimos_10_anios_anio_10 :
  let fs := mk_date 10 6 15 in
  date_ok fs = true
  /\ ~ (month fs = 2 /\ day fs = 29)
  /\ forall m, nacidos_ultimos_10_anios fs m = Raise (ValueError "year is out of range").
Proof.
  intros fs. split; [reflexivity|]. split; [|reflexivity].
  intros [H _]. discriminate H.
Qed.

(** C10, amended. [nacidos_ultimos_10_anios] raises exactly when the
    simulated date is a 29 February (always of a leap year whose tenth
    year before is not one) or its year is at most 10; on every other
    date it returns the persons of the family, in its order, whose birth
    date is on or after the same month and day ten years earlier. *)
Theorem nacidos_ultimos_10_anios_parcial (fs : date) (m : dict Persona) :
  date_ok fs = true ->
  (raises (nacidos_ultimos_10_anios fs m)
   <-> (month fs = 2 /\ day fs = 29) \/ year fs <= 10)
  /\ (month fs = 2 /\ day fs = 29 ->
      is_leap (year fs) = true /\ is_leap (year fs - 10) = false)
  /\ (~ ((month fs = 2 /\ day fs = 29) \/ year fs <= 10) ->
      exists l,
        nacidos_ultimos_10_anios fs m = Ok l
        /\ l = List.filter
                 (fun p => date_leb (mk_date (year fs - 10) (month fs) (day fs))
                             (fecha_nacimiento p))
                 (dict_values m)
        /\ forall p, p ∈ l <->
                     p ∈ dict_values m
                     /\ date_leb (mk_date (year fs - 10) (month fs) (day fs))
                          (fecha_nacimiento p) = true).
Proof.
  intros Hok.
  destruct (date_replace_year_menos_10 fs Hok) as [Hr Hn].
  unfold nacidos_ultimos_10_anios.
  split; [|split].
  - split.
    + intros [e He].
      destruct (decide ((month fs = 2 /\ day fs = 29) \/ year fs <= 10)) as [|Hno];
        [done|].
      rewrite (Hn Hno) in He. discriminate He.
    + intros H. destruct (Hr H) as [e ->]. by eexists.
  - intros [Hm Hd]. apply date_ok_campos in Hok as (_ & _ & Hdd).
    rewrite Hm, days_in_month_febrero in Hdd.
    destruct (is_leap (year fs)) eqn:Hleap; [|lia].
    split; [done|]. by apply bisiesto_menos_10.
  - intros Hno. rewrite (Hn Hno). simpl. eexists. split; [reflexivity|].
    split; [reflexivity|].
    intros p. rewrite !list_elem_of_In, filter_In. unfold date_geb. tauto.
Qed.

Lemma nacidos_ultimos_10_anios_parcial_witness :
  raises (nacidos_ultimos_10_anios (mk_date 2024 2 29) []).
Proof.
  apply (nacidos_ultimos_10_anios_parcial (mk_date 2024 2 29) []).
  - reflexivity.
  - left. split; reflexivity.
Defined.

(** ** Compatibility *)

Lemma afinidad_coincide_49 :
  forallb (fun t => forallb (afinidad_coincide t) (seq 0 (S t))) (seq 1 49) = true.
Proof. vm_compute. reflexivity. Qed.

Lemma umbral_coincide_100 :
  forallb (fun s => forallb (fun e => umbral_coincide s e 20 && umbral_coincide s e 100)
                      (seq 0 101)) (seq 0 101) = true.
Proof. vm_compute. reflexivity. Qed.


Lemma afinidad_exacta (c t : nat) :
  (1 <= t <= 49)%nat -> (c <= t)%nat ->
  score_afinidad_float (Z.of_nat c) (Z.of_nat t) = Ok (100 * Z.of_nat c / Z.of_nat t).
Proof.
  intros Ht Hc.
  pose proof afinidad_coincide_49 as H.
  rewrite forallb_forall in H. specialize (H t ltac:(apply in_seq; lia)).
  rewrite forallb_forall in H. specialize (H c ltac:(apply in_seq; lia)).
  unfold afinidad_coincide, res_eqb_Z in H.
  destruct (score_afinidad_float _ _); [|done].
  apply Z.eqb_eq in H. by subst.
Qed.

Lemma umbral_exacto (s e g : Z) :
  0 <= s <= 100 -> 0 <= e <= 100 -> g = 20 \/ g = 100 ->
  exists i, indice_float s e g = Ok i
            /\ (i >=? 70) = (70 <=? (6 * s + 2 * e + 2 * g) / 10).
Proof.
  intros Hs He Hg.
  pose proof umbral_coincide_100 as H.
  rewrite forallb_forall in H. specialize (H (Z.to_nat s) ltac:(apply in_seq; lia)).
  rewrite forallb_forall in H. specialize (H (Z.to_nat e) ltac:(apply in_seq; lia)).
  apply andb_true_iff in H as [H20 H100].
  unfold umbral_coincide in *. rewrite !Z2Nat.id in * by lia.
  destruct Hg as [-> | ->].
  - destruct (indice_float s e 20) as [i|]; [|done].
    exists i. split; [done|]. by apply Bool.eqb_prop.
  - destruct (indice_float s e 100) as [i|]; [|done].
    exists i. split; [done|]. by apply Bool.eqb_prop.
Qed.

Lemma indice_de_compatibilidad_eq (a b : Persona) :
  indice_de_compatibilidad a b
  = let? s := score_afinidad_float
                (Z.of_nat (size (afinidades a ∩ afinidades b)))
                (if Z.of_nat (size (afinidades a ∪ afinidades b)) =? 0 then 1
                 else Z.of_nat (size (afinidades a ∪ afinidades b))) in
    indice_float s ((salud_emocional a + salud_emocional b) / 2)
      (if negb (bool_decide (padres a = ∅)) && bool_decide (padres a = padres b)
       then 20 else 100).
Proof.
  unfold indice_de_compatibilidad, score_afinidad_float, indice_float.
  destruct (int_truediv _ _) as [q|e]; [|reflexivity].
  cbn [res_bind].
  destruct (int_of_float (fmul (entero 100) q)); reflexivity.
Qed.

Lemma comp_genetica_spec (a b : Persona) :
  (if negb (bool_decide (padres a = ∅)) && bool_decide (padres a = padres b)
   then 20 else 100)
  = genetic_score_spec a b.
Proof.
  unfold genetic_score_spec.
  destruct (decide (padres a = ∅)) as [E1|E1];
    destruct (decide (padres a = padres b)) as [E2|E2].
  - rewrite (bool_decide_eq_true_2 _ E1).
    by rewrite (bool_decide_eq_false_2 (_ ∧ _)) by (by intros (? & ? & ?)).
  - rewrite (bool_decide_eq_true_2 _ E1).
    by rewrite (bool_decide_eq_false_2 (_ ∧ _)) by (by intros (? & ? & ?)).
  - rewrite (bool_decide_eq_false_2 _ E1), (bool_decide_eq_true_2 _ E2).
    rewrite (bool_decide_eq_true_2 (_ ∧ _)); [done|].
    split; [done|]. split; [by rewrite <- E2|done].
  - rewrite (bool_decide_eq_false_2 _ E1), (bool_decide_eq_false_2 _ E2).
    by rewrite (bool_decide_eq_false_2 (_ ∧ _)) by (by intros (? & ? & ?)).
Qed.

Lemma indice_de_compatibilidad_exacto (a b : Persona) :
  0 <= salud_emocional a <= 100 -> 0 <= salud_emocional b <= 100 ->
  (size (afinidades a ∪ afinidades b) < 50)%nat ->
  exists i, indice_de_compatibilidad a b = Ok i
            /\ (i >=? 70) = (70 <=? index_spec a b).
Proof.
  intros Ha Hb Hsz.
  rewrite indice_de_compatibilidad_eq, comp_genetica_spec.
  unfold index_spec, affinity_score_spec, emotional_score_spec.
  set (c := size (afinidades a ∩ afinidades b)).
  set (t := size (afinidades a ∪ afinidades b)) in *.
  assert (Hct : (c <= t)%nat).
  { apply subseteq_size. etrans; [apply intersection_subseteq_l|apply union_subseteq_l]. }
  assert (Ht' : exists tn,
             (if Z.of_nat t =? 0 then 1 else Z.of_nat t) = Z.of_nat tn
             /\ (1 <= tn <= 49)%nat /\ (c <= tn)%nat
             /\ (if Z.of_nat t =? 0 then 0 else 100 * Z.of_nat c / Z.of_nat t)
                = 100 * Z.of_nat c / Z.of_nat tn).
  { destruct (Z.of_nat t =? 0) eqn:E.
    - apply Z.eqb_eq in E. exists 1%nat. split; [done|]. split; [lia|]. split; [lia|].
      assert (Hc0 : c = 0%nat) by lia. by rewrite Hc0.
    - apply Z.eqb_neq in E. exists t. split; [done|]. split; [lia|]. done. }
  destruct Ht' as (tn & -> & Htn & Hctn & ->).
  rewrite (afinidad_exacta c tn Htn Hctn). unfold res_bind.
  apply umbral_exacto.
  - split; [apply Z.div_pos; lia|]. apply Z.div_le_upper_bound; lia.
  - split; [apply Z.div_pos; lia|]. apply Z.div_le_upper_bound; lia.
  - unfold genetic_score_spec. destruct (bool_decide _); [left|right]; reflexivity.
Qed.

(** The code computes the affinity score and the index in binary64. For
    emotional-health values in [0, 100] and fewer than 50 labels in the
    union of the affinity sets, the result is that of the exact
    arithmetic of the reference rule. *)
Lemma es_compatible_para_union_spec_acotado (a b : Persona) (hoy : date) :
  0 <= salud_emocional a <= 100 -> 0 <= salud_emocional b <= 100 ->
  (size (afinidades a ∪ afinidades b) < 50)%nat ->
  es_compatible_para_union a b hoy = Ok (is_union_compatible_spec a b hoy).
Proof.
  intros Ha Hb Hsz.
  destruct (indice_de_compatibilidad_exacto a b Ha Hb Hsz) as (i & Hi & Hcmp).
  unfold es_compatible_para_union, is_union_compatible_spec, gate_fails_spec.
  rewrite Hi, !bool_decide_or, Z.gtb_ltb.
  destruct (vivo a); simpl; [|done].
  destruct (vivo b); simpl; [|done].
  destruct (bool_decide (estado_civil a = "Casado(a)")); simpl; [done|].
  destruct (bool_decide (estado_civil a = "Unión libre")); simpl; [done|].
  destruct (bool_decide (estado_civil b = "Casado(a)")); simpl; [done|].
  destruct (bool_decide (estado_civil b = "Unión libre")); simpl; [done|].
  destruct (edad a None hoy <? 18); simpl; [done|].
  destruct (edad b None hoy <? 18); simpl; [done|].
  destruct (15 <? Z.abs (edad a None hoy - edad b None hoy)); simpl; [done|].
  by rewrite Hcmp.
Qed.

(** C2. For every two persons of the data model (emotional health in
    [0, 100], affinity labels of the fixed vocabulary),
    [es_compatible_para_union] is the reference rule: false when either
    is deceased, either has the status "Casado(a)" or "Unión libre",
    either is under 18 or the ages differ by more than 15 years, and
    otherwise whether floor(0.6 affinity + 0.2 emotional + 0.2 genetic)
    is at least 70, with the affinity score floor(100 shared / union) (0
    for an empty union), the emotional score the floor of the average of
    the two health values, and the genetic score 20 for two equal
    non-empty parent sets and 100 otherwise. *)
Theorem es_compatible_para_union_spec (a b : Persona) (hoy : date) :
  persona_del_modelo a -> persona_del_modelo b ->
  es_compatible_para_union a b hoy = Ok (is_union_compatible_spec a b hoy).
Proof.
  intros [Ha Hsa] [Hb Hsb].
  apply es_compatible_para_union_spec_acotado; [done..|].
  assert (H8 : size (list_to_set AFINIDADES : gset string) = 8%nat)
    by (vm_compute; reflexivity).
  assert (Hsub : afinidades a ∪ afinidades b ⊆ list_to_set AFINIDADES)
    by (by apply union_least).
  apply subseteq_size in Hsub. lia.
Qed.

Lemma es_compatible_para_union_spec_witness :
  let ana := con_afinidades {["Arte"; "Música"]}
               (Persona_nueva "101" "Ana" (mk_date 1985 5 10) "Femenino" "Cartago") in
  let luis := con_afinidades {["Arte"; "Música"]}
                (Persona_nueva "102" "Luis" (mk_date 1982 3 2) "Masculino" "Alajuela") in
  es_compatible_para_union ana luis (mk_date 2025 6 15) = Ok true
  /\ es_compatible_para_union ana luis (mk_date 2025 6 15)
     = Ok (is_union_compatible_spec ana luis (mk_date 2025 6 15)).
Proof.
  intros ana luis. split; [vm_compute; reflexivity|].
  apply (es_compatible_para_union_spec ana luis (mk_date 2025 6 15)).
  - split; [simpl; lia|]. apply (bool_decide_unpack _). vm_compute. exact I.
  - split; [simpl; lia|]. apply (bool_decide_unpack _). vm_compute. exact I.
Defined.

(** The bound on the labels is needed, and lies beyond the vocabulary of
    eight labels: with 29 shared labels out of 50 the code's affinity
    score is int(100 * (29 / 50)) = 57, not 58, and for two single adults
    of emotional health 76 the code's index is 69 where the exact index
    is 70. *)
Lemma es_compatible_para_union_29_de_50 :
  let ana := con_salud_emocional 76 (con_afinidades (etiquetas 50)
               (Persona_nueva "101" "Ana" (mk_date 1985 5 10) "Femenino" "Cartago")) in
  let luis := con_salud_emocional 76 (con_afinidades (etiquetas 29)
                (Persona_nueva "102" "Luis" (mk_date 1982 3 2) "Masculino" "Alajuela")) in
  let hoy := mk_date 2025 6 15 in
  size (afinidades ana ∩ afinidades luis) = 29%nat
  /\ size (afinidades ana ∪ afinidades luis) = 50%nat
  /\ score_afinidad_float 29 50 = Ok 57
  /\ affinity_score_spec ana luis = 58
  /\ is_union_compatible_spec ana luis hoy = true
  /\ es_compatible_para_union ana luis hoy = Ok false.
Proof.
  intros ana luis hoy. repeat split; vm_compute; reflexivity.
Qed.

(** ** Living descendants *)

Section Descendientes.
Variable m : dict Persona.

Lemma dict_get_values {V} (d : dict V) k v : dict_get k d = Some v -> v ∈ dict_values d.
Proof.
  induction d as [|[k' v'] d IH]; simpl; [done|].
  case_bool_decide; intros Hg.
  - simplify_eq. apply list_elem_of_here.
  - apply list_elem_of_further. by apply IH.
Qed.

Lemma tc_ultimo {A} (R : relation A) x z : tc R x z -> exists y, R y z.
Proof. induction 1 as [x z Hxz|x y z _ _ IH]; [by exists x|done]. Qed.

Lemma sin_ciclo_sn x : ~ ciclo_alcanzable m x -> sn (enlace m) x.
Proof.
  intros Hno.
  set (R := fun c c' => rtc (enlace m) x c /\ enlace m c c').
  assert (HR : forall c c', tc R c c' -> rtc (enlace m) x c /\ tc (enlace m) c c').
  { intros c c' H. induction H as [c c' [Hx H]|c c' c'' [Hx H] _ [_ IH]].
    - split; [done|]. by apply tc_once.
    - split; [done|]. by eapply tc_l. }
  assert (Hsn : sn R x).
  { apply tc_finite_sn.
    - intros c Hc. apply HR in Hc as [Hx Hc]. apply Hno. by exists c.
    - exists (flat_map (fun p => elements (hijos p)) (dict_values m)).
      intros c Hc. apply tc_ultimo in Hc as (y & _ & p & Hp & Hc).
      apply list_elem_of_In, in_flat_map. exists p.
      split; apply list_elem_of_In; [by eapply dict_get_values|].
      by apply elem_of_elements. }
  assert (Hgen : forall c, sn R c -> rtc (enlace m) x c -> sn (enlace m) c).
  { intros c Hc. induction Hc as [c _ IH]. intros Hx.
    constructor. intros c' Hcc'. simpl in Hcc'. apply IH.
    - by split.
    - by eapply rtc_r. }
  by apply Hgen.
Qed.

Lemma procesa_lista_de cs : (forall c, c ∈ cs -> procesa m c) -> procesa_lista m cs.
Proof.
  induction cs as [|c cs IH] using rev_ind; intros Hcs pre res.
  - exists 0%nat, []. split.
    + intros k. by rewrite !app_nil_r.
    + intros p. split; [by intros ?%elem_of_nil|].
      by intros (c & _ & ?%elem_of_nil & _).
  - destruct (Hcs c ltac:(apply elem_of_app; right; apply list_elem_of_here)
                (pre ++ cs)%list res) as (n1 & out1 & Hrun1 & Hout1).
    destruct (IH ltac:(intros; apply Hcs, elem_of_app; by left) pre (res ++ out1)%list)
      as (n2 & out2 & Hrun2 & Hout2).
    exists (n1 + n2)%nat, (out1 ++ out2)%list. split.
    + intros k. rewrite (assoc_L (++)), <- Nat.add_assoc, Hrun1, Hrun2.
      by rewrite (assoc_L (++)).
    + intros p. rewrite elem_of_app, Hout1, Hout2. split.
      * intros [(c' & ?)|(c0 & c' & ? & ?)].
        -- exists c, c'. split; [apply elem_of_app; right; apply list_elem_of_here|done].
        -- exists c0, c'. split; [apply elem_of_app; by left|done].
      * intros (c0 & c' & [?|Heq%list_elem_of_singleton]%elem_of_app & ?).
        -- right. by exists c0, c'.
        -- left. subst c0. by exists c'.
Qed.

Lemma sn_procesa c : sn (enlace m) c -> procesa m c.
Proof.
  induction 1 as [c _ IH]. intros pre res.
  destruct (dict_get c m) as [p|] eqn:Hp.
  - assert (Hcs : procesa_lista m (elements (hijos p))).
    { apply procesa_lista_de. intros c' Hc'. apply IH. simpl.
      exists p. split; [done|]. by apply elem_of_elements. }
    destruct (Hcs pre (if vivo p then (res ++ [p])%list else res)) as (n & out & Hrun & Hout).
    exists (S n), ((if vivo p then [p] else []) ++ out)%list. split.
    + intros k. simpl. rewrite last_snoc, removelast_last, Hp, Hrun.
      destruct (vivo p); by rewrite <- ?(assoc_L (++)).
    + intros q. rewrite elem_of_app, Hout. split.
      * intros [Hq|(c1 & c' & Hc1 & Hrtc & Hq)].
        -- destruct (vivo p) eqn:Hv; [|by apply elem_of_nil in Hq].
           apply list_elem_of_singleton in Hq as ->. by exists c.
        -- exists c'. split; [|done]. eapply rtc_l; [|done].
           exists p. split; [done|]. by apply elem_of_elements.
      * intros (c' & Hrtc & Hq & Hv).
        apply rtc_inv in Hrtc as [->|(c1 & (p' & Hp' & Hc1) & Hrtc)].
        -- left. simplify_eq. rewrite Hv. apply list_elem_of_here.
        -- right. simplify_eq. exists c1, c'. split; [by apply elem_of_elements|done].
  - exists 1%nat, []. split.
    + intros k. simpl. by rewrite last_snoc, removelast_last, Hp, app_nil_r.
    + intros q. split; [by intros ?%elem_of_nil|].
      intros (c' & Hrtc & Hq & _).
      apply rtc_inv in Hrtc as [->|(c1 & (p' & Hp' & _) & _)]; congruence.
Qed.

Lemma alcanza_ciclo_paso c :
  alcanza_ciclo m c -> exists c', enlace m c c' /\ alcanza_ciclo m c'.
Proof.
  intros (d & Hcd & Hdd).
  apply rtc_inv in Hcd as [->|(c' & Hcc' & Hc'd)].
  - inversion Hdd as [? d' Hstep|? d' ? Hstep Hrest]; subst.
    + exists d. split; [done|]. exists d. split; [done|]. by apply tc_once.
    + exists d'. split; [done|]. exists d. split; [by apply tc_rtc|done].
  - exists c'. split; [done|]. by exists d.
Qed.

Lemma bucle_no_termina fuel stack res :
  (exists c, c ∈ stack /\ alcanza_ciclo m c) ->
  descendientes_bucle fuel m stack res = None.
Proof.
  revert stack res. induction fuel as [|fuel IH]; intros stack res (c & Hin & Hc);
    [done|].
  simpl. destruct (last stack) as [ced|] eqn:Hlast.
  2:{ apply last_None in Hlast. subst. by apply elem_of_nil in Hin. }
  apply last_Some in Hlast as (stack' & ->). rewrite removelast_last.
  apply elem_of_app in Hin as [Hin|Hin%list_elem_of_singleton].
  - destruct (dict_get ced m); apply IH; exists c; split; try done.
    apply elem_of_app. by left.
  - subst c. destruct (alcanza_ciclo_paso ced Hc) as (c' & (p & Hp & Hc'p) & Hc').
    rewrite Hp. apply IH. exists c'. split; [|done].
    apply elem_of_app. right. by apply elem_of_elements.
Qed.

(** C3. In a family where no cycle of child links can be reached from
    [x], [descendientes_vivos] finishes (with enough iterations allowed it
    returns a list, the same for any larger allowance), and the persons of
    that list are exactly the living members reached from [x] by one or
    more child links; where such a cycle can be reached, it never finishes
    (no number of iterations gives a result). *)
Theorem descendientes_vivos_sin_ciclo_y_con_ciclo (x : string) :
  (~ ciclo_alcanzable m x ->
   exists l n,
     (forall fuel, (n <= fuel)%nat -> descendientes_vivos fuel m x = Some l)
     /\ forall p, p ∈ l <-> descendiente_vivo m x p)
  /\ (ciclo_alcanzable m x -> forall fuel, descendientes_vivos fuel m x = None).
Proof.
  unfold descendientes_vivos. split.
  - intros Hno. destruct (dict_get x m) as [px|] eqn:Hx.
    + assert (Hcs : procesa_lista m (elements (hijos px))).
      { apply procesa_lista_de. intros c Hc. apply sn_procesa.
        eapply sn_step; [by apply sin_ciclo_sn|].
        exists px. split; [done|]. by apply elem_of_elements. }
      destruct (Hcs [] []) as (n & out & Hrun & Hout).
      exists out, (S n). split.
      * intros fuel Hfuel. replace fuel with (n + S (fuel - S n))%nat by lia.
        specialize (Hrun (S (fuel - S n))). simpl in Hrun. exact Hrun.
      * intros p. rewrite Hout. unfold descendiente_vivo. split.
        -- intros (c & c' & Hc & Hrtc & Hp). exists c'. split; [|done].
           eapply tc_rtc_r; [|done]. apply tc_once.
           exists px. split; [done|]. by apply elem_of_elements.
        -- intros (c' & Htc & Hp).
           inversion Htc as [? ? (p0 & Hp0 & Hc)|? c ? (p0 & Hp0 & Hc) Hrest]; subst;
             simplify_eq.
           ++ exists c', c'. split; [by apply elem_of_elements|]. by split.
           ++ exists c, c'. split; [by apply elem_of_elements|].
              split; [by apply tc_rtc|done].
    + exists [], 0%nat. split; [done|].
      intros p. split; [by intros ?%elem_of_nil|].
      intros (c & Htc & _).
      inversion Htc as [? ? (p0 & Hp0 & _)|? ? ? (p0 & Hp0 & _) _]; congruence.
  - intros (d & Hxd & Hdd) fuel.
    destruct (alcanza_ciclo_paso x ltac:(by exists d)) as (c' & (p & Hp & Hc'p) & Hc').
    rewrite Hp. apply bucle_no_termina. exists c'. split; [|done].
    by apply elem_of_elements.
Qed.
End Descendientes.

Lemma descendientes_vivos_sin_ciclo_y_con_ciclo_witness :
  let p1 := con_hijos {["1"]}
              (Persona_nueva "1" "Ana" (mk_date 1985 5 10) "Femenino" "Cartago") in
  let p2 := Persona_nueva "2" "Luis" (mk_date 1982 3 2) "Masculino" "Alajuela" in
  (forall fuel, descendientes_vivos fuel [("1", p1)] "1" = None)
  /\ exists l n, forall fuel, (n <= fuel)%nat ->
                              descendientes_vivos fuel [("2", p2)] "2" = Some l.
Proof.
  intros p1 p2. split.
  - apply (descendientes_vivos_sin_ciclo_y_con_ciclo [("1", p1)] "1").
    exists "1". split; [apply rtc_refl|]. apply tc_once.
    exists p1. split; [reflexivity|]. vm_compute. reflexivity.
  - destruct (descendientes_vivos_sin_ciclo_y_con_ciclo [("2", p2)] "2") as [H _].
    destruct H as (l & n & H & _).
    + intros (c & _ & Hc).
      apply tc_ultimo in Hc as (y & p & Hp & Hin).
      simpl in Hp. case_bool_decide; [|done]. simplify_eq.
      by apply elem_of_empty in Hin.
    + by exists l, n.
Defined.

(** ** Guardianship of minors *)


Lemma salvo_historial_refl p : salvo_historial p p.
Proof. done. Qed.

















Lemma con_entradas_salvo e p : salvo_historial (con_entradas e p) p.
Proof. done. Qed.







(** ** Partner sets in the reachable states *)

Lemma registrado_mismos st st' id_fam k r :
  familias st' = familias st -> registrado st' id_fam k r <-> registrado st id_fam k r.
Proof. intros Hf. unfold registrado. by rewrite Hf. Qed.

(** With the same families and objects only the facts on partner sets
    remain to be shown. *)
Lemma Inv_mismos_objetos st st' :
  Inv st -> mismos_objetos st st' ->
  (forall r, is_Some (objetos st !! r) -> is_Some (objetos st' !! r)) ->
  (forall id_fam k r p c,
     miembro st' id_fam k r p -> c ∈ parejas p -> exists r', registrado st id_fam c r') ->
  (forall id_fam ka ra pa kb rb pb,
     miembro st' id_fam ka ra pa -> vivo pa = true -> kb ∈ parejas pa ->
     miembro st' id_fam kb rb pb -> ka ∈ parejas pb) ->
  Inv st'.
Proof.
  intros HI [Hf Ho] Hval H3 H4. split.
  - intros id_fam fam. rewrite Hf. apply (inv_claves _ HI).
  - intros id_fam k r Hr. apply (registrado_mismos _ _ _ _ _ Hf) in Hr.
    destruct (inv_cedula _ HI _ _ _ Hr) as (p & Hp & Hc).
    destruct (Hval r ltac:(by eexists)) as [p' Hp'].
    destruct (Ho _ _ Hp') as (p0 & Hp0 & Hc' & _). simplify_eq.
    exists p'. split; [done|congruence].
  - intros id_fam k r id_fam' k' H1 H2.
    apply (registrado_mismos _ _ _ _ _ Hf) in H1, H2. by eapply (inv_unico _ HI).
  - intros id_fam k r p c Hm Hc. destruct (H3 _ _ _ _ _ Hm Hc) as [r' Hr'].
    exists r'. by apply (registrado_mismos _ _ _ _ _ Hf).
  - exact H4.
Qed.

Lemma lookup_alter_Some {A} (f : A -> A) (o : list A) r r0 p' :
  alter f r o !! r0 = Some p' ->
  exists p, o !! r0 = Some p /\ p' = if decide (r = r0) then f p else p.
Proof.
  rewrite list_lookup_alter. case_decide; subst.
  - intros (p & Hp & ->)%fmap_Some. by exists p.
  - intros Hp. by exists p'.
Qed.

Lemma lookup_alter_is_Some {A} (f : A -> A) (o : list A) r r0 :
  is_Some (o !! r0) -> is_Some (alter f r o !! r0).
Proof.
  intros [p Hp]. rewrite list_lookup_alter. case_decide; subst; rewrite ?Hp; by eexists.
Qed.

Lemma miembro_alter st f r id_fam k r0 p' :
  miembro (con_objetos (alter f r (objetos st)) st) id_fam k r0 p' ->
  exists p, miembro st id_fam k r0 p /\ p' = if decide (r = r0) then f p else p.
Proof.
  intros [Hreg Hp']. simpl in Hp'.
  apply lookup_alter_Some in Hp' as (p & Hp & ->). by exists p.
Qed.

Lemma Inv_modificar_discreta st r f :
  discreta f -> Inv st -> Inv (modificar r f st).2.
Proof.
  intros Hf HI. simpl.
  assert (Hd : forall p r0, let p' := (if decide (r = r0) then f p else p) in
                 cedula p' = cedula p /\ parejas p' = parejas p
                 /\ (vivo p' = true -> vivo p = true)).
  { intros p r0. simpl. case_decide; [apply Hf|done]. }
  apply (Inv_mismos_objetos st); [done| | | |].
  - split; [done|]. simpl. intros r0 p' (p & Hp & ->)%lookup_alter_Some.
    exists p. split; [done|]. destruct (Hd p r0) as (? & _ & ?). done.
  - intros r0. apply lookup_alter_is_Some.
  - intros id_fam k r0 p' c (p & Hm & ->)%miembro_alter Hc.
    destruct (Hd p r0) as (_ & Hpar & _). rewrite Hpar in Hc.
    by eapply (inv_resuelve _ HI).
  - intros id_fam ka ra pa' kb rb pb' (pa & Hma & ->)%miembro_alter Hv Hkb
      (pb & Hmb & ->)%miembro_alter.
    destruct (Hd pa ra) as (_ & Hpa & Hva). destruct (Hd pb rb) as (_ & Hpb & _).
    rewrite Hpb. rewrite Hpa in Hkb. by eapply (inv_mutuo _ HI _ ka ra pa kb rb pb); auto.
Qed.

Lemma registrado_funcional st id_fam k r r' :
  registrado st id_fam k r -> registrado st id_fam k r' -> r = r'.
Proof. intros (fam & Hf & Hr) (fam' & Hf' & Hr'). congruence. Qed.

(** Widowhood: the identifier of a deceased member leaves the partner set
    of a member of the same family. *)
Lemma Inv_viudez st id_fam kd rd pd ky ry :
  Inv st -> miembro st id_fam kd rd pd -> vivo pd = false ->
  registrado st id_fam ky ry ->
  Inv (modificar ry (fun p => con_parejas (parejas p ∖ {[kd]}) p) st).2.
Proof.
  intros HI Hd Hdead Hy. simpl.
  set (f := fun p => con_parejas (parejas p ∖ {[kd]}) p).
  apply (Inv_mismos_objetos st); [done| | | |].
  - split; [done|]. simpl. intros r0 p' (p & Hp & ->)%lookup_alter_Some.
    exists p. split; [done|].
    case_decide; (split; [reflexivity|intros Hx; exact Hx]).
  - intros r0. apply lookup_alter_is_Some.
  - intros id k r0 p' c (p & Hm & ->)%miembro_alter Hc.
    apply (inv_resuelve _ HI _ _ _ _ c Hm).
    case_decide; [|done]. simpl in Hc. by apply elem_of_difference in Hc as [? _].
  - intros id ka ra pa' kb rb pb' (pa & Hma & ->)%miembro_alter Hv Hkb
      (pb & Hmb & ->)%miembro_alter.
    assert (Hva : vivo pa = true) by (by destruct (decide (ry = ra))).
    assert (Hkb' : kb ∈ parejas pa).
    { destruct (decide (ry = ra)); [|done].
      simpl in Hkb. by apply elem_of_difference in Hkb as [? _]. }
    pose proof (inv_mutuo _ HI _ _ _ _ _ _ _ Hma Hva Hkb' Hmb) as Hka.
    destruct (decide (ry = rb)) as [Eb|Eb]; [|done]. subst rb. simpl.
    apply elem_of_difference. split; [done|].
    intros ->%elem_of_singleton.
    destruct Hmb as [Hrb _]. destruct (inv_unico _ HI _ _ _ _ _ Hrb Hy) as [-> _].
    destruct Hma as [Hra Hpa]. destruct Hd as [Hrd Hpd].
    pose proof (registrado_funcional _ _ _ _ _ Hra Hrd). subst ra. congruence.
Qed.

Lemma objetos_unidos_lookup a b pa pb hoy o r0 p' :
  objetos_unidos a b pa pb hoy o !! r0 = Some p' ->
  exists p, o !! r0 = Some p /\ cedula p' = cedula p /\ vivo p' = vivo p
            /\ forall c, c ∈ parejas p' <->
                         c ∈ parejas p \/ (a = r0 /\ c = cedula pb)
                         \/ (b = r0 /\ c = cedula pa).
Proof.
  unfold objetos_unidos.
  intros (p5 & (p4 & (p3 & (p2 & (p1 & (p & Hp & ->)%lookup_alter_Some & ->)
    %lookup_alter_Some & ->)%lookup_alter_Some & ->)%lookup_alter_Some & ->)
    %lookup_alter_Some & ->)%lookup_alter_Some.
  exists p. split; [done|].
  destruct (decide (a = r0)) as [Ea|Ea]; destruct (decide (b = r0)) as [Eb|Eb];
    simpl; (split; [done|]); (split; [done|]); intros c; unfold agregar_a;
    rewrite ?elem_of_union, ?elem_of_singleton; naive_solver.
Qed.

Lemma objetos_unidos_is_Some a b pa pb hoy o r0 :
  is_Some (o !! r0) -> is_Some (objetos_unidos a b pa pb hoy o !! r0).
Proof. intros H. unfold objetos_unidos. by do 6 apply lookup_alter_is_Some. Qed.

Lemma Inv_union st id_fam c1 c2 a b pa pb hoy :
  Inv st -> miembro st id_fam c1 a pa -> miembro st id_fam c2 b pb ->
  Inv (con_objetos (objetos_unidos a b pa pb hoy (objetos st)) st).
Proof.
  intros HI [Hra Hpa] [Hrb Hpb].
  destruct (inv_cedula _ HI _ _ _ Hra) as (pa0 & Hpa0 & Hca).
  destruct (inv_cedula _ HI _ _ _ Hrb) as (pb0 & Hpb0 & Hcb). simplify_eq.
  apply (Inv_mismos_objetos st); [done| | | |].
  - split; [done|]. simpl. intros r0 p' (p & Hp & Hc & Hv & _)%objetos_unidos_lookup.
    exists p. split; [done|]. split; [done|]. by rewrite Hv.
  - intros r0. apply objetos_unidos_is_Some.
  - intros id k r0 p' c [Hr0 (p & Hp & _ & _ & Hpar)%objetos_unidos_lookup] Hc.
    apply Hpar in Hc as [Hc|[[-> ->]|[-> ->]]].
    + by eapply (inv_resuelve _ HI _ _ _ p c).
    + destruct (inv_unico _ HI _ _ _ _ _ Hr0 Hra) as [-> _]. by exists b.
    + destruct (inv_unico _ HI _ _ _ _ _ Hr0 Hrb) as [-> _]. by exists a.
  - intros id ka ra pa' kb rb pb'
      [Hrra (qa & Hqa & _ & Hva & Hpara)%objetos_unidos_lookup] Hv Hkb
      [Hrrb (qb & Hqb & _ & _ & Hparb)%objetos_unidos_lookup].
    apply Hparb. apply Hpara in Hkb as [Hkb|[[-> ->]|[-> ->]]].
    + left. eapply (inv_mutuo _ HI _ ka ra qa kb rb qb); try done. by rewrite <- Hva.
    + destruct (inv_unico _ HI _ _ _ _ _ Hrra Hra) as [-> ->].
      pose proof (registrado_funcional _ _ _ _ _ Hrrb Hrb) as ->. auto.
    + destruct (inv_unico _ HI _ _ _ _ _ Hrra Hrb) as [-> ->].
      pose proof (registrado_funcional _ _ _ _ _ Hrrb Hra) as ->. auto.
Qed.

Lemma Inv_crear_objeto st p : Inv st -> Inv (crear_objeto p st).2.
Proof.
  intros HI. simpl.
  assert (Hval : forall id k r, registrado st id k r -> (r < length (objetos st))%nat).
  { intros id k r Hr. destruct (inv_cedula _ HI _ _ _ Hr) as (q & Hq & _).
    by eapply lookup_lt_Some. }
  assert (Hm : forall id k r q,
             miembro (con_objetos (objetos st ++ [p]) st) id k r q -> miembro st id k r q).
  { intros id k r q [Hr Hq]. split; [done|]. simpl in Hq.
    rewrite lookup_app_l in Hq; [done|]. by eapply Hval. }
  split.
  - apply (inv_claves _ HI).
  - intros id k r Hr. destruct (inv_cedula _ HI _ _ _ Hr) as (q & Hq & Hc).
    exists q. split; [|done]. simpl. by apply lookup_app_l_Some.
  - apply (inv_unico _ HI).
  - intros id k r q c Hq%Hm Hc. by eapply (inv_resuelve _ HI).
  - intros id ka ra qa kb rb qb Ha%Hm Hv Hkb Hb%Hm. by eapply (inv_mutuo _ HI).
Qed.

Lemma dict_get_None_keys {V} (d : dict V) k : dict_get k d = None <-> k ∉ dict_keys d.
Proof.
  induction d as [|[k' v] d IH]; simpl.
  - split; [intros _; apply not_elem_of_nil|done].
  - rewrite not_elem_of_cons. case_bool_decide; subst.
    + split; [done|]. by intros [? _].
    + rewrite IH. naive_solver.
Qed.

Lemma dict_set_keys_NoDup {V} (d : dict V) k v :
  NoDup (dict_keys d) -> NoDup (dict_keys (dict_set k v d)).
Proof.
  induction d as [|[k' v'] d IH]; simpl; intros Hnd.
  - apply NoDup_singleton.
  - apply NoDup_cons in Hnd as [Hk' Hnd]. case_bool_decide; subst; simpl.
    + by apply NoDup_cons.
    + apply NoDup_cons. split; [|by apply IH].
      apply dict_get_None_keys. rewrite dict_get_set_ne by done.
      by apply dict_get_None_keys.
Qed.

Lemma dict_get_values_NoDup {V} (d : dict V) v :
  NoDup (dict_keys d) -> v ∈ dict_values d -> exists k, dict_get k d = Some v.
Proof.
  induction d as [|[k' v'] d IH]; simpl; intros Hnd Hv.
  - by apply elem_of_nil in Hv.
  - apply NoDup_cons in Hnd as [Hk' Hnd]. apply elem_of_cons in Hv as [->|Hv].
    + exists k'. by rewrite bool_decide_eq_true_2.
    + destruct (IH Hnd Hv) as [k Hk]. exists k.
      rewrite bool_decide_eq_false_2; [done|]. intros ->.
      apply dict_get_None_keys in Hk'. congruence.
Qed.

Lemma Inv_crear_familia st id_fam nom : Inv st -> Inv (crear_familia id_fam nom st).2.
Proof.
  intros HI. destruct (dict_in id_fam (familias st)) eqn:Hin.
  { by rewrite crear_familia_duplicada. }
  rewrite crear_familia_exito by done. simpl.
  apply dict_in_false in Hin.
  assert (Hreg : forall id k r,
             registrado (con_familias (dict_set id_fam (mk_Familia id_fam nom [])
                                         (familias st)) st) id k r
             -> registrado st id k r).
  { intros id k r (fam & Hf & Hr). simpl in Hf.
    destruct (decide (id_fam = id)) as [->|Hne].
    - rewrite dict_get_set_eq in Hf. by simplify_eq.
    - rewrite dict_get_set_ne in Hf by done. by exists fam. }
  assert (Hm : forall id k r q,
             miembro (con_familias (dict_set id_fam (mk_Familia id_fam nom [])
                                      (familias st)) st) id k r q
             -> miembro st id k r q).
  { intros id k r q [Hr Hq]. split; [by apply Hreg|done]. }
  split.
  - intros id fam. simpl. destruct (decide (id_fam = id)) as [->|Hne].
    + rewrite dict_get_set_eq. intros [= <-]. apply NoDup_nil_2.
    + rewrite dict_get_set_ne by done. apply (inv_claves _ HI).
  - intros id k r Hr%Hreg. by apply (inv_cedula _ HI _ _ _ Hr).
  - intros id k r id' k' H1%Hreg H2%Hreg. by eapply (inv_unico _ HI).
  - intros id k r q c Hq%Hm Hc. destruct (inv_resuelve _ HI _ _ _ _ _ Hq Hc) as [r' Hr'].
    exists r'. destruct Hr' as (fam & Hf & Hr'). exists fam. split; [|done]. simpl.
    rewrite dict_get_set_ne; [done|]. intros ->. congruence.
  - intros id ka ra qa kb rb qb Ha%Hm Hv Hkb Hb%Hm. by eapply (inv_mutuo _ HI).
Qed.

Lemma Inv_agregar_persona st id_fam p :
  Inv st -> persona_propia st p -> Inv (agregar_persona id_fam p st).2.
Proof.
  intros HI [(per & Hp & Hpar) Hnew].
  destruct (dict_get id_fam (familias st)) as [fam|] eqn:Hf;
    [|by rewrite agregar_persona_sin_familia].
  destruct (dict_in (cedula per) (miembros fam)) eqn:Hin;
    [by erewrite agregar_persona_duplicada|].
  destruct (agregar_persona_exito st id_fam p fam per Hf Hp Hin)
    as (extra & az & _ & ->). simpl.
  apply dict_in_false in Hin.
  set (per' := registrar_evento _ _ _ _).
  set (st' := mk_Mundo _ _ _ _ _).
  assert (Hreg : forall id k r,
             registrado st' id k r <->
             registrado st id k r \/ (id = id_fam /\ k = cedula per /\ r = p)).
  { intros id k r. unfold registrado. simpl. split.
    - intros (fam' & Hf' & Hr). destruct (decide (id_fam = id)) as [->|Hne].
      + rewrite dict_get_set_eq in Hf'. simplify_eq.
        unfold obtener, Familia_con in Hr. simpl in Hr.
        destruct (decide (cedula per = k)) as [<-|Hk].
        * rewrite dict_get_set_eq in Hr. simplify_eq. by right.
        * rewrite dict_get_set_ne in Hr by done. left. by exists fam.
      + rewrite dict_get_set_ne in Hf' by done. left. by exists fam'.
    - intros [(fam' & Hf' & Hr)|(-> & -> & ->)].
      + destruct (decide (id_fam = id)) as [->|Hne].
        * simplify_eq. eexists. split; [apply dict_get_set_eq|].
          unfold obtener, Familia_con. simpl. rewrite dict_get_set_ne; [done|].
          intros <-. unfold obtener in Hr. congruence.
        * exists fam'. by rewrite dict_get_set_ne.
      + eexists. split; [apply dict_get_set_eq|]. apply dict_get_set_eq. }
  assert (Hobj : forall r q, r ≠ p -> objetos st' !! r = Some q -> objetos st !! r = Some q).
  { intros r q Hne. simpl. by rewrite list_lookup_insert_ne. }
  assert (Hobjp : objetos st' !! p = Some per').
  { simpl. apply list_lookup_insert_eq. by eapply lookup_lt_Some. }
  assert (Hpar' : parejas per' = ∅) by exact Hpar.
  assert (Hold : forall id k r, registrado st id k r -> r ≠ p).
  { intros id k r Hr ->. by eapply Hnew. }
  assert (Hnokey : forall r, ~ registrado st id_fam (cedula per) r).
  { intros r (fam' & Hf' & Hr). unfold obtener in Hr. congruence. }
  split.
  - intros id fam'. simpl. destruct (decide (id_fam = id)) as [->|Hne].
    + rewrite dict_get_set_eq. intros [= <-]. simpl.
      apply dict_set_keys_NoDup. by apply (inv_claves _ HI id).
    + rewrite dict_get_set_ne by done. apply (inv_claves _ HI).
  - intros id k r [Hr|(-> & -> & ->)]%Hreg.
    + destruct (inv_cedula _ HI _ _ _ Hr) as (q & Hq & Hc). exists q. split; [|done].
      simpl. rewrite list_lookup_insert_ne; [done|]. intros <-. by eapply Hold.
    + by exists per'.
  - intros id k r id' k' [H1|(? & ? & ?)]%Hreg [H2|(? & ? & ?)]%Hreg; subst.
    + by eapply (inv_unico _ HI).
    + by destruct (Hold _ _ _ H1).
    + by destruct (Hold _ _ _ H2).
    + done.
  - intros id k r q c [[Hr|(-> & -> & ->)]%Hreg Hq] Hc.
    + apply Hobj in Hq; [|by eapply Hold].
      destruct (inv_resuelve _ HI id k r q c) as [r' Hr']; [by split|done|].
      exists r'. apply Hreg. by left.
    + rewrite Hobjp in Hq. injection Hq as <-.
      rewrite Hpar' in Hc. by apply elem_of_empty in Hc.
  - intros id ka ra qa kb rb qb [[Hra|(-> & -> & ->)]%Hreg Hqa] Hv Hkb [Hrb Hqb].
    + apply Hobj in Hqa; [|by eapply Hold].
      destruct (inv_resuelve _ HI id ka ra qa kb) as [r' Hr']; [by split|done|].
      apply Hreg in Hrb as [Hrb|(-> & -> & ->)].
      * apply Hobj in Hqb; [|by eapply Hold].
        by eapply (inv_mutuo _ HI id ka ra qa kb rb qb).
      * by destruct (Hnokey r').
    + rewrite Hobjp in Hqa. injection Hqa as <-.
      rewrite Hpar' in Hkb. by apply elem_of_empty in Hkb.
Qed.

(** *** A program logic for the invariant *)

Lemma hoare_bind {A B} P (c : M A) (k : A -> M B) R Q E :
  hoare P c R E -> (forall a, hoare (R a) (k a) Q E) -> hoare P (bind c k) Q E.
Proof.
  intros Hc Hk st HP. unfold bind. specialize (Hc st HP).
  destruct (c st) as [[a|e] st']; [by apply Hk|done].
Qed.

Lemma hoare_ret {A} (P : Mundo -> Prop) (a : A) (Q : A -> Mundo -> Prop) E :
  (forall st, P st -> Q a st) -> hoare P (ret a) Q E.
Proof. intros H st HP. by apply H. Qed.

Lemma hoare_raise {A} (P : Mundo -> Prop) e (Q : A -> Mundo -> Prop) (E : Mundo -> Prop) :
  (forall st, P st -> E st) -> hoare P (raise e) Q E.
Proof. intros H st HP. by apply H. Qed.

Lemma hoare_lift {A} (P : Mundo -> Prop) (r : res A) (Q : A -> Mundo -> Prop)
    (E : Mundo -> Prop) :
  (forall a st, r = Ok a -> P st -> Q a st) -> (forall st, P st -> E st) ->
  hoare P (lift r) Q E.
Proof. intros H1 H2 st HP. unfold lift. destruct r; [by apply H1|by apply H2]. Qed.

Lemma hoare_leer {A} (P : Mundo -> Prop) (f : Mundo -> A) (Q : A -> Mundo -> Prop) E :
  (forall st, P st -> Q (f st) st) -> hoare P (leer f) Q E.
Proof. intros H st HP. by apply H. Qed.

Lemma hoare_objeto (P : Mundo -> Prop) r (Q : Persona -> Mundo -> Prop)
    (E : Mundo -> Prop) :
  (forall p st, objetos st !! r = Some p -> P st -> Q p st) ->
  (forall st, P st -> E st) ->
  hoare P (objeto r) Q E.
Proof.
  intros H1 H2 st HP. unfold objeto.
  destruct (objetos st !! r) eqn:Hr; [by apply H1|by apply H2].
Qed.

Lemma hoare_modificar (P : Mundo -> Prop) r f (Q : unit -> Mundo -> Prop) E :
  (forall st, P st -> Q tt (modificar r f st).2) -> hoare P (modificar r f) Q E.
Proof. intros H st HP. by apply H. Qed.

Lemma hoare_conseq {A} (P P' : Mundo -> Prop) (c : M A) (Q Q' : A -> Mundo -> Prop)
    (E E' : Mundo -> Prop) :
  hoare P' c Q' E' -> (forall st, P st -> P' st) ->
  (forall a st, Q' a st -> Q a st) -> (forall st, E' st -> E st) ->
  hoare P c Q E.
Proof.
  intros H HP HQ HE st Hst. specialize (H st (HP st Hst)).
  destruct (c st) as [[a|e] st']; auto.
Qed.

Lemma hoare_para_cada {A} (I : Mundo -> Prop) (l : list A) (cuerpo : A -> M unit) E :
  (forall x, x ∈ l -> hoare I (cuerpo x) (fun _ => I) E) ->
  hoare I (para_cada l cuerpo) (fun _ => I) E.
Proof.
  induction l as [|x l IH]; intros H; simpl.
  - by apply hoare_ret.
  - eapply hoare_bind; [apply H, list_elem_of_here|].
    intros []. apply IH. intros y Hy. by apply H, list_elem_of_further.
Qed.

Create HintDb estable.

Lemma incluye_refl I : incluye I I.
Proof. by intros st. Qed.
#[local] Hint Resolve incluye_refl : estable.

Lemma estable_bind {A B} I E (c : M A) (k : A -> M B) :
  estable I E c -> (forall a, estable I E (k a)) -> estable I E (bind c k).
Proof. intros Hc Hk. eapply hoare_bind; [exact Hc|exact Hk]. Qed.

Lemma estable_ret {A} I E (a : A) : estable I E (ret a).
Proof. by apply hoare_ret. Qed.

Lemma estable_raise {A} I E e : incluye I E -> estable I E (raise e : M A).
Proof. intros H. by apply hoare_raise. Qed.

Lemma estable_lift {A} I E (r : res A) : incluye I E -> estable I E (lift r).
Proof. intros H. by apply hoare_lift. Qed.

Lemma estable_leer {A} I E (f : Mundo -> A) : estable I E (leer f).
Proof. by apply hoare_leer. Qed.

Lemma estable_objeto I E r : incluye I E -> estable I E (objeto r).
Proof. intros H. by apply hoare_objeto. Qed.

Lemma estable_tirar I E : sin_azar I -> estable I E tirar.
Proof. intros H st HI. simpl. by apply H. Qed.

Lemma estable_randbelow I E n : sin_azar I -> estable I E (randbelow n).
Proof.
  intros H. apply estable_bind; [by apply estable_tirar|]. intros. apply estable_ret.
Qed.

Lemma estable_random_random I E : sin_azar I -> estable I E random_random.
Proof.
  intros H. apply estable_bind; [by apply estable_tirar|]. intros. apply estable_ret.
Qed.

Lemma estable_randint I E a b : sin_azar I -> estable I E (randint a b).
Proof.
  intros H. apply estable_bind; [by apply estable_randbelow|]. intros. apply estable_ret.
Qed.

Lemma estable_choice {A} I E (l : list A) d : sin_azar I -> estable I E (choice l d).
Proof.
  intros H. apply estable_bind; [by apply estable_randbelow|]. intros. apply estable_ret.
Qed.

Lemma estable_shuffle_desde {A} I E i (l : list A) :
  sin_azar I -> estable I E (shuffle_desde i l).
Proof.
  intros H. revert l. induction i as [|i IH]; intros l; simpl; [apply estable_ret|].
  apply estable_bind; [by apply estable_randbelow|]. intros. apply IH.
Qed.

Lemma estable_para_cada {A} I E (l : list A) (cuerpo : A -> M unit) :
  (forall x, x ∈ l -> estable I E (cuerpo x)) -> estable I E (para_cada l cuerpo).
Proof. apply hoare_para_cada. Qed.

Lemma estable_de_estado {A} (I E : Mundo -> Prop) (c : M A) :
  incluye I E -> (forall st, I st -> I (c st).2) -> estable I E c.
Proof.
  intros HIE H st HI. specialize (H st HI).
  destruct (c st) as [[a|e] st']; [done|by apply HIE].
Qed.

Lemma estable_estado {A} (I : Mundo -> Prop) (c : M A) st :
  estable I I c -> I st -> I (c st).2.
Proof. intros H HI. specialize (H st HI). by destruct (c st) as [[a|e] st']. Qed.

Lemma estable_debil {A} (I E E' : Mundo -> Prop) (c : M A) :
  incluye E E' -> estable I E c -> estable I E' c.
Proof. intros HE H. eapply hoare_conseq; [exact H|done..]. Qed.

Lemma Inv_sin_azar : sin_azar Inv.
Proof. intros st az [H0 H1 H2 H3 H4]. by split. Qed.
Lemma Inv_fam_sin_azar id_fam fam : sin_azar (Inv_fam id_fam fam).
Proof. intros st az [HI Hf]. split; [by apply Inv_sin_azar|done]. Qed.
Lemma Inv_fallecida_sin_azar id_fam fam p : sin_azar (Inv_fallecida id_fam fam p).
Proof. intros st az [HI Hf]. split; [by apply Inv_fam_sin_azar|done]. Qed.
#[local] Hint Resolve Inv_sin_azar Inv_fam_sin_azar Inv_fallecida_sin_azar : estable.

Lemma Inv_fam_incluye id_fam fam : incluye (Inv_fam id_fam fam) Inv.
Proof. by intros st [H _]. Qed.
Lemma Inv_fallecida_incluye id_fam fam p : incluye (Inv_fallecida id_fam fam p) Inv.
Proof. by intros st [[H _] _]. Qed.
#[local] Hint Resolve Inv_fam_incluye Inv_fallecida_incluye : estable.

Lemma Inv_fam_modificar id_fam fam r f st :
  discreta f -> Inv_fam id_fam fam st -> Inv_fam id_fam fam (modificar r f st).2.
Proof. intros Hf [HI Hfam]. split; [by apply Inv_modificar_discreta|done]. Qed.

Lemma Inv_fallecida_modificar id_fam fam p r f st :
  (forall q, cedula (f q) = cedula q /\ (vivo (f q) = true -> vivo q = true)) ->
  Inv_fam id_fam fam st -> Inv_fam id_fam fam (modificar r f st).2 ->
  Inv_fallecida id_fam fam p st -> Inv_fallecida id_fam fam p (modificar r f st).2.
Proof.
  intros Hf _ HI' [_ (pd & Hpd & Hv & Hreg)]. split; [done|]. simpl.
  rewrite list_lookup_alter. case_decide; subst.
  - rewrite Hpd. simpl. exists (f pd). destruct (Hf pd) as [Hc Hvv].
    split; [done|]. rewrite Hc. split; [|done].
    destruct (vivo (f pd)) eqn:E; [|done]. rewrite Hvv in Hv; done.
  - by exists pd.
Qed.

Lemma estable_modificar I E r f :
  incluye I E -> (forall st, I st -> I (modificar r f st).2) ->
  estable I E (modificar r f).
Proof. intros HIE H. by apply estable_de_estado. Qed.

Lemma discreta_registrar_evento d f h : discreta (registrar_evento d f h).
Proof. done. Qed.
Lemma discreta_con_estado_civil e : discreta (con_estado_civil e).
Proof. done. Qed.
Lemma discreta_con_salud_emocional f :
  discreta (fun p => con_salud_emocional (f p) p).
Proof. done. Qed.
Lemma discreta_con_padres f : discreta (fun p => con_padres (f p) p).
Proof. done. Qed.
Lemma discreta_con_hijos f : discreta (fun p => con_hijos (f p) p).
Proof. done. Qed.
Lemma discreta_marcar_fallecido fd h : discreta (marcar_fallecido fd h).
Proof.
  intros p. unfold marcar_fallecido. destruct (fecha_fallecimiento p) eqn:Hf; [done|].
  simpl. split; [done|]. split; [done|]. unfold vivo. simpl. by rewrite Hf.
Qed.
#[local] Hint Resolve discreta_registrar_evento discreta_con_estado_civil
  discreta_con_salud_emocional discreta_con_padres discreta_con_hijos
  discreta_marcar_fallecido : estable.

Lemma Inv_admite : admite_discretas Inv.
Proof. intros r f st Hf. by apply Inv_modificar_discreta. Qed.
Lemma Inv_fam_admite id_fam fam : admite_discretas (Inv_fam id_fam fam).
Proof. intros r f st Hf. by apply Inv_fam_modificar. Qed.
Lemma Inv_fallecida_admite id_fam fam p : admite_discretas (Inv_fallecida id_fam fam p).
Proof.
  intros r f st Hf HI. apply Inv_fallecida_modificar; [|apply HI| |done].
  - intros q. destruct (Hf q) as (? & _ & ?). done.
  - apply Inv_fam_modificar; [done|apply HI].
Qed.
#[local] Hint Resolve Inv_admite Inv_fam_admite Inv_fallecida_admite : estable.

Lemma estable_modificar_discreta I E r f :
  incluye I E -> admite_discretas I -> discreta f -> estable I E (modificar r f).
Proof. intros HIE HI Hf. apply estable_modificar; [done|]. intros st. by apply HI. Qed.

Lemma estable_evento I E r d f :
  incluye I E -> admite_discretas I -> estable I E (evento r d f).
Proof.
  intros HIE HI. apply estable_bind; [apply estable_leer|]. intros hoy.
  apply estable_modificar_discreta; [done..|apply discreta_registrar_evento].
Qed.

Ltac estable_paso :=
  lazymatch goal with
  | |- estable _ _ (bind (crear_objeto _) _) => fail
  | |- estable _ _ (bind _ _) => apply estable_bind; [|intros ?]
  | |- estable _ _ (ret _) => apply estable_ret
  | |- estable _ _ (raise _) => apply estable_raise; auto with estable
  | |- estable _ _ (lift _) => apply estable_lift; auto with estable
  | |- estable _ _ (leer _) => apply estable_leer
  | |- estable _ _ (get_familia _) => apply estable_leer
  | |- estable _ _ (objeto _) => apply estable_objeto; auto with estable
  | |- estable _ _ (evento _ _ _) => apply estable_evento; auto with estable
  | |- estable _ _ (modificar _ _) =>
      apply estable_modificar_discreta; [auto with estable..|done]
  | |- estable _ _ random_random => apply estable_random_random; auto with estable
  | |- estable _ _ (randint _ _) => apply estable_randint; auto with estable
  | |- estable _ _ (choice _ _) => apply estable_choice; auto with estable
  | |- estable _ _ (shuffle _) => apply estable_shuffle_desde; auto with estable
  | |- estable _ _ (match ?x with _ => _ end) => destruct x
  end.

Lemma estable_unir_pareja id_fam c1 c2 : estable Inv Inv (unir_pareja id_fam c1 c2).
Proof.
  apply estable_de_estado; [apply incluye_refl|]. intros st HI.
  destruct (dict_get id_fam (familias st)) as [fam|] eqn:Hf.
  2:{ unfold unir_pareja, bind, get_familia, leer. by rewrite Hf. }
  destruct (obtener fam c1) as [a|] eqn:Ha.
  2:{ unfold unir_pareja, bind, get_familia, leer. by rewrite Hf, Ha. }
  destruct (obtener fam c2) as [b|] eqn:Hb.
  2:{ unfold unir_pareja, bind, get_familia, leer. by rewrite Hf, Ha, Hb. }
  destruct (objetos st !! a) as [pa|] eqn:Hpa.
  2:{ unfold unir_pareja, bind, get_familia, leer, objeto. by rewrite Hf, Ha, Hb, Hpa. }
  destruct (objetos st !! b) as [pb|] eqn:Hpb.
  2:{ unfold unir_pareja, bind, get_familia, leer, objeto.
      by rewrite Hf, Ha, Hb, Hpa, Hpb. }
  rewrite (unir_pareja_exec st id_fam fam c1 c2 a b pa pb) by done.
  destruct (es_compatible_para_union pa pb (fecha_hoy st)) as [[|]|e]; simpl; [|done..].
  apply (Inv_union st id_fam c1 c2); [done| |]; (split; [by exists fam|done]).
Qed.

Lemma estable_registrar_matrimonio id_fam c1 c2 :
  estable Inv Inv (registrar_matrimonio id_fam c1 c2).
Proof.
  unfold registrar_matrimonio.
  repeat first [apply estable_unir_pareja | estable_paso].
Qed.

Lemma estable_registrar_padre_hijo id_fam c1 c2 :
  estable Inv Inv (registrar_padre_hijo id_fam c1 c2).
Proof. unfold registrar_padre_hijo. repeat estable_paso. Qed.

Lemma estable_tick_diario dias : estable Inv Inv (tick_diario dias).
Proof.
  unfold tick_diario. repeat estable_paso.
  apply estable_de_estado; [apply incluye_refl|]. intros st [H0 H1 H2 H3 H4]. by split.
Qed.

Lemma estable_tutoria_de fam p : estable Inv Inv (tutoria_de fam p).
Proof. unfold tutoria_de. repeat estable_paso. Qed.

Lemma estable_reasignar_tutoria_menores fam :
  estable Inv Inv (reasignar_tutoria_menores fam).
Proof. apply estable_para_cada. intros p _. apply estable_tutoria_de. Qed.

Lemma hoare_crear_objeto_propia P :
  parejas P = ∅ ->
  hoare Inv (crear_objeto P) (fun p st => Inv st /\ persona_propia st p) Inv.
Proof.
  intros HP st HI. simpl. split; [by apply (Inv_crear_objeto st P)|]. split.
  - exists P. split; [|done]. simpl. by apply list_lookup_middle.
  - intros id k Hr. destruct (inv_cedula _ HI id k (length (objetos st))) as (q & Hq & _);
      [exact Hr|].
    apply lookup_lt_Some in Hq. lia.
Qed.

Lemma hoare_agregar_persona_propia id_fam p :
  hoare (fun st => Inv st /\ persona_propia st p) (agregar_persona id_fam p)
        (fun _ => Inv) Inv.
Proof.
  intros st [HI Hp]. pose proof (Inv_agregar_persona st id_fam p HI Hp) as H.
  by destruct (agregar_persona id_fam p st) as [[[]|e] st'].
Qed.

Lemma estable_registrar_nacimiento_de_pareja id_fam c1 c2 :
  estable Inv Inv (registrar_nacimiento_de_pareja id_fam c1 c2).
Proof.
  unfold registrar_nacimiento_de_pareja. repeat estable_paso.
  eapply hoare_bind; [by apply hoare_crear_objeto_propia|]. intros p.
  eapply hoare_bind; [apply hoare_agregar_persona_propia|]. intros [].
  match goal with |- hoare ?I ?c _ ?E => change (estable I E c) end.
  repeat estable_paso.
Qed.

Lemma estable_uniones id_fam fam : estable Inv Inv (uniones id_fam fam).
Proof.
  unfold uniones. repeat estable_paso.
  apply estable_para_cada. intros ab _.
  repeat first [apply estable_unir_pareja | estable_paso].
Qed.

Lemma estable_nacimientos id_fam fam : estable Inv Inv (nacimientos id_fam fam).
Proof.
  unfold nacimientos. repeat estable_paso.
  apply estable_para_cada. intros ab _.
  repeat first [apply estable_registrar_nacimiento_de_pareja | estable_paso].
Qed.

Lemma Inv_fallecida_viudez id_fam fam p st pf ky ry :
  Inv_fallecida id_fam fam p st -> objetos st !! p = Some pf ->
  obtener fam ky = Some ry ->
  Inv_fallecida id_fam fam p
    (modificar ry (fun q => con_parejas (parejas q ∖ {[cedula pf]}) q) st).2.
Proof.
  intros HI Hpf Hy. pose proof HI as [[HInv Hfam] (pd & Hpd & Hv & Hreg)].
  simplify_eq.
  assert (HI' : Inv_fam id_fam fam
                  (modificar ry (fun q => con_parejas (parejas q ∖ {[cedula pf]}) q) st).2).
  { split; [|done].
    apply (Inv_viudez st id_fam (cedula pf) p pf ky ry); try done.
    - split; [by exists fam|done].
    - by exists fam. }
  apply Inv_fallecida_modificar; try done.
Qed.

Lemma estable_gestionar_viudez id_fam fam p :
  estable (Inv_fallecida id_fam fam p) Inv (gestionar_viudez fam p).
Proof.
  unfold gestionar_viudez. estable_paso; [estable_paso|].
  apply estable_para_cada. intros ced _.
  destruct (obtener fam ced) as [pareja|] eqn:Hy; [|estable_paso].
  estable_paso; [estable_paso|]. destruct (vivo a0); [|estable_paso].
  estable_paso; [estable_paso|].
  eapply hoare_bind.
  { apply (hoare_objeto _ _ (fun pf st => Inv_fallecida id_fam fam p st
                                          /\ objetos st !! p = Some pf)).
    - done.
    - apply Inv_fallecida_incluye. }
  intros pf. eapply hoare_bind.
  { apply (hoare_modificar _ _ _ (fun _ => Inv_fallecida id_fam fam p)).
    intros st [HI Hpf]. by eapply Inv_fallecida_viudez. }
  intros []. match goal with |- hoare ?I ?c _ ?E => change (estable I E c) end.
  repeat estable_paso.
Qed.

Lemma vivo_marcar_fallecido fd h p : vivo (marcar_fallecido fd h p) = false.
Proof.
  unfold marcar_fallecido, vivo. destruct (fecha_fallecimiento p) eqn:Hf; [|done].
  by rewrite Hf.
Qed.

Lemma cedula_marcar_fallecido fd h p : cedula (marcar_fallecido fd h p) = cedula p.
Proof. unfold marcar_fallecido. by destruct (fecha_fallecimiento p). Qed.

Lemma hoare_marcar_fallecido id_fam fam p fd h :
  p ∈ todas_personas fam ->
  hoare (Inv_fam id_fam fam) (modificar p (marcar_fallecido fd h))
        (fun _ => Inv_fallecida id_fam fam p) Inv.
Proof.
  intros Hp. apply hoare_modificar. intros st HI. pose proof HI as [HInv Hfam].
  split; [apply Inv_fam_modificar; [apply discreta_marcar_fallecido|done]|].
  destruct (dict_get_values_NoDup (miembros fam) p) as [k Hk];
    [by apply (inv_claves _ HInv id_fam)|done|].
  destruct (inv_cedula _ HInv id_fam k p) as (q & Hq & Hc); [by exists fam|].
  exists (marcar_fallecido fd h q). simpl. rewrite list_lookup_alter_eq, Hq.
  split; [done|]. split; [apply vivo_marcar_fallecido|].
  by rewrite cedula_marcar_fallecido, Hc.
Qed.

Lemma estable_fallecimientos id_fam fam :
  estable (Inv_fam id_fam fam) Inv (fallecimientos fam).
Proof.
  unfold fallecimientos. apply estable_para_cada. intros p Hp.
  estable_paso; [estable_paso|]. destruct (negb (vivo a)); [estable_paso|].
  do 7 (estable_paso; [estable_paso|]).
  destruct (fltb a6 _); [|estable_paso].
  eapply hoare_bind; [by apply hoare_marcar_fallecido|]. intros [].
  eapply hoare_conseq; [apply (estable_gestionar_viudez id_fam fam p)|done| |done].
  by intros _ st [H _].
Qed.

Lemma estable_evento_cada_10s id_fam : estable Inv Inv (evento_cada_10s id_fam).
Proof.
  unfold evento_cada_10s.
  eapply hoare_bind.
  { apply (hoare_leer _ _ (fun o st => Inv st /\ dict_get id_fam (familias st) = o)).
    done. }
  intros [fam|]; [|by apply hoare_ret; intros st [H _]].
  apply (hoare_bind _ _ _ (fun _ => Inv_fam id_fam fam)).
  { change (estable (Inv_fam id_fam fam) Inv (tick_diario 365)).
    unfold tick_diario. repeat estable_paso.
    apply estable_de_estado; [auto with estable|].
    intros st [[H0 H1 H2 H3 H4] Hf]. by split. }
  intros []. apply (hoare_bind _ _ _ (fun _ => Inv)).
  { eapply hoare_conseq; [apply (estable_fallecimientos id_fam fam)|done| |done].
    intros _ st [H _]. exact H. }
  intros []. simpl.
  match goal with |- hoare ?I ?c _ ?E => change (estable I E c) end.
  estable_paso; [apply estable_uniones|].
  estable_paso; [apply estable_nacimientos|].
  estable_paso; [estable_paso|].
  destruct a1; [apply estable_reasignar_tutoria_menores|estable_paso].
Qed.

(** *** Reachable states *)

Lemma Inv_inicial hoy az : Inv (Mundo_inicial hoy az).
Proof.
  split.
  - intros id fam H. done.
  - intros id k r (fam & H & _). done.
  - intros id k r id' k' (fam & H & _). done.
  - intros id k r p c [(fam & H & _) _]. done.
  - intros id ka ra pa kb rb pb [(fam & H & _) _]. done.
Qed.

Lemma Inv_paso st st' : Inv st -> paso persona_propia st st' -> Inv st'.
Proof.
  intros HI Hp. destruct Hp.
  - by apply Inv_crear_objeto.
  - destruct HI as [H0 H1 H2 H3 H4]. by split.
  - by apply Inv_crear_familia.
  - by apply Inv_agregar_persona.
  - by apply estable_estado; [apply estable_unir_pareja|].
  - by apply estable_estado; [apply estable_registrar_matrimonio|].
  - by apply estable_estado; [apply estable_registrar_padre_hijo|].
  - by apply estable_estado; [apply estable_registrar_nacimiento_de_pareja|].
  - by apply estable_estado; [apply estable_tick_diario|].
  - by apply estable_estado; [apply estable_evento_cada_10s|].
Qed.

Lemma Inv_alcanzable st : alcanzable persona_propia st -> Inv st.
Proof.
  induction 1 as [hoy az|st st' _ IH Hp]; [apply Inv_inicial|by eapply Inv_paso].
Qed.

(** C1, amended. In every state reached from an empty registry by the
    operations of the engine (with the construction of person objects and
    the passing of time between them), where each person object given to
    [agregar_persona] had an empty partner set and was not yet registered
    in any family, for every two living members of one family the
    identifier of the second is in the partner set of the first exactly
    when the identifier of the first is in that of the second. *)
Theorem parejas_mutuas_entre_vivos (st : Mundo) (id_fam ka kb : string)
    (fam : Familia) (ra rb : ref) (pa pb : Persona) :
  alcanzable persona_propia st ->
  dict_get id_fam (familias st) = Some fam ->
  obtener fam ka = Some ra -> obtener fam kb = Some rb ->
  objetos st !! ra = Some pa -> objetos st !! rb = Some pb ->
  vivo pa = true -> vivo pb = true ->
  (cedula pb ∈ parejas pa <-> cedula pa ∈ parejas pb).
Proof.
  intros Halc Hf Ha Hb Hpa Hpb Hva Hvb.
  pose proof (Inv_alcanzable st Halc) as HI.
  assert (Hma : miembro st id_fam ka ra pa) by (split; [by exists fam|done]).
  assert (Hmb : miembro st id_fam kb rb pb) by (split; [by exists fam|done]).
  destruct (inv_cedula _ HI id_fam ka ra) as (qa & Hqa & Hca); [by exists fam|].
  destruct (inv_cedula _ HI id_fam kb rb) as (qb & Hqb & Hcb); [by exists fam|].
  simplify_eq. split; intros H.
  - by eapply (inv_mutuo _ HI id_fam (cedula pa) ra pa (cedula pb) rb pb).
  - by eapply (inv_mutuo _ HI id_fam (cedula pb) rb pb (cedula pa) ra pa).
Qed.

Lemma registrado_registradas st id_fam k r :
  registrado st id_fam k r -> r ∈ registradas st.
Proof.
  intros (fam & Hf & Hr). apply list_elem_of_In, in_flat_map. exists fam.
  split; apply list_elem_of_In; by eapply dict_get_values.
Qed.

Lemma persona_propia_calculada st p per :
  objetos st !! p = Some per -> parejas per = ∅ ->
  bool_decide (p ∈ registradas st) = false -> persona_propia st p.
Proof.
  intros Hp Hpar Hno. split; [by exists per|].
  intros id k Hr%registrado_registradas. by apply bool_decide_eq_false in Hno.
Qed.

Lemma alcanzable_mundo_unidos : alcanzable persona_propia mundo_unidos.
Proof.
  unfold mundo_unidos. cbv zeta.
  eapply alcanzable_paso; [|apply paso_unir_pareja].
  eapply alcanzable_paso.
  2:{ apply paso_agregar_persona.
      eapply (persona_propia_calculada _ _ luis); vm_compute; reflexivity. }
  eapply alcanzable_paso.
  2:{ apply paso_agregar_persona.
      eapply (persona_propia_calculada _ _ ana); vm_compute; reflexivity. }
  eapply alcanzable_paso; [|apply paso_objeto].
  eapply alcanzable_paso; [|apply paso_objeto].
  eapply alcanzable_paso; [|apply paso_crear_familia].
  apply alcanzable_inicial.
Qed.

(** C1, as stated, fails: after the tick in which Ana dies, Luis, her
    widower, is still in her partner set and she is no longer in his. The
    state is reached with persons built with an empty partner set and
    registered once. *)
Lemma parejas_no_mutuas_tras_viudez :
  alcanzable persona_propia mundo_viudez
  /\ exists fam pa pb,
       dict_get "F1" (familias mundo_viudez) = Some fam
       /\ obtener fam "101" = Some 0%nat /\ obtener fam "102" = Some 1%nat
       /\ objetos mundo_viudez !! 0%nat = Some pa
       /\ objetos mundo_viudez !! 1%nat = Some pb
       /\ vivo pa = false /\ vivo pb = true
       /\ cedula pb ∈ parejas pa /\ cedula pa ∉ parejas pb.
Proof.
  split.
  - eapply alcanzable_paso; [apply alcanzable_mundo_unidos|].
    apply paso_evento_cada_10s.
  - eexists _, _, _. split; [vm_compute; reflexivity|].
    split; [vm_compute; reflexivity|]. split; [vm_compute; reflexivity|].
    split; [vm_compute; reflexivity|]. split; [vm_compute; reflexivity|].
    split; [vm_compute; reflexivity|]. split; [vm_compute; reflexivity|].
    split; [vm_compute; reflexivity|].
    intros H. vm_compute in H. discriminate H.
Qed.

Lemma parejas_mutuas_entre_vivos_witness :
  exists pa pb,
    objetos mundo_unidos !! 0%nat = Some pa /\ objetos mundo_unidos !! 1%nat = Some pb
    /\ (cedula pb ∈ parejas pa <-> cedula pa ∈ parejas pb).
Proof.
  eexists _, _. split; [vm_compute; reflexivity|]. split; [vm_compute; reflexivity|].
  eapply (parejas_mutuas_entre_vivos mundo_unidos "F1" "101" "102" _ 0%nat 1%nat).
  - apply alcanzable_mundo_unidos.
  - vm_compute. reflexivity.
  - reflexivity.
  - reflexivity.
  - vm_compute. reflexivity.
  - vm_compute. reflexivity.
  - reflexivity.
  - reflexivity.
Defined.

(** The condition on the partner set of a person given to
    [agregar_persona] is needed: without it, two living members need not
    be mutual partners. *)
Lemma parejas_no_mutuas_con_parejas_previas :
  alcanzable persona_cualquiera mundo_parejas_previas
  /\ parejas_no_mutuas mundo_parejas_previas "F1" 0 1.
Proof.
  split.
  - unfold mundo_parejas_previas. cbv zeta.
    eapply alcanzable_paso;
      [|apply paso_agregar_persona; eexists; vm_compute; reflexivity].
    eapply alcanzable_paso;
      [|apply paso_agregar_persona; eexists; vm_compute; reflexivity].
    eapply alcanzable_paso; [|apply paso_objeto].
    eapply alcanzable_paso; [|apply paso_objeto].
    eapply alcanzable_paso; [|apply paso_crear_familia].
    apply alcanzable_inicial.
  - eexists _, _, _. split; [vm_compute; reflexivity|].
    split; [|split; [|split; [vm_compute; reflexivity|split; [vm_compute; reflexivity|]]]].
    1-2: vm_compute; reflexivity.
    split; [vm_compute; reflexivity|]. split; [vm_compute; reflexivity|].
    split; [apply (bool_decide_unpack _); vm_compute; exact I|].
    intros H. vm_compute in H. discriminate H.
Qed.

(** So is the condition that the object is not yet registered: an object
    registered in two families gets in one of them a partner that the
    other family resolves to somebody else. *)
Lemma parejas_no_mutuas_en_dos_familias :
  alcanzable persona_cualquiera mundo_dos_familias
  /\ parejas_no_mutuas mundo_dos_familias "F1" 0 1.
Proof.
  split.
  - unfold mundo_dos_familias. cbv zeta.
    eapply alcanzable_paso; [|apply paso_unir_pareja].
    do 4 (eapply alcanzable_paso;
      [|apply paso_agregar_persona; eexists; vm_compute; reflexivity]).
    do 3 (eapply alcanzable_paso; [|apply paso_objeto]).
    do 2 (eapply alcanzable_paso; [|apply paso_crear_familia]).
    apply alcanzable_inicial.
  - eexists _, _, _. split; [vm_compute; reflexivity|].
    split; [|split; [|split; [vm_compute; reflexivity|split; [vm_compute; reflexivity|]]]].
    1-2: vm_compute; reflexivity.
    split; [vm_compute; reflexivity|]. split; [vm_compute; reflexivity|].
    split; [apply (bool_decide_unpack _); vm_compute; exact I|].
    intros H. vm_compute in H. discriminate H.
Qed.

(** ** Further properties of the engine *)

(** *** Dates and their ordinals *)

Lemma todos_desde_spec f n z :
  todos_desde f n z = true -> forall x, z <= x < z + Z.of_nat n -> f x = true.
Proof.
  revert z. induction n as [|n IH]; intros z H x Hx; [lia|].
  simpl in H. destruct (f z) eqn:Hz; [|done].
  destruct (decide (x = z)) as [->|Hne]; [done|].
  apply (IH (z + 1)); [done|lia].
Qed.

Lemma todos_desde_hasta f n z :
  todos_desde f (Z.to_nat n) z = true -> forall x, z <= x < z + n -> f x = true.
Proof.
  intros H x Hx. apply (todos_desde_spec f (Z.to_nat n) z H). lia.
Qed.

Lemma ciclo_ordinal_todos :
  todos_desde (fun n => comprueba_ordinal (fromordinal n) n) (Z.to_nat DI400Y) 1 = true.
Proof. vm_cast_no_check (eq_refl true). Qed.

Lemma comprueba_ordinal_elim d n :
  comprueba_ordinal d n = true ->
  toordinal d = n /\ date_ok d = true /\ year d <= 400
  /\ (n <= 145731 -> year d <= 399).
Proof.
  unfold comprueba_ordinal. intros H.
  apply andb_prop in H as [H H4]. apply andb_prop in H as [H H3].
  apply andb_prop in H as [H1 H2].
  apply Z.eqb_eq in H1. apply Z.leb_le in H3.
  split; [done|]. split; [done|]. split; [done|].
  intros Hle. apply orb_prop in H4 as [H4|H4]; [apply Z.ltb_lt in H4; lia|].
  by apply Z.leb_le.
Qed.

Lemma ciclo_ordinal n :
  1 <= n <= DI400Y ->
  toordinal (fromordinal n) = n /\ date_ok (fromordinal n) = true
  /\ year (fromordinal n) <= 400 /\ (n <= 145731 -> year (fromordinal n) <= 399).
Proof.
  intros Hn. apply comprueba_ordinal_elim.
  apply (todos_desde_hasta (fun n => comprueba_ordinal (fromordinal n) n) _ _
           ciclo_ordinal_todos).
  lia.
Qed.

Lemma is_leap_periodo y k : is_leap (y + 400 * k) = is_leap y.
Proof.
  unfold is_leap.
  replace ((y + 400 * k) mod 4) with (y mod 4)
    by (Z.div_mod_to_equations; lia).
  replace ((y + 400 * k) mod 100) with (y mod 100)
    by (Z.div_mod_to_equations; lia).
  replace ((y + 400 * k) mod 400) with (y mod 400)
    by (Z.div_mod_to_equations; lia).
  done.
Qed.

Lemma days_before_year_periodo y k :
  days_before_year (y + 400 * k) = days_before_year y + DI400Y * k.
Proof. unfold days_before_year, DI400Y. Z.div_mod_to_equations. lia. Qed.

Lemma toordinal_periodo d k :
  toordinal (date_mas_anios (400 * k) d) = toordinal d + DI400Y * k.
Proof.
  unfold toordinal, date_mas_anios, days_before_month. simpl.
  rewrite days_before_year_periodo, is_leap_periodo. lia.
Qed.

Lemma date_ok_periodo d k :
  date_ok d = true -> MINYEAR <= year d + 400 * k <= MAXYEAR ->
  date_ok (date_mas_anios (400 * k) d) = true.
Proof.
  unfold date_ok, date_mas_anios, days_in_month. simpl.
  rewrite is_leap_periodo. intros H Hy.
  repeat (apply andb_prop in H as [H ?]).
  repeat (apply andb_true_intro; split); try done; lia.
Qed.

Lemma fromordinal_periodo n k :
  1 <= n <= DI400Y ->
  fromordinal (n + DI400Y * k) = date_mas_anios (400 * k) (fromordinal n).
Proof.
  intros Hn. unfold fromordinal. cbv zeta.
  replace (n + DI400Y * k - 1) with ((n - 1) + k * DI400Y) by lia.
  rewrite Z.div_add, Z.mod_add by done.
  rewrite (Z.div_small (n - 1) DI400Y), (Z.mod_small (n - 1) DI400Y) by lia.
  set (r := n - 1).
  destruct ((r mod DI100Y mod DI4Y / 365 =? 4) || (r / DI100Y =? 4));
    [unfold date_mas_anios; simpl; f_equal; lia|].
  match goal with
  | |- (let '(_, _) := ?c in _) = _ => destruct c as [m pre]
  end.
  unfold date_mas_anios; simpl; f_equal; lia.
Qed.

Lemma toordinal_fromordinal n :
  1 <= n <= MAXORDINAL ->
  toordinal (fromordinal n) = n /\ date_ok (fromordinal n) = true.
Proof.
  intros Hn.
  assert (exists n0 k, 1 <= n0 <= DI400Y /\ 0 <= k <= 24 /\ n = n0 + DI400Y * k
                       /\ (k = 24 -> n0 <= 145731)) as (n0 & k & Hn0 & Hk & -> & Hk24).
  { exists ((n - 1) mod DI400Y + 1), ((n - 1) / DI400Y).
    unfold MAXORDINAL, DI400Y in *. Z.div_mod_to_equations. lia. }
  destruct (ciclo_ordinal n0 Hn0) as (Ht & Hok & Hy & Hy').
  rewrite fromordinal_periodo, toordinal_periodo by done.
  split; [lia|]. apply date_ok_periodo; [done|].
  apply date_ok_campos in Hok as (? & _). unfold MINYEAR, MAXYEAR. lia.
Qed.

Lemma days_before_year_paso y :
  days_before_year (y + 1) = days_before_year y + (if is_leap y then 366 else 365).
Proof.
  unfold days_before_year, is_leap.
  repeat match goal with
         | |- context [?a =? ?b] => destruct (Z.eqb_spec a b)
         end; simpl; Z.div_mod_to_equations; lia.
Qed.

Lemma days_before_year_mono y1 y2 :
  y1 <= y2 -> days_before_year y1 <= days_before_year y2.
Proof. unfold days_before_year. intros H. Z.div_mod_to_equations. lia. Qed.

(** The day of the year of a date is within the year. *)
Lemma dia_del_anio d :
  date_ok d = true ->
  1 <= days_before_month (year d) (month d) + day d
    <= (if is_leap (year d) then 366 else 365).
Proof.
  intros (Hy & Hm & Hd)%date_ok_campos. destruct d as [y m d]. simpl in *.
  unfold days_before_month, days_in_month, DAYS_BEFORE_MONTH in *.
  assert (m = 1 \/ m = 2 \/ m = 3 \/ m = 4 \/ m = 5 \/ m = 6 \/ m = 7 \/ m = 8
          \/ m = 9 \/ m = 10 \/ m = 11 \/ m = 12) as Hcases by lia.
  destruct (is_leap y);
    repeat (destruct Hcases as [->|Hcases]); try subst m; simpl in *; lia.
Qed.

Lemma toordinal_mono d1 d2 :
  date_ok d1 = true -> date_ok d2 = true -> date_ltb d1 d2 = true ->
  toordinal d1 < toordinal d2.
Proof.
  intros H1 H2 Hlt.
  pose proof (dia_del_anio d1 H1) as Hd1. pose proof (dia_del_anio d2 H2) as Hd2.
  apply date_ok_campos in H1 as (Hy1 & Hm1 & Hday1).
  apply date_ok_campos in H2 as (Hy2 & Hm2 & Hday2).
  unfold toordinal. unfold date_ltb, pair_ltb in Hlt. simpl in Hlt.
  destruct d1 as [y1 m1 a1], d2 as [y2 m2 a2]. simpl in *.
  destruct (Z.ltb_spec y1 y2) as [Hy|Hy].
  - pose proof (days_before_year_paso y1) as Hp.
    pose proof (days_before_year_mono (y1 + 1) y2 ltac:(lia)) as Hmn.
    destruct (is_leap y1); lia.
  - simpl in Hlt. apply andb_prop in Hlt as [->%Z.eqb_eq Hlt].
    destruct (Z.ltb_spec m1 m2) as [Hm|Hm].
    + clear Hlt Hd1 Hd2. unfold days_before_month, days_in_month, DAYS_BEFORE_MONTH in *.
      assert (m1 = 1 \/ m1 = 2 \/ m1 = 3 \/ m1 = 4 \/ m1 = 5 \/ m1 = 6 \/ m1 = 7
              \/ m1 = 8 \/ m1 = 9 \/ m1 = 10 \/ m1 = 11 \/ m1 = 12) as C1 by lia.
      assert (m2 = 1 \/ m2 = 2 \/ m2 = 3 \/ m2 = 4 \/ m2 = 5 \/ m2 = 6 \/ m2 = 7
              \/ m2 = 8 \/ m2 = 9 \/ m2 = 10 \/ m2 = 11 \/ m2 = 12) as C2 by lia.
      destruct (is_leap y2);
        repeat (destruct C1 as [->|C1]); try subst m1;
        repeat (destruct C2 as [->|C2]); try subst m2; simpl in *; lia.
    + simpl in Hlt. apply andb_prop in Hlt as [->%Z.eqb_eq Hlt%Z.ltb_lt]. lia.
Qed.

Lemma date_ltb_tricotomia d1 d2 :
  date_ltb d1 d2 = true \/ d1 = d2 \/ date_ltb d2 d1 = true.
Proof.
  destruct d1 as [y1 m1 a1], d2 as [y2 m2 a2]. unfold date_ltb, pair_ltb. simpl.
  destruct (Z.lt_total y1 y2) as [H|[->|H]].
  - left. apply orb_true_intro. left. by apply Z.ltb_lt.
  - rewrite Z.eqb_refl, Z.ltb_irrefl. simpl.
    destruct (Z.lt_total m1 m2) as [H|[->|H]].
    + left. apply orb_true_intro. left. by apply Z.ltb_lt.
    + rewrite Z.eqb_refl, Z.ltb_irrefl. simpl.
      destruct (Z.lt_total a1 a2) as [H|[->|H]].
      * left. by apply Z.ltb_lt.
      * right. by left.
      * right. right. by apply Z.ltb_lt.
    + right. right. apply orb_true_intro. left. by apply Z.ltb_lt.
  - right. right. apply orb_true_intro. left. by apply Z.ltb_lt.
Qed.

Lemma toordinal_rango d : date_ok d = true -> 1 <= toordinal d <= MAXORDINAL.
Proof.
  intros H. pose proof (dia_del_anio d H) as Hd.
  apply date_ok_campos in H as (Hy & _ & _). unfold toordinal.
  pose proof (days_before_year_mono 1 (year d) ltac:(lia)) as H1.
  pose proof (days_before_year_mono (year d + 1) 10000 ltac:(lia)) as H2.
  pose proof (days_before_year_paso (year d)) as Hp.
  change (days_before_year 1) with 0 in H1.
  change (days_before_year 10000) with 3652059 in H2.
  unfold MAXORDINAL. destruct (is_leap (year d)); lia.
Qed.

Lemma fromordinal_toordinal d : date_ok d = true -> fromordinal (toordinal d) = d.
Proof.
  intros H. pose proof (toordinal_rango d H) as Hr.
  destruct (toordinal_fromordinal _ Hr) as [Ht Hok].
  destruct (date_ltb_tricotomia (fromordinal (toordinal d)) d) as [Hlt|[Heq|Hlt]];
    [|done|].
  - apply toordinal_mono in Hlt; [lia|done..].
  - apply toordinal_mono in Hlt; [lia|done..].
Qed.

Lemma date_leb_ordinal d1 d2 :
  date_ok d1 = true -> date_ok d2 = true ->
  toordinal d1 <= toordinal d2 -> date_leb d1 d2 = true.
Proof.
  intros H1 H2 Hle. unfold date_leb.
  destruct (date_ltb d2 d1) eqn:Hlt; [|done].
  apply toordinal_mono in Hlt; [lia|done..].
Qed.

Lemma date_ltb_ordinal d1 d2 :
  date_ok d1 = true -> date_ok d2 = true ->
  toordinal d1 < toordinal d2 -> date_ltb d1 d2 = true.
Proof.
  intros H1 H2 Hlt.
  destruct (date_ltb_tricotomia d1 d2) as [H|[->|H]]; [done|lia|].
  apply toordinal_mono in H; [lia|done..].
Qed.

Lemma con_fecha_simulada_id st : con_fecha_simulada (fecha_simulada st) st = st.
Proof. by destruct st. Qed.

(** X1. On a valid simulated date, [tick_diario dias] moves the date by
    exactly [dias] days to a valid date when the day reached is between
    0001-01-01 and 9999-12-31, and changes nothing else; otherwise it
    raises [OverflowError] and leaves the state as it was. *)
Theorem tick_diario_ordinal (st : Mundo) (dias : Z) :
  date_ok (fecha_simulada st) = true ->
  (1 <= toordinal (fecha_simulada st) + dias <= MAXORDINAL ->
     exists d, tick_diario dias st = (Ok tt, con_fecha_simulada d st)
               /\ date_ok d = true
               /\ toordinal d = toordinal (fecha_simulada st) + dias)
  /\ (~ (1 <= toordinal (fecha_simulada st) + dias <= MAXORDINAL) ->
      tick_diario dias st = (Raise OverflowError, st)).
Proof.
  intros Hok. pose proof (toordinal_rango _ Hok) as Hr. unfold MAXORDINAL in *.
  unfold tick_diario, bind, leer, lift, date_add_days, MAXORDINAL. split.
  - intros Ho. exists (fromordinal (toordinal (fecha_simulada st) + dias)).
    destruct (toordinal_fromordinal (toordinal (fecha_simulada st) + dias))
      as [Ht Hd]; [unfold MAXORDINAL; lia|].
    rewrite (proj2 (orb_false_iff _ _)) by (split; apply Z.ltb_ge; lia).
    rewrite (proj2 (andb_true_iff _ _))
      by (split; [apply Z.ltb_lt|apply Z.leb_le]; lia).
    done.
  - intros Ho. destruct ((dias <? -999999999) || (999999999 <? dias)); [done|].
    rewrite (proj2 (andb_false_iff _ _)); [done|].
    destruct (Z.ltb_spec 0 (toordinal (fecha_simulada st) + dias)); [|by left].
    right. apply Z.leb_gt. lia.
Qed.

Lemma tick_diario_ordinal_witness :
  let st := Mundo_inicial (mk_date 2024 2 28) [] in
  (exists d, tick_diario 2 st = (Ok tt, con_fecha_simulada d st)
             /\ date_ok d = true /\ toordinal d = toordinal (fecha_simulada st) + 2)
  /\ tick_diario 2 st = (Ok tt, con_fecha_simulada (mk_date 2024 3 1) st).
Proof.
  split; [|reflexivity].
  apply (tick_diario_ordinal (Mundo_inicial (mk_date 2024 2 28) []) 2).
  - reflexivity.
  - vm_compute. split; discriminate.
Defined.

Lemma tick_diario_ok st dias st' :
  date_ok (fecha_simulada st) = true -> tick_diario dias st = (Ok tt, st') ->
  st' = con_fecha_simulada (fecha_simulada st') st
  /\ date_ok (fecha_simulada st') = true
  /\ toordinal (fecha_simulada st') = toordinal (fecha_simulada st) + dias
  /\ 1 <= toordinal (fecha_simulada st) + dias <= MAXORDINAL.
Proof.
  intros Hok Ht. destruct (tick_diario_ordinal st dias Hok) as [H1 H2].
  destruct (decide (1 <= toordinal (fecha_simulada st) + dias <= MAXORDINAL))
    as [Ho|Ho].
  - destruct (H1 Ho) as (d & Hd & Hdok & Hto). rewrite Hd in Ht.
    injection Ht as <-. by destruct st.
  - rewrite (H2 Ho) in Ht. done.
Qed.

(** X2. Ticks of the clock add up: on a valid simulated date, a tick of [a]
    days followed by a tick of [b] days, when both succeed, leaves the
    state a single tick of [a + b] days leaves; in particular the tick of
    [- a] days undoes the tick of [a] days. *)
Theorem tick_diario_compone (st st1 st2 : Mundo) (a b : Z) :
  date_ok (fecha_simulada st) = true ->
  tick_diario a st = (Ok tt, st1) -> tick_diario b st1 = (Ok tt, st2) ->
  tick_diario (a + b) st = (Ok tt, st2)
  /\ tick_diario (- a) st1 = (Ok tt, st).
Proof.
  intros Hok Ha Hb.
  destruct (tick_diario_ok _ _ _ Hok Ha) as (E1 & Hok1 & Ho1 & Hr1).
  destruct (tick_diario_ok _ _ _ Hok1 Hb) as (E2 & Hok2 & Ho2 & Hr2).
  pose proof (toordinal_rango _ Hok) as Hr.
  split.
  - destruct (tick_diario_ordinal st (a + b) Hok) as [H _].
    destruct H as (d & Hd & Hdok & Hto); [lia|]. rewrite Hd. f_equal.
    rewrite E2, E1. simpl.
    assert (d = fecha_simulada st2) as ->; [|by destruct st].
    rewrite <- (fromordinal_toordinal d), <- (fromordinal_toordinal (fecha_simulada st2))
      by done.
    f_equal. lia.
  - destruct (tick_diario_ordinal st1 (- a) Hok1) as [H _].
    destruct H as (d & Hd & Hdok & Hto); [lia|]. rewrite Hd. f_equal.
    assert (d = fecha_simulada st) as ->.
    { rewrite <- (fromordinal_toordinal d), <- (fromordinal_toordinal (fecha_simulada st))
        by done.
      f_equal. lia. }
    rewrite E1. by destruct st.
Qed.

Lemma tick_diario_compone_witness :
  let st := Mundo_inicial (mk_date 2024 2 28) [] in
  let st1 := con_fecha_simulada (mk_date 2025 2 27) st in
  let st2 := con_fecha_simulada (mk_date 2025 3 1) st in
  tick_diario 367 st = (Ok tt, st2) /\ tick_diario (- 365) st1 = (Ok tt, st).
Proof.
  apply (tick_diario_compone (Mundo_inicial (mk_date 2024 2 28) [])
           (con_fecha_simulada (mk_date 2025 2 27) (Mundo_inicial (mk_date 2024 2 28) []))
           (con_fecha_simulada (mk_date 2025 3 1) (Mundo_inicial (mk_date 2024 2 28) []))
           365 2); reflexivity.
Defined.

(** X3. When the clock ticks forward nobody gets younger: after a
    successful tick of [dias >= 0] days on a valid simulated date, the new
    date is not before the old one (and is after it when [dias > 0]), and
    the age of every person at the new date is at least the age at the
    old one. *)
Theorem tick_diario_avanza (st st' : Mundo) (dias : Z) (p : Persona) :
  date_ok (fecha_simulada st) = true -> 0 <= dias ->
  tick_diario dias st = (Ok tt, st') ->
  date_leb (fecha_simulada st) (fecha_simulada st') = true
  /\ (0 < dias -> date_ltb (fecha_simulada st) (fecha_simulada st') = true)
  /\ edad p (Some (fecha_simulada st)) (fecha_hoy st)
     <= edad p (Some (fecha_simulada st')) (fecha_hoy st').
Proof.
  intros Hok Hd Ht.
  destruct (tick_diario_ok _ _ _ Hok Ht) as (E1 & Hok1 & Ho1 & Hr1).
  assert (Hle : date_leb (fecha_simulada st) (fecha_simulada st') = true)
    by (apply date_leb_ordinal; [done..|lia]).
  split; [done|]. split.
  - intros Hpos. apply date_ltb_ordinal; [done..|lia].
  - unfold edad. destruct (fecha_fallecimiento p); [done|].
    by apply anios_entre_mono.
Qed.

Lemma tick_diario_avanza_witness :
  let st := Mundo_inicial (mk_date 2024 2 28) [] in
  let st' := con_fecha_simulada (mk_date 2025 2 27) st in
  let p := Persona_nueva "1" "Ana" (mk_date 2000 2 27) "Femenino" "Cartago" in
  date_leb (fecha_simulada st) (fecha_simulada st') = true
  /\ (0 < 365 -> date_ltb (fecha_simulada st) (fecha_simulada st') = true)
  /\ edad p (Some (fecha_simulada st)) (fecha_hoy st)
     <= edad p (Some (fecha_simulada st')) (fecha_hoy st').
Proof.
  apply (tick_diario_avanza (Mundo_inicial (mk_date 2024 2 28) [])
           (con_fecha_simulada (mk_date 2025 2 27) (Mundo_inicial (mk_date 2024 2 28) []))
           365); [reflexivity|lia|reflexivity].
Defined.

(** *** What every operation keeps *)

Section Conserva.
Variable I : Mundo -> Prop.
Hypothesis HI : conservado I.

Lemma conserva_modificar r f : mutacion f -> estable I I (modificar r f).
Proof.
  intros Hf. apply estable_modificar; [apply incluye_refl|].
  intros st. by apply (c_mutacion I HI).
Qed.

Lemma conserva_evento r d f : estable I I (evento r d f).
Proof.
  apply estable_bind; [apply estable_leer|]. intros hoy.
  apply conserva_modificar. constructor.
Qed.

Ltac conserva_paso :=
  lazymatch goal with
  | |- estable _ _ (bind _ _) => apply estable_bind; [|intros ?]
  | |- estable _ _ (ret _) => apply estable_ret
  | |- estable _ _ (raise _) => apply estable_raise, incluye_refl
  | |- estable _ _ (lift _) => apply estable_lift, incluye_refl
  | |- estable _ _ (leer _) => apply estable_leer
  | |- estable _ _ (get_familia _) => apply estable_leer
  | |- estable _ _ (objeto _) => apply estable_objeto, incluye_refl
  | |- estable _ _ (evento _ _ _) => apply conserva_evento
  | |- estable _ _ (modificar _ _) => apply conserva_modificar; constructor
  | |- estable _ _ random_random => apply estable_random_random, (c_azar I HI)
  | |- estable _ _ (randint _ _) => apply estable_randint, (c_azar I HI)
  | |- estable _ _ (choice _ _) => apply estable_choice, (c_azar I HI)
  | |- estable _ _ (shuffle _) => apply estable_shuffle_desde, (c_azar I HI)
  | |- estable _ _ (crear_objeto _) =>
      apply estable_de_estado; [apply incluye_refl|intros ?; apply (c_objeto I HI)]
  | |- estable _ _ (agregar_persona _ _) => apply (c_agregar I HI)
  | |- estable _ _ (para_cada _ _) => apply estable_para_cada; intros ? _
  | |- estable _ _ (match ?x with _ => _ end) => destruct x
  end.

Lemma conserva_unir_pareja id_fam c1 c2 : estable I I (unir_pareja id_fam c1 c2).
Proof. unfold unir_pareja. repeat conserva_paso. Qed.

Lemma conserva_registrar_matrimonio id_fam c1 c2 :
  estable I I (registrar_matrimonio id_fam c1 c2).
Proof.
  unfold registrar_matrimonio.
  repeat first [apply conserva_unir_pareja | conserva_paso].
Qed.

Lemma conserva_registrar_padre_hijo id_fam c1 c2 :
  estable I I (registrar_padre_hijo id_fam c1 c2).
Proof. unfold registrar_padre_hijo. repeat conserva_paso. Qed.

Lemma conserva_registrar_nacimiento_de_pareja id_fam c1 c2 :
  estable I I (registrar_nacimiento_de_pareja id_fam c1 c2).
Proof. unfold registrar_nacimiento_de_pareja. repeat conserva_paso. Qed.

Lemma conserva_gestionar_viudez fam p : estable I I (gestionar_viudez fam p).
Proof. unfold gestionar_viudez. repeat conserva_paso. Qed.

Lemma conserva_reasignar_tutoria_menores fam :
  estable I I (reasignar_tutoria_menores fam).
Proof. unfold reasignar_tutoria_menores, tutoria_de. repeat conserva_paso. Qed.

Lemma conserva_fallecimientos fam : estable I I (fallecimientos fam).
Proof.
  unfold fallecimientos.
  repeat first [apply conserva_gestionar_viudez | conserva_paso].
Qed.

Lemma conserva_uniones id_fam fam : estable I I (uniones id_fam fam).
Proof.
  unfold uniones. repeat first [apply conserva_unir_pareja | conserva_paso].
Qed.

Lemma conserva_nacimientos id_fam fam : estable I I (nacimientos id_fam fam).
Proof.
  unfold nacimientos.
  repeat first [apply conserva_registrar_nacimiento_de_pareja | conserva_paso].
Qed.

Lemma conserva_resto_del_evento id_fam fam : estable I I (resto_del_evento id_fam fam).
Proof.
  unfold resto_del_evento.
  repeat first [apply conserva_fallecimientos | apply conserva_uniones
               | apply conserva_nacimientos
               | apply conserva_reasignar_tutoria_menores | conserva_paso].
Qed.

Hypothesis I_fecha : forall d st, I st -> I (con_fecha_simulada d st).

Lemma conserva_tick_diario dias : estable I I (tick_diario dias).
Proof.
  unfold tick_diario. repeat conserva_paso.
  apply estable_de_estado; [apply incluye_refl|]. intros st. apply I_fecha.
Qed.

Lemma conserva_evento_cada_10s id_fam : estable I I (evento_cada_10s id_fam).
Proof.
  unfold evento_cada_10s.
  repeat first [apply conserva_tick_diario | apply conserva_fallecimientos
               | apply conserva_uniones | apply conserva_nacimientos
               | apply conserva_reasignar_tutoria_menores | conserva_paso].
Qed.

Hypothesis I_familia : forall id_fam nom, estable I I (crear_familia id_fam nom).
Hypothesis I_ambiente : forall st az hoy,
  I st -> I (mk_Mundo (objetos st) (familias st) (fecha_simulada st) az hoy).

Lemma conserva_paso_de G st st' : paso G st st' -> I st -> I st'.
Proof.
  intros Hp Hst. destruct Hp.
  - by apply (c_objeto I HI).
  - by apply I_ambiente.
  - by apply estable_estado; [apply I_familia|].
  - by apply estable_estado; [apply (c_agregar I HI)|].
  - by apply estable_estado; [apply conserva_unir_pareja|].
  - by apply estable_estado; [apply conserva_registrar_matrimonio|].
  - by apply estable_estado; [apply conserva_registrar_padre_hijo|].
  - by apply estable_estado; [apply conserva_registrar_nacimiento_de_pareja|].
  - by apply estable_estado; [apply conserva_tick_diario|].
  - by apply estable_estado; [apply conserva_evento_cada_10s|].
Qed.

Lemma conserva_pasos G st st' : rtc (paso G) st st' -> I st -> I st'.
Proof.
  induction 1 as [|st st1 st2 Hp _ IH]; [done|].
  intros Hst. apply IH. by eapply conserva_paso_de.
Qed.
End Conserva.

Lemma conserva_sample2 I pop : sin_azar I -> estable I I (sample2 pop).
Proof.
  intros H. unfold sample2.
  apply estable_bind; [by apply estable_randbelow|]. intros j1.
  apply estable_bind; [by apply estable_randbelow|]. intros j2.
  apply estable_ret.
Qed.

(** A property that does not depend on the registry of families is kept
    by the registration of a person. *)
Lemma conserva_agregar_persona I :
  sin_azar I ->
  (forall r f st, mutacion f -> I st -> I (modificar r f st).2) ->
  (forall f st, I st -> I (con_familias f st)) ->
  forall id_fam r, estable I I (agregar_persona id_fam r).
Proof.
  intros Haz Hmut Hfam id_fam r. unfold agregar_persona.
  apply estable_bind; [apply estable_leer|]. intros [fam|];
    [|apply estable_raise, incluye_refl].
  apply estable_bind; [apply estable_objeto, incluye_refl|]. intros per.
  destruct (dict_in (cedula per) (miembros fam));
    [apply estable_raise, incluye_refl|].
  apply estable_bind.
  { destruct (Z.of_nat (size (afinidades per)) <? 2); [|apply estable_ret].
    apply estable_bind; [by apply conserva_sample2|]. intros muestra.
    apply estable_modificar; [apply incluye_refl|]. intros st.
    apply Hmut. constructor. }
  intros _. apply estable_bind.
  { unfold Familia_agregar_persona.
    apply estable_bind; [apply estable_objeto, incluye_refl|]. intros per'.
    apply estable_de_estado; [apply incluye_refl|]. intros st Hst.
    destruct (dict_get id_fam (familias st)); [|done]. by apply Hfam. }
  intros _. apply estable_bind; [apply estable_objeto, incluye_refl|]. intros per'.
  apply estable_bind; [apply estable_leer|]. intros hoy.
  apply estable_modificar; [apply incluye_refl|]. intros st.
  apply Hmut. constructor.
Qed.

Lemma conserva_crear_familia I id_fam nom :
  (forall f st, I st -> I (con_familias f st)) ->
  estable I I (crear_familia id_fam nom).
Proof.
  intros Hfam. apply estable_de_estado; [apply incluye_refl|]. intros st Hst.
  unfold crear_familia. destruct (dict_in id_fam (familias st)); [done|].
  by apply Hfam.
Qed.

(** *** Properties of one object *)

Lemma en_mutacion r P r' f st :
  perdura P -> mutacion f -> en r P st -> en r P (modificar r' f st).2.
Proof.
  intros HP Hf (q & Hq & HPq). unfold en. simpl.
  rewrite list_lookup_alter. case_decide; subst.
  - rewrite Hq. simpl. exists (f q). split; [done|]. by apply HP.
  - by exists q.
Qed.

Lemma en_conservado r P : perdura P -> conservado (en r P).
Proof.
  intros HP.
  assert (Haz : sin_azar (en r P)) by (by intros st az (q & Hq & HPq); exists q).
  assert (Hmut : forall r' f st, mutacion f -> en r P st -> en r P (modificar r' f st).2)
    by (intros; by apply en_mutacion).
  split; [done|done| |].
  - intros p st (q & Hq & HPq). exists q. split; [|done]. simpl.
    by apply lookup_app_l_Some.
  - apply conserva_agregar_persona; [done..|].
    intros f st (q & Hq & HPq). by exists q.
Qed.

(** What holds of an object and is kept by every modification holds of it
    after any number of steps. *)
Lemma pasos_perdura G st st' r P p :
  perdura P -> rtc (paso G) st st' -> objetos st !! r = Some p -> P p ->
  exists p', objetos st' !! r = Some p' /\ P p'.
Proof.
  intros HP Hp Hr HPp.
  apply (conserva_pasos (en r P) (en_conservado r P HP)) with (G := G) (st := st);
    [| | |done|by exists p].
  - intros d st0 (q & Hq & HPq). by exists q.
  - intros id_fam nom. apply conserva_crear_familia.
    intros f st0 (q & Hq & HPq). by exists q.
  - intros st0 az hoy (q & Hq & HPq). by exists q.
Qed.

Lemma marcar_fallecido_vivo fd h q :
  fecha_fallecimiento q = None ->
  marcar_fallecido fd h q
  = registrar_evento "Fallecimiento" None h
      (con_estado_civil
         (if bool_decide (parejas q = ∅) then estado_civil q else "Viudo(a)")
         (con_fecha_fallecimiento (Some (ref_o_hoy fd h)) q)).
Proof. unfold marcar_fallecido. by intros ->. Qed.

Lemma marcar_fallecido_muerto fd h q d :
  fecha_fallecimiento q = Some d -> marcar_fallecido fd h q = q.
Proof. unfold marcar_fallecido. by intros ->. Qed.

(** Case analysis on a modification, with [marcar_fallecido] on a living
    and on a deceased person. *)
Ltac por_mutacion Hf q :=
  destruct Hf as [| | | | | | | | | | |fd h];
  [..|destruct (fecha_fallecimiento q) eqn:?;
      [erewrite marcar_fallecido_muerto by eassumption
      |rewrite marcar_fallecido_vivo by assumption]];
  simpl.

(** X4. The identity of a person never changes: whatever the operations
    made on the registry, a person object keeps its identifier, name,
    birth date, gender and province. *)
Theorem identidad_permanente (G : Mundo -> nat -> Prop) (st st' : Mundo) (r : nat)
    (p : Persona) :
  rtc (paso G) st st' -> objetos st !! r = Some p ->
  exists p', objetos st' !! r = Some p'
             /\ cedula p' = cedula p /\ nombre p' = nombre p
             /\ fecha_nacimiento p' = fecha_nacimiento p
             /\ genero p' = genero p /\ provincia p' = provincia p.
Proof.
  intros Hp Hr.
  apply (pasos_perdura G st st' r
           (fun q => cedula q = cedula p /\ nombre q = nombre p
                     /\ fecha_nacimiento q = fecha_nacimiento p
                     /\ genero q = genero p /\ provincia q = provincia p) p);
    [|done..].
  intros f Hf q HPq. por_mutacion Hf q; done.
Qed.

Lemma paso_evento_unidos G : rtc (paso G) mundo_unidos mundo_viudez.
Proof. apply rtc_once, paso_evento_cada_10s. Qed.

Lemma identidad_permanente_witness :
  exists p, objetos mundo_unidos !! 0%nat = Some p
    /\ exists p', objetos mundo_viudez !! 0%nat = Some p'
         /\ cedula p' = cedula p /\ nombre p' = nombre p
         /\ fecha_nacimiento p' = fecha_nacimiento p
         /\ genero p' = genero p /\ provincia p' = provincia p.
Proof.
  eexists. split; [vm_compute; reflexivity|].
  apply (identidad_permanente persona_cualquiera mundo_unidos mundo_viudez 0).
  - apply paso_evento_unidos.
  - vm_compute. reflexivity.
Defined.

(** X5. Death is permanent: once a person object has a death date, no
    operation removes or changes it, so the person is never alive again. *)
Theorem fallecimiento_permanente (G : Mundo -> nat -> Prop) (st st' : Mundo) (r : nat)
    (p : Persona) (d : date) :
  rtc (paso G) st st' -> objetos st !! r = Some p ->
  fecha_fallecimiento p = Some d ->
  exists p', objetos st' !! r = Some p' /\ fecha_fallecimiento p' = Some d
             /\ vivo p' = false.
Proof.
  intros Hp Hr Hd.
  destruct (pasos_perdura G st st' r (fun q => fecha_fallecimiento q = Some d) p)
    as (p' & Hp' & Hd'); [|done..|].
  - intros f Hf q HPq. destruct Hf; try done.
    by erewrite marcar_fallecido_muerto.
  - exists p'. split; [done|]. split; [done|]. unfold vivo. by rewrite Hd'.
Qed.

Lemma fallecimiento_permanente_witness :
  exists p', objetos mundo_dia_despues !! 0%nat = Some p'
             /\ fecha_fallecimiento p' = Some (mk_date 2026 6 15)
             /\ vivo p' = false.
Proof.
  eapply (fallecimiento_permanente persona_cualquiera mundo_viudez mundo_dia_despues 0).
  - apply rtc_once, paso_tick_diario.
  - vm_compute. reflexivity.
  - reflexivity.
Defined.

(** X6. The history of a person is only appended to: after any operations
    the history a person had is a prefix of the one it has. *)
Theorem historial_solo_crece (G : Mundo -> nat -> Prop) (st st' : Mundo) (r : nat)
    (p : Persona) :
  rtc (paso G) st st' -> objetos st !! r = Some p ->
  exists p', objetos st' !! r = Some p' /\ historial p `prefix_of` historial p'.
Proof.
  intros Hp Hr.
  apply (pasos_perdura G st st' r (fun q => historial p `prefix_of` historial q) p);
    [|done..].
  intros f Hf q HPq. por_mutacion Hf q; try done; by apply prefix_app_r.
Qed.

Lemma historial_solo_crece_witness :
  exists p, objetos mundo_unidos !! 1%nat = Some p
    /\ exists p', objetos mundo_viudez !! 1%nat = Some p'
         /\ historial p `prefix_of` historial p'.
Proof.
  eexists. split; [vm_compute; reflexivity|].
  apply (historial_solo_crece persona_cualquiera mundo_unidos mundo_viudez 1).
  - apply paso_evento_unidos.
  - vm_compute. reflexivity.
Defined.

(** X7. Kinship links and affinities are never removed: after any
    operations the parent set, the child set and the affinity set of a
    person contain what they contained. *)
Theorem vinculos_solo_crecen (G : Mundo -> nat -> Prop) (st st' : Mundo) (r : nat)
    (p : Persona) :
  rtc (paso G) st st' -> objetos st !! r = Some p ->
  exists p', objetos st' !! r = Some p'
             /\ padres p ⊆ padres p' /\ hijos p ⊆ hijos p'
             /\ afinidades p ⊆ afinidades p'.
Proof.
  intros Hp Hr.
  apply (pasos_perdura G st st' r
           (fun q => padres p ⊆ padres q /\ hijos p ⊆ hijos q
                     /\ afinidades p ⊆ afinidades q) p); [|done..].
  intros f Hf q (H1 & H2 & H3).
  por_mutacion Hf q; unfold agregar_a; repeat split; try done; set_solver.
Qed.

Lemma vinculos_solo_crecen_witness :
  exists p, objetos mundo_unidos !! 0%nat = Some p
    /\ exists p', objetos mundo_viudez !! 0%nat = Some p'
         /\ padres p ⊆ padres p' /\ hijos p ⊆ hijos p'
         /\ afinidades p ⊆ afinidades p'.
Proof.
  eexists. split; [vm_compute; reflexivity|].
  apply (vinculos_solo_crecen persona_cualquiera mundo_unidos mundo_viudez 0).
  - apply paso_evento_unidos.
  - vm_compute. reflexivity.
Defined.

(** X8. Emotional health never goes up and never below zero: after any
    operations, the emotional health of a person that had a non-negative
    one is between 0 and what it was. *)
Theorem salud_emocional_no_sube (G : Mundo -> nat -> Prop) (st st' : Mundo) (r : nat)
    (p : Persona) :
  rtc (paso G) st st' -> objetos st !! r = Some p -> 0 <= salud_emocional p ->
  exists p', objetos st' !! r = Some p'
             /\ 0 <= salud_emocional p' <= salud_emocional p.
Proof.
  intros Hp Hr H0.
  apply (pasos_perdura G st st' r
           (fun q => 0 <= salud_emocional q <= salud_emocional p) p);
    [|done|done|lia].
  intros f Hf q HPq. por_mutacion Hf q; lia.
Qed.

Lemma salud_emocional_no_sube_witness :
  exists p, objetos mundo_unidos !! 1%nat = Some p
    /\ exists p', objetos mundo_viudez !! 1%nat = Some p'
         /\ 0 <= salud_emocional p' <= salud_emocional p.
Proof.
  eexists. split; [vm_compute; reflexivity|].
  apply (salud_emocional_no_sube persona_cualquiera mundo_unidos mundo_viudez 1).
  - apply paso_evento_unidos.
  - vm_compute. reflexivity.
  - vm_compute. discriminate.
Defined.

(** X9. The marital status only moves to a union, a marriage or
    widowhood: after any operations the status of a person is one of
    "Unión libre", "Casado(a)", "Viudo(a)" or the one it had; a person
    that is not single is never single again. *)
Theorem estado_civil_transiciones (G : Mundo -> nat -> Prop) (st st' : Mundo) (r : nat)
    (p : Persona) :
  rtc (paso G) st st' -> objetos st !! r = Some p ->
  exists p', objetos st' !! r = Some p'
             /\ (estado_civil p' = estado_civil p
                 \/ estado_civil p' ∈ ["Unión libre"; "Casado(a)"; "Viudo(a)"])
             /\ (estado_civil p ≠ "Soltero(a)" -> estado_civil p' ≠ "Soltero(a)").
Proof.
  intros Hp Hr.
  apply (pasos_perdura G st st' r
           (fun q => (estado_civil q = estado_civil p
                      \/ estado_civil q ∈ ["Unión libre"; "Casado(a)"; "Viudo(a)"])
                     /\ (estado_civil p ≠ "Soltero(a)" -> estado_civil q ≠ "Soltero(a)")) p);
    [|done|done|by split; [left|]].
  intros f Hf q [H1 H2].
  por_mutacion Hf q; try done;
    try (split; [right; set_solver|done]).
  case_bool_decide; [done|]. split; [right; set_solver|done].
Qed.

Lemma estado_civil_transiciones_witness :
  exists p, objetos mundo_unidos !! 1%nat = Some p
    /\ exists p', objetos mundo_viudez !! 1%nat = Some p'
         /\ (estado_civil p' = estado_civil p
             \/ estado_civil p' ∈ ["Unión libre"; "Casado(a)"; "Viudo(a)"])
         /\ (estado_civil p ≠ "Soltero(a)" -> estado_civil p' ≠ "Soltero(a)").
Proof.
  eexists. split; [vm_compute; reflexivity|].
  apply (estado_civil_transiciones persona_cualquiera mundo_unidos mundo_viudez 1).
  - apply paso_evento_unidos.
  - vm_compute. reflexivity.
Defined.

(** *** The clock *)

Lemma reloj_en_conservado d : conservado (reloj_en d).
Proof.
  assert (Haz : sin_azar (reloj_en d)) by (by intros st az H).
  split; [done|by intros r f st _ H|by intros p st H|].
  apply conserva_agregar_persona; [done|by intros r f st _ H|by intros f st H].
Qed.

(** X10. Only the clock moves the simulated date: creating a family,
    registering a person, a union, a marriage, a parent link and a birth
    leave it as it was, also when they raise. *)
Theorem reloj_quieto (st : Mundo) (id_fam nom c1 c2 : string) (r : nat) :
  fecha_simulada (crear_familia id_fam nom st).2 = fecha_simulada st
  /\ fecha_simulada (agregar_persona id_fam r st).2 = fecha_simulada st
  /\ fecha_simulada (unir_pareja id_fam c1 c2 st).2 = fecha_simulada st
  /\ fecha_simulada (registrar_matrimonio id_fam c1 c2 st).2 = fecha_simulada st
  /\ fecha_simulada (registrar_padre_hijo id_fam c1 c2 st).2 = fecha_simulada st
  /\ fecha_simulada (registrar_nacimiento_de_pareja id_fam c1 c2 st).2
     = fecha_simulada st.
Proof.
  pose proof (reloj_en_conservado (fecha_simulada st)) as HI.
  assert (H0 : reloj_en (fecha_simulada st) st) by done.
  repeat split.
  - by apply (estable_estado (reloj_en (fecha_simulada st)));
      [apply conserva_crear_familia|].
  - by apply (estable_estado (reloj_en (fecha_simulada st)));
      [apply (c_agregar _ HI)|].
  - by apply (estable_estado (reloj_en (fecha_simulada st)));
      [apply conserva_unir_pareja|].
  - by apply (estable_estado (reloj_en (fecha_simulada st)));
      [apply conserva_registrar_matrimonio|].
  - by apply (estable_estado (reloj_en (fecha_simulada st)));
      [apply conserva_registrar_padre_hijo|].
  - by apply (estable_estado (reloj_en (fecha_simulada st)));
      [apply conserva_registrar_nacimiento_de_pareja|].
Qed.

Lemma evento_cada_10s_eq id_fam fam st :
  dict_get id_fam (familias st) = Some fam ->
  evento_cada_10s id_fam st
  = (let* _ := tick_diario 365 in resto_del_evento id_fam fam) st.
Proof.
  intros Hf. unfold evento_cada_10s, get_familia.
  unfold bind at 1. unfold leer at 1. by rewrite Hf.
Qed.

(** X11. Every event of the clock is a tick of exactly 365 days (not a
    calendar year): for a registered family and a valid simulated date,
    after [evento_cada_10s] the simulated date is the valid date 365 days
    later, whatever happened in the event and also when a later step of
    it raised; when that day is after 9999-12-31 the event raises
    [OverflowError] and changes nothing; for an unknown family it does
    nothing. *)
Theorem evento_cada_10s_reloj (st : Mundo) (id_fam : string) :
  date_ok (fecha_simulada st) = true ->
  (dict_get id_fam (familias st) = None -> evento_cada_10s id_fam st = (Ok tt, st))
  /\ (is_Some (dict_get id_fam (familias st)) ->
      toordinal (fecha_simulada st) + 365 <= MAXORDINAL ->
      date_ok (fecha_simulada (evento_cada_10s id_fam st).2) = true
      /\ toordinal (fecha_simulada (evento_cada_10s id_fam st).2)
         = toordinal (fecha_simulada st) + 365)
  /\ (is_Some (dict_get id_fam (familias st)) ->
      MAXORDINAL < toordinal (fecha_simulada st) + 365 ->
      evento_cada_10s id_fam st = (Raise OverflowError, st)).
Proof.
  intros Hok. pose proof (toordinal_rango _ Hok) as Hr.
  destruct (tick_diario_ordinal st 365 Hok) as [Hin Hout].
  split; [|split].
  - intros Hf. unfold evento_cada_10s, get_familia, bind, leer. by rewrite Hf.
  - intros [fam Hf] Hle. rewrite (evento_cada_10s_eq _ _ _ Hf).
    destruct Hin as (d & Hd & Hdok & Hto); [lia|].
    rewrite (bind_ok _ _ _ _ _ Hd).
    assert (Hfs : fecha_simulada (resto_del_evento id_fam fam
                                    (con_fecha_simulada d st)).2 = d).
    { apply (estable_estado (reloj_en d)); [|done].
      apply conserva_resto_del_evento, reloj_en_conservado. }
    by rewrite Hfs.
  - intros [fam Hf] Hgt. rewrite (evento_cada_10s_eq _ _ _ Hf).
    rewrite (bind_raise _ _ _ OverflowError st); [done|]. apply Hout. lia.
Qed.

Lemma evento_cada_10s_reloj_witness :
  date_ok (fecha_simulada (evento_cada_10s "F1" mundo_unidos).2) = true
  /\ toordinal (fecha_simulada (evento_cada_10s "F1" mundo_unidos).2)
     = toordinal (fecha_simulada mundo_unidos) + 365.
Proof.
  apply (evento_cada_10s_reloj mundo_unidos "F1").
  - reflexivity.
  - eexists. vm_compute. reflexivity.
  - vm_compute. discriminate.
Defined.

(** *** The registry *)

Lemma dict_set_nuevo {V} (d : dict V) k v :
  dict_get k d = None -> dict_set k v d = (d ++ [(k, v)])%list.
Proof.
  induction d as [|[k' v'] d IH]; simpl; [done|].
  case_bool_decide; [done|]. intros Hn. by rewrite IH.
Qed.

Lemma dict_get_app {V} (d d' : dict V) k v :
  dict_get k d = Some v -> dict_get k (d ++ d')%list = Some v.
Proof.
  induction d as [|[k' v'] d IH]; simpl; [done|]. by case_bool_decide.
Qed.

Lemma familia_extiende_refl fam : familia_extiende fam fam.
Proof. done. Qed.

Lemma registro_de_agregar id0 fam0 id_fam r :
  estable (registro_de id0 fam0) (registro_de id0 fam0) (agregar_persona id_fam r).
Proof.
  apply estable_de_estado; [apply incluye_refl|]. intros st (fam' & Hf' & Hext).
  destruct (dict_get id_fam (familias st)) as [fam|] eqn:Hfam.
  2:{ rewrite agregar_persona_sin_familia by done. by exists fam'. }
  destruct (objetos st !! r) as [per|] eqn:Hper.
  2:{ unfold agregar_persona, get_familia, bind, leer, objeto. rewrite Hfam, Hper.
      by exists fam'. }
  destruct (dict_in (cedula per) (miembros fam)) eqn:Hin.
  { rewrite (agregar_persona_duplicada st id_fam r fam per) by done. by exists fam'. }
  destruct (agregar_persona_exito st id_fam r fam per) as (extra & az & _ & ->);
    [done..|].
  unfold registro_de. simpl.
  destruct (decide (id_fam = id0)) as [->|Hne].
  - rewrite dict_get_set_eq. eexists. split; [done|].
    rewrite Hf' in Hfam. injection Hfam as ->.
    destruct Hext as (H1 & H2 & H3). split; [done|]. split; [done|]. simpl.
    rewrite dict_set_nuevo by (by apply dict_in_false).
    by apply prefix_app_r.
  - rewrite dict_get_set_ne by done. by exists fam'.
Qed.

Lemma registro_de_conservado id0 fam0 : conservado (registro_de id0 fam0).
Proof.
  split.
  - intros st az (fam' & Hf & He). by exists fam'.
  - intros r f st _ (fam' & Hf & He). by exists fam'.
  - intros p st (fam' & Hf & He). by exists fam'.
  - apply registro_de_agregar.
Qed.

Lemma registro_de_crear_familia id0 fam0 id_fam nom :
  estable (registro_de id0 fam0) (registro_de id0 fam0) (crear_familia id_fam nom).
Proof.
  apply estable_de_estado; [apply incluye_refl|]. intros st (fam' & Hf' & Hext).
  unfold crear_familia. destruct (dict_in id_fam (familias st)) eqn:Hin;
    [by exists fam'|].
  exists fam'. split; [|done]. simpl. rewrite dict_get_set_ne; [done|].
  intros ->. apply dict_in_false in Hin. congruence.
Qed.

(** X12. Registration is permanent: after any operations a family that was
    registered is registered under the same identifier with the same name,
    its members are the ones it had, in the same order, followed by the
    ones added since, and every identifier gives the person object it
    gave. *)
Theorem registro_permanente (G : Mundo -> nat -> Prop) (st st' : Mundo)
    (id_fam : string) (fam : Familia) :
  rtc (paso G) st st' -> dict_get id_fam (familias st) = Some fam ->
  exists fam', dict_get id_fam (familias st') = Some fam'
               /\ id_familia fam' = id_familia fam
               /\ nombre_familia fam' = nombre_familia fam
               /\ todas_personas fam `prefix_of` todas_personas fam'
               /\ forall k r, obtener fam k = Some r -> obtener fam' k = Some r.
Proof.
  intros Hp Hf.
  destruct (conserva_pasos (registro_de id_fam fam) (registro_de_conservado id_fam fam))
    with (G := G) (st := st) (st' := st') as (fam' & Hf' & H1 & H2 & [m Hm]);
    [done| |done|done|by exists fam|].
  { intros id nom. apply registro_de_crear_familia. }
  exists fam'. split; [done|]. split; [done|]. split; [done|]. split.
  - unfold todas_personas, dict_values. rewrite Hm, fmap_app. by apply prefix_app_r.
  - intros k r Hk. unfold obtener in *. rewrite Hm. by apply dict_get_app.
Qed.

Lemma registro_permanente_witness :
  exists fam, dict_get "F1" (familias mundo_unidos) = Some fam
    /\ exists fam', dict_get "F1" (familias mundo_viudez) = Some fam'
         /\ id_familia fam' = id_familia fam
         /\ nombre_familia fam' = nombre_familia fam
         /\ todas_personas fam `prefix_of` todas_personas fam'
         /\ forall k r, obtener fam k = Some r -> obtener fam' k = Some r.
Proof.
  eexists. split; [vm_compute; reflexivity|].
  apply (registro_permanente persona_cualquiera mundo_unidos mundo_viudez "F1").
  - apply paso_evento_unidos.
  - vm_compute. reflexivity.
Defined.

(** *** Relations between two members *)

Lemma comparten_padre_sim p q : comparten_padre p q = comparten_padre q p.
Proof.
  unfold comparten_padre. rewrite (comm_L (∩) (padres p) (padres q)).
  by destruct (bool_decide (padres p = ∅)), (bool_decide (padres q = ∅)).
Qed.

Lemma existsb_existsb {A B} (f : A -> B -> bool) (l : list A) (l' : list B) :
  existsb (fun a => existsb (fun b => f a b) l') l
  = existsb (fun b => existsb (fun a => f a b) l) l'.
Proof.
  apply eq_true_iff_eq. rewrite !existsb_exists. split.
  - intros (a & Ha & (b & Hb & H)%existsb_exists). exists b. split; [done|].
    apply existsb_exists. by exists a.
  - intros (b & Hb & (a & Ha & H)%existsb_exists). exists a. split; [done|].
    apply existsb_exists. by exists b.
Qed.

Lemma existsb_igual {A} (f g : A -> bool) (l : list A) :
  (forall x, f x = g x) -> existsb f l = existsb g l.
Proof. intros H. induction l as [|x l IH]; simpl; [done|]. by rewrite H, IH. Qed.

Lemma padres_hermanos_sim (la lb : list (option Persona)) :
  existsb (fun pa => existsb (fun pb => match pa, pb with
                                        | Some pa, Some pb => comparten_padre pa pb
                                        | _, _ => false
                                        end) lb) la
  = existsb (fun pb => existsb (fun pa => match pb, pa with
                                          | Some pb, Some pa => comparten_padre pb pa
                                          | _, _ => false
                                          end) la) lb.
Proof.
  rewrite existsb_existsb. apply existsb_igual. intros pb.
  apply existsb_igual. intros pa. destruct pa, pb; try done.
  apply comparten_padre_sim.
Qed.

(** X13. [relacion_entre] read from the other side gives the inverse
    relation: when the two members are partners of each other or of
    neither, and are not each a child of the other, [relacion_entre] of
    (b, a) is the one of (a, b) with "Padre/Madre de B" and "Hijo(a) de B"
    exchanged; an identifier that is not a member gives "No encontrado"
    on both sides. *)
Theorem relacion_entre_inversa (m : dict Persona) (ced_a ced_b : string) :
  (forall a b, dict_get ced_a m = Some a -> dict_get ced_b m = Some b ->
     (cedula b ∈ parejas a <-> cedula a ∈ parejas b)
     /\ ~ (cedula b ∈ hijos a /\ cedula a ∈ hijos b)) ->
  relacion_entre m ced_b ced_a = inversa (relacion_entre m ced_a ced_b).
Proof.
  intros H. unfold relacion_entre.
  destruct (dict_get ced_a m) as [a|], (dict_get ced_b m) as [b|]; try done.
  destruct (H a b eq_refl eq_refl) as [Hpar Hhij]. cbv zeta.
  rewrite (comparten_padre_sim b a), (padres_hermanos_sim _ (map _ (elements (padres a)))).
  unfold inversa.
  repeat case_bool_decide; try done; try tauto;
    repeat case_match; try done.
Qed.

Lemma relacion_entre_inversa_witness :
  relacion_entre tres_generaciones "1" "3" = "Padre/Madre de B"
  /\ relacion_entre tres_generaciones "3" "1"
     = inversa (relacion_entre tres_generaciones "1" "3").
Proof.
  split; [vm_compute; reflexivity|].
  apply (relacion_entre_inversa tres_generaciones "1" "3").
  intros a b Ha Hb. vm_compute in Ha, Hb.
  injection Ha as <-. injection Hb as <-.
  apply (bool_decide_unpack _). vm_compute. exact I.
Defined.

(** *** The family as the queries read it *)

Lemma vista_get_Some o fam c r p :
  completa o fam -> obtener fam c = Some r -> o !! r = Some p ->
  dict_get c (vista o fam) = Some p.
Proof.
  unfold completa, obtener, todas_personas, vista, dict_values.
  destruct fam as [idf nom m]. simpl.
  induction m as [|[k r'] m IH]; simpl; intros Hc Hr Hp; [done|].
  destruct (Hc r') as [p' Hp']; [left|]. rewrite Hp'. simpl.
  case_bool_decide.
  - by simplify_eq.
  - apply IH; [|done..]. intros r0 Hr0. apply Hc. by right.
Qed.

Lemma vista_get_None o fam c :
  obtener fam c = None -> dict_get c (vista o fam) = None.
Proof.
  unfold obtener, vista. destruct fam as [idf nom m]. simpl.
  induction m as [|[k r'] m IH]; simpl; [done|].
  case_bool_decide; [done|]. intros Hr.
  destruct (o !! r'); simpl; [|by apply IH].
  rewrite bool_decide_eq_false_2 by done. by apply IH.
Qed.

Lemma vista_get_inv o fam c p :
  completa o fam -> dict_get c (vista o fam) = Some p ->
  exists r, obtener fam c = Some r /\ o !! r = Some p.
Proof.
  intros Hc Hg. destruct (obtener fam c) as [r|] eqn:Hr.
  - destruct (Hc r) as [p' Hp']; [by eapply dict_get_values|].
    rewrite (vista_get_Some o fam c r p') in Hg by done. exists r. by simplify_eq.
  - by rewrite vista_get_None in Hg.
Qed.

Lemma completa_alter o fam f r : completa o fam -> completa (alter f r o) fam.
Proof.
  intros Hc r' Hr'. destruct (Hc r' Hr') as [p Hp].
  rewrite list_lookup_alter. case_decide; subst; rewrite Hp; by eexists.
Qed.

(** *** Parent and child links *)

Lemma registrar_padre_hijo_exec st id_fam fam cp ch padre hijo pp ph :
  dict_get id_fam (familias st) = Some fam ->
  obtener fam cp = Some padre -> obtener fam ch = Some hijo ->
  objetos st !! padre = Some pp -> objetos st !! hijo = Some ph ->
  registrar_padre_hijo id_fam cp ch st
  = (Ok true, con_objetos (objetos_enlazados padre hijo pp ph (objetos st)) st).
Proof.
  intros Hf Hp Hh Hpp Hph. unfold registrar_padre_hijo, get_familia.
  rewrite (bind_ok _ _ st (Some fam) st) by (unfold leer; by rewrite Hf).
  rewrite Hp, Hh.
  rewrite (bind_ok _ _ st pp st) by (by apply objeto_ok).
  corre.
  destruct (decide (padre = hijo)) as [->|Hne].
  - lee Hph. corre. done.
  - lee Hph. corre. done.
Qed.

Lemma agregar_a_idemp c s : agregar_a c (agregar_a c s) = agregar_a c s.
Proof. unfold agregar_a. set_solver. Qed.

Lemma objetos_enlazados_lookup padre hijo pp ph o r :
  objetos_enlazados padre hijo pp ph o !! r
  = (fun p => if decide (padre = r)
              then con_hijos (agregar_a (cedula ph) (hijos p)) p else p)
    <$> ((fun p => if decide (hijo = r)
                   then con_padres (agregar_a (cedula pp) (padres p)) p else p)
         <$> o !! r).
Proof.
  unfold objetos_enlazados. rewrite !lookup_alter_si.
  destruct (o !! r) as [p|]; simpl; [|done].
  by destruct (decide (padre = r)), (decide (hijo = r)).
Qed.

Lemma objetos_enlazados_idemp padre hijo pp ph pp' ph' o :
  cedula pp' = cedula pp -> cedula ph' = cedula ph ->
  objetos_enlazados padre hijo pp' ph' (objetos_enlazados padre hijo pp ph o)
  = objetos_enlazados padre hijo pp ph o.
Proof.
  intros Hp Hh. apply list_eq. intros r.
  rewrite objetos_enlazados_lookup, objetos_enlazados_lookup, Hp, Hh.
  destruct (o !! r) as [p|]; simpl; [|done]. f_equal.
  destruct (decide (padre = r)), (decide (hijo = r)); destruct p;
    unfold con_hijos, con_padres; simpl; by rewrite ?agregar_a_idemp.
Qed.

(** X14. [registrar_padre_hijo] never raises and never refuses a link
    between two members: it answers [False], changing nothing, exactly
    when the family or one of the two identifiers is unknown; otherwise
    it answers [True], the identifier of the parent is added to the
    parents of the child and the identifier of the child to the children
    of the parent, nothing else changes, and doing it again changes
    nothing more. *)
Theorem registrar_padre_hijo_efecto (st : Mundo) (id_fam cp ch : string) :
  (dict_get id_fam (familias st) = None ->
     registrar_padre_hijo id_fam cp ch st = (Ok false, st))
  /\ (forall fam, dict_get id_fam (familias st) = Some fam ->
        obtener fam cp = None \/ obtener fam ch = None ->
        registrar_padre_hijo id_fam cp ch st = (Ok false, st))
  /\ (forall fam padre hijo pp ph,
        dict_get id_fam (familias st) = Some fam ->
        obtener fam cp = Some padre -> obtener fam ch = Some hijo ->
        objetos st !! padre = Some pp -> objetos st !! hijo = Some ph ->
        exists st',
          registrar_padre_hijo id_fam cp ch st = (Ok true, st')
          /\ registrar_padre_hijo id_fam cp ch st' = (Ok true, st')
          /\ st' = con_objetos (objetos st') st
          /\ (forall r, r ≠ padre -> r ≠ hijo -> objetos st' !! r = objetos st !! r)
          /\ exists pp' ph',
               objetos st' !! padre = Some pp' /\ objetos st' !! hijo = Some ph'
               /\ hijos pp' = hijos pp ∪ {[cedula ph]}
               /\ padres ph' = padres ph ∪ {[cedula pp]}
               /\ (padre ≠ hijo -> pp' = con_hijos (hijos pp') pp
                                   /\ ph' = con_padres (padres ph') ph)).
Proof.
  split; [|split].
  - intros Hf. unfold registrar_padre_hijo, get_familia, bind, leer. by rewrite Hf.
  - intros fam Hf H. unfold registrar_padre_hijo, get_familia, bind, leer. rewrite Hf.
    destruct H as [-> | ->]; [done|]. by destruct (obtener fam cp).
  - intros fam padre hijo pp ph Hf Hp Hh Hpp Hph.
    rewrite (registrar_padre_hijo_exec st id_fam fam cp ch padre hijo pp ph) by done.
    eexists. split; [done|].
    assert (Hpp' := objetos_enlazados_lookup padre hijo pp ph (objetos st) padre).
    assert (Hph' := objetos_enlazados_lookup padre hijo pp ph (objetos st) hijo).
    rewrite Hpp in Hpp'. rewrite Hph in Hph'. simpl in Hpp', Hph'.
    rewrite (decide_True (P := padre = padre)) in Hpp' by done.
    rewrite (decide_True (P := hijo = hijo)) in Hph' by done.
    split; [|split; [done|split]].
    + rewrite (registrar_padre_hijo_exec
                 (con_objetos (objetos_enlazados padre hijo pp ph (objetos st)) st)
                 id_fam fam cp ch padre hijo _ _ Hf Hp Hh Hpp' Hph').
      simpl. rewrite objetos_enlazados_idemp; [done| |].
      * by destruct (decide (hijo = padre)).
      * by destruct (decide (padre = hijo)).
    + intros r Hr1 Hr2. simpl. rewrite objetos_enlazados_lookup.
      destruct (objetos st !! r) as [q|]; simpl; [|done].
      by rewrite (decide_False (P := padre = r)), (decide_False (P := hijo = r)).
    + eexists _, _. simpl. split; [exact Hpp'|]. split; [exact Hph'|].
      unfold agregar_a.
      split; [by destruct (decide (hijo = padre))|].
      split; [by destruct (decide (padre = hijo))|].
      intros Hne. rewrite (decide_False (P := hijo = padre)) by done.
      rewrite (decide_False (P := padre = hijo)) by done.
      by destruct pp, ph.
Qed.

Lemma registrar_padre_hijo_efecto_witness :
  let st' := (registrar_padre_hijo "F1" "101" "102" mundo_unidos).2 in
  registrar_padre_hijo "F1" "101" "102" mundo_unidos = (Ok true, st')
  /\ registrar_padre_hijo "F1" "101" "102" st' = (Ok true, st').
Proof.
  destruct (proj2 (proj2 (registrar_padre_hijo_efecto mundo_unidos "F1" "101" "102"))
              (mk_Familia "F1" "Mora" [("101", 0%nat); ("102", 1%nat)]) 0%nat 1%nat
              (default ana (objetos mundo_unidos !! 0%nat))
              (default luis (objetos mundo_unidos !! 1%nat)))
    as (st' & H1 & H2 & _); [vm_compute; reflexivity..|].
  cbv zeta. rewrite H1. simpl. split; [reflexivity|exact H2].
Defined.

Lemma enlace_enlazados o fam padre hijo pp ph c c' :
  completa o fam ->
  enlace (vista o fam) c c' ->
  enlace (vista (objetos_enlazados padre hijo pp ph o) fam) c c'.
Proof.
  intros Hc (p & Hp & Hc').
  destruct (vista_get_inv o fam c p Hc Hp) as (r & Hr & Hor).
  pose proof (objetos_enlazados_lookup padre hijo pp ph o r) as Hl.
  rewrite Hor in Hl. simpl in Hl.
  eexists. split.
  - eapply vista_get_Some; [by repeat apply completa_alter|done|exact Hl].
  - destruct (decide (padre = r)), (decide (hijo = r)); simpl; unfold agregar_a;
      set_solver.
Qed.

(** X15. [registrar_padre_hijo] does not look for cycles: when the new
    parent is the child itself or one of its descendants (the child being
    registered under its own identifier), the link is made all the same,
    and from then on [descendientes_vivos] of the parent, and of every
    member it descended from, does not terminate. *)
Theorem registrar_padre_hijo_ciclo (st : Mundo) (id_fam cp ch : string)
    (fam : Familia) (padre hijo : nat) (pp ph : Persona) :
  dict_get id_fam (familias st) = Some fam ->
  completa (objetos st) fam ->
  obtener fam cp = Some padre -> obtener fam ch = Some hijo ->
  objetos st !! padre = Some pp -> objetos st !! hijo = Some ph ->
  cedula ph = ch ->
  rtc (enlace (vista (objetos st) fam)) ch cp ->
  exists st',
    registrar_padre_hijo id_fam cp ch st = (Ok true, st')
    /\ forall x fuel,
         rtc (enlace (vista (objetos st) fam)) x cp ->
         descendientes_vivos fuel (vista (objetos st') fam) x = None.
Proof.
  intros Hf Hc Hp Hh Hpp Hph Hced Hdesc.
  rewrite (registrar_padre_hijo_exec st id_fam fam cp ch padre hijo pp ph) by done.
  eexists. split; [done|]. simpl.
  set (o' := objetos_enlazados padre hijo pp ph (objetos st)).
  set (m' := vista o' fam).
  assert (Hsub : forall c c', rtc (enlace (vista (objetos st) fam)) c c' ->
                             rtc (enlace m') c c').
  { intros c c' H. induction H as [|c c1 c2 H1 _ IH]; [done|].
    eapply rtc_l; [|exact IH]. by apply enlace_enlazados. }
  assert (Hnew : enlace m' cp ch).
  { pose proof (objetos_enlazados_lookup padre hijo pp ph (objetos st) padre) as Hl.
    rewrite Hpp in Hl. simpl in Hl. rewrite (decide_True (P := padre = padre)) in Hl by done.
    eexists. split.
    - eapply vista_get_Some; [by repeat apply completa_alter|done|exact Hl].
    - simpl. unfold agregar_a. set_solver. }
  assert (Hciclo : tc (enlace m') cp cp).
  { eapply tc_rtc_r; [by apply tc_once|]. by apply Hsub. }
  intros x fuel Hx. apply Hsub in Hx.
  unfold descendientes_vivos.
  destruct (rtc_inv _ _ Hx) as [->|(c1 & (px & Hpx & Hc1) & Hrest)].
  - destruct Hnew as (pp' & Hpp' & Hch). rewrite Hpp'.
    apply bucle_no_termina. exists ch. split; [by apply elem_of_elements|].
    exists cp. split; [by apply Hsub|done].
  - rewrite Hpx. apply bucle_no_termina. exists c1.
    split; [by apply elem_of_elements|]. by exists cp.
Qed.

Lemma completa_calculada o fam :
  forallb (fun r => bool_decide (is_Some (o !! r))) (todas_personas fam) = true ->
  completa o fam.
Proof.
  intros H r Hr. rewrite forallb_forall in H.
  eapply bool_decide_eq_true_1, H. by apply list_elem_of_In.
Qed.

Lemma registrar_padre_hijo_ciclo_witness :
  let fam := mk_Familia "F1" "Mora" [("101", 0%nat); ("102", 1%nat)] in
  exists st',
    registrar_padre_hijo "F1" "101" "101" mundo_unidos = (Ok true, st')
    /\ forall x fuel,
         rtc (enlace (vista (objetos mundo_unidos) fam)) x "101" ->
         descendientes_vivos fuel (vista (objetos st') fam) x = None.
Proof.
  apply (registrar_padre_hijo_ciclo mundo_unidos "F1" "101" "101"
           (mk_Familia "F1" "Mora" [("101", 0%nat); ("102", 1%nat)]) 0%nat 0%nat
           (default ana (objetos mundo_unidos !! 0%nat))
           (default ana (objetos mundo_unidos !! 0%nat))).
  - vm_compute. reflexivity.
  - apply completa_calculada. vm_compute. reflexivity.
  - reflexivity.
  - reflexivity.
  - vm_compute. reflexivity.
  - vm_compute. reflexivity.
  - reflexivity.
  - apply rtc_refl.
Defined.

(** X16. The queries see the links the operations make: after
    [registrar_padre_hijo] of two members that are not partners,
    [relacion_entre] of parent and child is "Padre/Madre de B", and of
    child and parent "Hijo(a) de B" when they are two persons, the child
    has not the parent as a partner and the parent was not already a
    child of the child; after a successful [unir_pareja],
    [relacion_entre] is "Pareja" on both sides. *)
Theorem relacion_entre_tras_operacion (st : Mundo) (id_fam c1 c2 : string)
    (fam : Familia) (a b : nat) (pa pb : Persona) :
  dict_get id_fam (familias st) = Some fam ->
  completa (objetos st) fam ->
  obtener fam c1 = Some a -> obtener fam c2 = Some b ->
  objetos st !! a = Some pa -> objetos st !! b = Some pb ->
  (forall st', registrar_padre_hijo id_fam c1 c2 st = (Ok true, st') ->
     (cedula pb ∉ parejas pa ->
        relacion_entre (vista (objetos st') fam) c1 c2 = "Padre/Madre de B")
     /\ (a ≠ b -> cedula pa ∉ parejas pb -> cedula pa ∉ hijos pb ->
         relacion_entre (vista (objetos st') fam) c2 c1 = "Hijo(a) de B"))
  /\ (forall st', unir_pareja id_fam c1 c2 st = (Ok true, st') ->
        relacion_entre (vista (objetos st') fam) c1 c2 = "Pareja"
        /\ relacion_entre (vista (objetos st') fam) c2 c1 = "Pareja").
Proof.
  intros Hf Hc Ha Hb Hpa Hpb. split.
  - intros st'.
    rewrite (registrar_padre_hijo_exec st id_fam fam c1 c2 a b pa pb) by done.
    intros [= <-]. simpl.
    pose proof (objetos_enlazados_lookup a b pa pb (objetos st) a) as Hla.
    pose proof (objetos_enlazados_lookup a b pa pb (objetos st) b) as Hlb.
    rewrite Hpa in Hla. rewrite Hpb in Hlb. simpl in Hla, Hlb.
    rewrite (decide_True (P := a = a)) in Hla by done.
    rewrite (decide_True (P := b = b)) in Hlb by done.
    assert (Hc' : completa (objetos_enlazados a b pa pb (objetos st)) fam)
      by (by repeat apply completa_alter).
    pose proof (vista_get_Some _ fam c1 a _ Hc' Ha Hla) as Hga.
    pose proof (vista_get_Some _ fam c2 b _ Hc' Hb Hlb) as Hgb.
    split.
    + intros Hnp. unfold relacion_entre. rewrite Hga, Hgb.
      rewrite bool_decide_eq_false_2
        by (destruct (decide (b = a)), (decide (a = b)); simpl; done).
      rewrite bool_decide_eq_true_2; [done|].
      destruct (decide (b = a)), (decide (a = b)); simpl; unfold agregar_a;
        set_solver.
    + intros Hne Hnp Hnh. unfold relacion_entre. rewrite Hga, Hgb.
      rewrite (decide_False (P := b = a)) by done.
      rewrite (decide_False (P := a = b)) by done. simpl.
      rewrite bool_decide_eq_false_2 by done.
      rewrite bool_decide_eq_false_2 by done.
      rewrite bool_decide_eq_true_2; [done|]. unfold agregar_a. set_solver.
  - intros st'.
    rewrite (unir_pareja_exec st id_fam fam c1 c2 a b pa pb) by done.
    destruct (es_compatible_para_union pa pb (fecha_hoy st)) as [[|]|e]; [|done..].
    intros [= <-]. simpl.
    set (o' := objetos_unidos a b pa pb (fecha_hoy st) (objetos st)).
    assert (Hc' : completa o' fam).
    { intros r Hr. apply objetos_unidos_is_Some. by apply Hc. }
    destruct (objetos_unidos_is_Some a b pa pb (fecha_hoy st) (objetos st) a)
      as [pa' Hpa']; [by eexists|].
    destruct (objetos_unidos_is_Some a b pa pb (fecha_hoy st) (objetos st) b)
      as [pb' Hpb']; [by eexists|].
    destruct (objetos_unidos_lookup _ _ _ _ _ _ _ _ Hpa') as (qa & Hqa & Hca & _ & Hpara).
    destruct (objetos_unidos_lookup _ _ _ _ _ _ _ _ Hpb') as (qb & Hqb & Hcb & _ & Hparb).
    simplify_eq.
    pose proof (vista_get_Some _ fam c1 a _ Hc' Ha Hpa') as Hga.
    pose proof (vista_get_Some _ fam c2 b _ Hc' Hb Hpb') as Hgb.
    unfold relacion_entre. rewrite Hga, Hgb.
    split.
    + rewrite bool_decide_eq_true_2; [done|]. apply Hpara. rewrite Hcb. tauto.
    + rewrite bool_decide_eq_true_2; [done|]. apply Hparb. rewrite Hca. tauto.
Qed.

(** *** Compatibility and unions *)

Lemma comp_genetica_sim (a b : Persona) :
  negb (bool_decide (padres a = ∅)) && bool_decide (padres a = padres b)
  = negb (bool_decide (padres b = ∅)) && bool_decide (padres b = padres a).
Proof. repeat case_bool_decide; simpl; congruence. Qed.

Lemma indice_de_compatibilidad_sim (a b : Persona) :
  indice_de_compatibilidad a b = indice_de_compatibilidad b a.
Proof.
  rewrite !indice_de_compatibilidad_eq.
  rewrite (comm_L (∩) (afinidades b)), (comm_L (∪) (afinidades b)).
  rewrite (Z.add_comm (salud_emocional b)), (comp_genetica_sim b a). done.
Qed.

(** X17. Compatibility does not depend on who asks:
    [a.es_compatible_para_union(b)] and [b.es_compatible_para_union(a)]
    give the same answer (or raise the same error). *)
Theorem es_compatible_para_union_sim (a b : Persona) (hoy : date) :
  es_compatible_para_union a b hoy = es_compatible_para_union b a hoy.
Proof.
  unfold es_compatible_para_union.
  rewrite (indice_de_compatibilidad_sim b a).
  replace (Z.abs (edad b None hoy - edad a None hoy))
    with (Z.abs (edad a None hoy - edad b None hoy)) by lia.
  destruct (vivo a), (vivo b); simpl; try done;
    destruct (bool_decide (estado_civil a = "Casado(a)")),
             (bool_decide (estado_civil a = "Unión libre")),
             (bool_decide (estado_civil b = "Casado(a)")),
             (bool_decide (estado_civil b = "Unión libre")); simpl; try done;
    destruct (edad a None hoy <? 18), (edad b None hoy <? 18); simpl; done.
Qed.

Lemma es_compatible_en_union (a b : Persona) (hoy : date) :
  en_union a \/ en_union b -> es_compatible_para_union a b hoy = Ok false.
Proof.
  unfold es_compatible_para_union, en_union.
  intros H. destruct (negb (vivo a) || negb (vivo b)); [done|].
  repeat case_bool_decide; simpl; try done; naive_solver.
Qed.

Lemma objetos_unidos_estado a b pa pb hoy o r p' :
  objetos_unidos a b pa pb hoy o !! r = Some p' -> a = r \/ b = r ->
  estado_civil p' = "Unión libre".
Proof.
  unfold objetos_unidos.
  intros (p5 & (p4 & (p3 & (p2 & (p1 & (p & Hp & ->)%lookup_alter_Some & ->)
    %lookup_alter_Some & ->)%lookup_alter_Some & ->)%lookup_alter_Some & ->)
    %lookup_alter_Some & ->)%lookup_alter_Some Hr.
  destruct (decide (a = r)), (decide (b = r)); simpl; try done. by destruct Hr.
Qed.

Lemma unir_pareja_en_union st id_fam fam c1 c2 a b pa pb :
  dict_get id_fam (familias st) = Some fam ->
  obtener fam c1 = Some a -> obtener fam c2 = Some b ->
  objetos st !! a = Some pa -> objetos st !! b = Some pb ->
  en_union pa \/ en_union pb ->
  unir_pareja id_fam c1 c2 st = (Ok false, st).
Proof.
  intros Hf Ha Hb Hpa Hpb H.
  rewrite (unir_pareja_exec st id_fam fam c1 c2 a b pa pb) by done.
  by rewrite es_compatible_en_union.
Qed.

Lemma unir_pareja_falta st id_fam fam c1 c2 :
  dict_get id_fam (familias st) = Some fam ->
  obtener fam c1 = None \/ obtener fam c2 = None ->
  unir_pareja id_fam c1 c2 st = (Ok false, st).
Proof.
  intros Hf H. unfold unir_pareja, get_familia, bind, leer. rewrite Hf.
  destruct H as [-> | ->]; [done|]. by destruct (obtener fam c1).
Qed.

(** X18. A union is exclusive: a member whose status is "Unión libre" or
    "Casado(a)" cannot be united with anybody ([unir_pareja] answers
    [False] and changes nothing, whoever the other is and on whichever
    side), and [unir_pareja] leaves both members with the status
    "Unión libre" when it succeeds, so that it succeeds at most once for
    a member until that member is widowed. *)
Theorem unir_pareja_exclusiva (st : Mundo) (id_fam c1 c2 : string) (fam : Familia)
    (a b : nat) (pa pb : Persona) :
  dict_get id_fam (familias st) = Some fam ->
  completa (objetos st) fam ->
  obtener fam c1 = Some a -> obtener fam c2 = Some b ->
  objetos st !! a = Some pa -> objetos st !! b = Some pb ->
  (en_union pa ->
     forall c3, unir_pareja id_fam c1 c3 st = (Ok false, st)
                /\ unir_pareja id_fam c3 c1 st = (Ok false, st))
  /\ (forall st', unir_pareja id_fam c1 c2 st = (Ok true, st') ->
        (exists pa' pb', objetos st' !! a = Some pa' /\ objetos st' !! b = Some pb'
                         /\ estado_civil pa' = "Unión libre"
                         /\ estado_civil pb' = "Unión libre")
        /\ forall c3, unir_pareja id_fam c1 c3 st' = (Ok false, st')
                      /\ unir_pareja id_fam c3 c1 st' = (Ok false, st')
                      /\ unir_pareja id_fam c2 c3 st' = (Ok false, st')
                      /\ unir_pareja id_fam c3 c2 st' = (Ok false, st')).
Proof.
  intros Hf Hc Ha Hb Hpa Hpb.
  assert (Hgen : forall st0 c r p c3,
            dict_get id_fam (familias st0) = Some fam -> completa (objetos st0) fam ->
            obtener fam c = Some r -> objetos st0 !! r = Some p -> en_union p ->
            unir_pareja id_fam c c3 st0 = (Ok false, st0)
            /\ unir_pareja id_fam c3 c st0 = (Ok false, st0)).
  { intros st0 c r p c3 Hf0 Hc0 Hr Hp Hu.
    destruct (obtener fam c3) as [r3|] eqn:H3.
    - destruct (Hc0 r3) as [p3 Hp3]; [by eapply dict_get_values|].
      split; eapply unir_pareja_en_union; eauto.
    - split; eapply unir_pareja_falta; eauto. }
  split.
  - intros Hu c3. by eapply Hgen.
  - intros st'.
    rewrite (unir_pareja_exec st id_fam fam c1 c2 a b pa pb) by done.
    destruct (es_compatible_para_union pa pb (fecha_hoy st)) as [[|]|e]; [|done..].
    intros [= <-].
    set (st' := con_objetos (objetos_unidos a b pa pb (fecha_hoy st) (objetos st)) st).
    assert (Hc' : completa (objetos st') fam).
    { intros r Hr. apply objetos_unidos_is_Some. by apply Hc. }
    destruct (objetos_unidos_is_Some a b pa pb (fecha_hoy st) (objetos st) a)
      as [pa' Hpa']; [by eexists|].
    destruct (objetos_unidos_is_Some a b pa pb (fecha_hoy st) (objetos st) b)
      as [pb' Hpb']; [by eexists|].
    assert (Hea : estado_civil pa' = "Unión libre")
      by (eapply objetos_unidos_estado; [exact Hpa'|by left]).
    assert (Heb : estado_civil pb' = "Unión libre")
      by (eapply objetos_unidos_estado; [exact Hpb'|by right]).
    split; [by exists pa', pb'|].
    intros c3.
    destruct (Hgen st' c1 a pa' c3) as [H1 H2]; [done..|by left|].
    destruct (Hgen st' c2 b pb' c3) as [H3 H4]; [done..|by left|].
    done.
Qed.

Lemma unir_pareja_exclusiva_witness :
  (exists pa' pb', objetos mundo_unidos !! 0%nat = Some pa'
                   /\ objetos mundo_unidos !! 1%nat = Some pb'
                   /\ estado_civil pa' = "Unión libre"
                   /\ estado_civil pb' = "Unión libre")
  /\ forall c3, unir_pareja "F1" "101" c3 mundo_unidos = (Ok false, mundo_unidos)
                /\ unir_pareja "F1" c3 "101" mundo_unidos = (Ok false, mundo_unidos)
                /\ unir_pareja "F1" "102" c3 mundo_unidos = (Ok false, mundo_unidos)
                /\ unir_pareja "F1" c3 "102" mundo_unidos = (Ok false, mundo_unidos).
Proof.
  apply (proj2 (unir_pareja_exclusiva mundo_registrados "F1" "101" "102" familia_F1
                  0%nat 1%nat (default ana (objetos mundo_registrados !! 0%nat))
                  (default luis (objetos mundo_registrados !! 1%nat))
                  ltac:(vm_compute; reflexivity)
                  ltac:(apply completa_calculada; vm_compute; reflexivity)
                  eq_refl eq_refl
                  ltac:(vm_compute; reflexivity) ltac:(vm_compute; reflexivity))).
  vm_compute. reflexivity.
Defined.

Lemma interseccion_idemp (s : gset string) : s ∩ s = s.
Proof. apply leibniz_equiv. set_solver. Qed.

Lemma union_idemp_gset (s : gset string) : s ∪ s = s.
Proof. apply leibniz_equiv. set_solver. Qed.

Lemma index_spec_consigo (p : Persona) :
  (1 <= size (afinidades p))%nat ->
  index_spec p p
  = (600 + 2 * salud_emocional p + 2 * (if bool_decide (padres p = ∅) then 100 else 20))
    / 10.
Proof.
  intros Hn. unfold index_spec, affinity_score_spec, emotional_score_spec,
    genetic_score_spec.
  rewrite interseccion_idemp, union_idemp_gset.
  rewrite (proj2 (Z.eqb_neq _ 0)) by lia.
  rewrite Z.div_mul by lia.
  replace ((salud_emocional p + salud_emocional p) / 2) with (salud_emocional p)
    by (Z.div_mod_to_equations; lia).
  repeat case_bool_decide; try done; naive_solver.
Qed.

(** X19. Nothing prevents the union of a member with itself: for a living
    adult member that is not in a union, with at least one affinity,
    emotional health between 0 and 100 and no parents on record (or
    emotional health of 30 or more), [unir_pareja] with the same
    identifier on both sides answers [True], and the member becomes its
    own partner with the status "Unión libre". *)
Theorem unir_pareja_consigo (st : Mundo) (id_fam c : string) (fam : Familia)
    (r : nat) (p : Persona) :
  dict_get id_fam (familias st) = Some fam ->
  obtener fam c = Some r -> objetos st !! r = Some p ->
  vivo p = true -> ~ en_union p ->
  18 <= edad p None (fecha_hoy st) ->
  (1 <= size (afinidades p) < 50)%nat ->
  0 <= salud_emocional p <= 100 ->
  padres p = ∅ \/ 30 <= salud_emocional p ->
  exists st' p',
    unir_pareja id_fam c c st = (Ok true, st')
    /\ objetos st' !! r = Some p'
    /\ cedula p' ∈ parejas p' /\ estado_civil p' = "Unión libre".
Proof.
  intros Hf Hr Hp Hv Hu He Hn Hs Hg.
  rewrite (unir_pareja_exec st id_fam fam c c r r p p) by done.
  assert (Hcomp : es_compatible_para_union p p (fecha_hoy st) = Ok true).
  { destruct (indice_de_compatibilidad_exacto p p Hs Hs) as (i & Hi & Hcmp).
    { rewrite union_idemp_gset. lia. }
    unfold es_compatible_para_union. rewrite Hi, Hv. simpl.
    unfold en_union in Hu.
    rewrite !bool_decide_eq_false_2 by tauto. simpl.
    rewrite (proj2 (Z.ltb_ge _ _)) by lia. simpl.
    replace (edad p None (fecha_hoy st) - edad p None (fecha_hoy st)) with 0 by lia.
    simpl. f_equal. rewrite Hcmp. apply Z.leb_le.
    rewrite index_spec_consigo by lia.
    case_bool_decide; [|destruct Hg as [Hg|Hg]; [done|]];
      Z.div_mod_to_equations; lia. }
  rewrite Hcomp.
  destruct (objetos_unidos_is_Some r r p p (fecha_hoy st) (objetos st) r)
    as [p' Hp']; [by eexists|].
  eexists _, p'. split; [done|]. split; [exact Hp'|].
  destruct (objetos_unidos_lookup _ _ _ _ _ _ _ _ Hp') as (q & Hq & Hc & _ & Hpar).
  simplify_eq. split.
  - apply Hpar. rewrite Hc. tauto.
  - eapply objetos_unidos_estado; [exact Hp'|by left].
Qed.

Lemma unir_pareja_consigo_witness :
  exists st' p',
    unir_pareja "F1" "101" "101" mundo_registrados = (Ok true, st')
    /\ objetos st' !! 0%nat = Some p'
    /\ cedula p' ∈ parejas p' /\ estado_civil p' = "Unión libre".
Proof.
  apply (unir_pareja_consigo mundo_registrados "F1" "101" familia_F1 0%nat
           (default ana (objetos mundo_registrados !! 0%nat))).
  - vm_compute. reflexivity.
  - reflexivity.
  - vm_compute. reflexivity.
  - vm_compute. reflexivity.
  - intros [H|H]; vm_compute in H; discriminate H.
  - vm_compute. discriminate.
  - vm_compute. split; lia.
  - vm_compute. split; discriminate.
  - left. vm_compute. reflexivity.
Defined.

Lemma relacion_entre_tras_operacion_witness :
  relacion_entre
    (vista (objetos (registrar_padre_hijo "F1" "101" "102" mundo_registrados).2)
       familia_F1) "101" "102" = "Padre/Madre de B"
  /\ relacion_entre (vista (objetos mundo_unidos) familia_F1) "102" "101" = "Pareja".
Proof.
  destruct (relacion_entre_tras_operacion mundo_registrados "F1" "101" "102" familia_F1
              0%nat 1%nat (default ana (objetos mundo_registrados !! 0%nat))
              (default luis (objetos mundo_registrados !! 1%nat))
              ltac:(vm_compute; reflexivity)
              ltac:(apply completa_calculada; vm_compute; reflexivity)
              eq_refl eq_refl
              ltac:(vm_compute; reflexivity) ltac:(vm_compute; reflexivity))
    as [H1 H2].
  split.
  - apply (H1 _ ltac:(vm_compute; reflexivity)).
    intros H. vm_compute in H. discriminate H.
  - apply (H2 mundo_unidos). vm_compute. reflexivity.
Defined.

(** *** Widowhood *)

Lemma gestionar_viudez_cuerpo st fam d pfd ced :
  completa (objetos st) fam -> objetos st !! d = Some pfd ->
  (match obtener fam ced with
   | None => ret tt
   | Some pareja =>
       let* pp := objeto pareja in
       if vivo pp then
         let* _ := modificar pareja (con_estado_civil "Viudo(a)") in
         let* pf := objeto d in
         let* _ := modificar pareja
                     (fun p => con_parejas (parejas p ∖ {[cedula pf]}) p) in
         let* _ := evento pareja "Quedó viudo(a)" None in
         modificar pareja
           (fun p => con_salud_emocional (Z.max 0 (salud_emocional p - 10)) p)
       else ret tt
   end) st
  = (Ok tt, con_objetos (paso_viudez fam (fecha_hoy st) (cedula pfd) (objetos st) ced) st).
Proof.
  intros Hc Hd. unfold paso_viudez.
  destruct (obtener fam ced) as [r|] eqn:Hr; [|by destruct st].
  destruct (Hc r) as [pp Hpp]; [by eapply dict_get_values|]. rewrite Hpp.
  rewrite (bind_ok _ _ st pp st) by (by apply objeto_ok).
  destruct (vivo pp); [|by destruct st].
  corre.
  destruct (decide (r = d)) as [->|Hne].
  - lee Hd. corre. unfold evento. corre. unfold modificar. simpl.
    rewrite !alter_alter. simplify_eq. done.
  - lee Hd. corre. unfold evento. corre. unfold modificar. simpl.
    rewrite !alter_alter. done.
Qed.

Lemma paso_viudez_lookup fam hoy c o ced r p :
  o !! r = Some p ->
  paso_viudez fam hoy c o ced !! r
  = Some (if bool_decide (obtener fam ced = Some r) && vivo p
          then enviudada hoy c p else p).
Proof.
  intros Hp. unfold paso_viudez.
  destruct (obtener fam ced) as [r'|] eqn:Hr; [|by rewrite bool_decide_eq_false_2].
  destruct (decide (r' = r)) as [->|Hne].
  - rewrite Hp, bool_decide_eq_true_2 by done. simpl.
    destruct (vivo p); [|done]. by rewrite list_lookup_alter_eq, Hp.
  - rewrite bool_decide_eq_false_2 by congruence. simpl.
    destruct (o !! r') as [pp|]; [|done]. destruct (vivo pp); [|done].
    by rewrite list_lookup_alter_ne.
Qed.

Lemma completa_paso_viudez fam hoy c o ced :
  completa o fam -> completa (paso_viudez fam hoy c o ced) fam.
Proof.
  intros Hc r Hr. destruct (Hc r Hr) as [p Hp].
  rewrite (paso_viudez_lookup fam hoy c o ced r p Hp). by eexists.
Qed.

Lemma gestionar_viudez_bucle l st fam d pfd :
  completa (objetos st) fam -> objetos st !! d = Some pfd ->
  para_cada l (fun ced =>
    match obtener fam ced with
    | None => ret tt
    | Some pareja =>
        let* pp := objeto pareja in
        if vivo pp then
          let* _ := modificar pareja (con_estado_civil "Viudo(a)") in
          let* pf := objeto d in
          let* _ := modificar pareja
                      (fun p => con_parejas (parejas p ∖ {[cedula pf]}) p) in
          let* _ := evento pareja "Quedó viudo(a)" None in
          modificar pareja
            (fun p => con_salud_emocional (Z.max 0 (salud_emocional p - 10)) p)
        else ret tt
    end) st
  = (Ok tt,
     con_objetos (foldl (paso_viudez fam (fecha_hoy st) (cedula pfd)) (objetos st) l) st).
Proof.
  revert st pfd. induction l as [|ced l IH]; intros st pfd Hc Hd; simpl.
  - by destruct st.
  - rewrite (bind_ok _ _ st tt
               (con_objetos (paso_viudez fam (fecha_hoy st) (cedula pfd) (objetos st) ced)
                  st))
      by (by apply gestionar_viudez_cuerpo).
    pose proof (paso_viudez_lookup fam (fecha_hoy st) (cedula pfd) (objetos st) ced d pfd Hd)
      as Hd'.
    rewrite (IH (con_objetos (paso_viudez fam (fecha_hoy st) (cedula pfd) (objetos st) ced)
                   st) _ (completa_paso_viudez _ _ _ _ _ Hc) Hd').
    simpl. by destruct (bool_decide (obtener fam ced = Some d) && vivo pfd).
Qed.

Lemma dict_get_inyectiva {V} (d : dict V) k1 k2 v :
  NoDup (dict_values d) -> dict_get k1 d = Some v -> dict_get k2 d = Some v -> k1 = k2.
Proof.
  unfold dict_values. induction d as [|[k v'] d IH]; simpl; [done|].
  intros [Hnin Hnd]%NoDup_cons.
  repeat case_bool_decide; intros H1 H2; simplify_eq; try done.
  - destruct Hnin. by apply (dict_get_values d k2).
  - destruct Hnin. by apply (dict_get_values d k1).
  - by apply IH.
Qed.

Lemma viudez_foldl fam hoy c l o r p :
  NoDup (todas_personas fam) -> NoDup l -> o !! r = Some p ->
  (vivo p = true -> (exists ced, ced ∈ l /\ obtener fam ced = Some r) ->
     foldl (paso_viudez fam hoy c) o l !! r = Some (enviudada hoy c p))
  /\ (~ (vivo p = true /\ exists ced, ced ∈ l /\ obtener fam ced = Some r) ->
      foldl (paso_viudez fam hoy c) o l !! r = Some p).
Proof.
  intros Hnd Hl. revert o p. induction Hl as [|ced l Hnin Hl IH]; intros o p Hp; simpl.
  - split; [|done]. intros _ (ced & Hced & _). by apply elem_of_nil in Hced.
  - pose proof (paso_viudez_lookup fam hoy c o ced r p Hp) as H1.
    destruct (IH _ _ H1) as [IHsi IHno]. split.
    + intros Hv (ced' & Hin & Hr). rewrite Hv, andb_true_r in *.
      case_bool_decide as Hced.
      * apply IHno. intros [_ (ced2 & Hin2 & Hr2)].
        assert (ced2 = ced) as -> by (by eapply dict_get_inyectiva).
        done.
      * apply IHsi; [done|]. exists ced'. split; [|done].
        apply elem_of_cons in Hin as [->|Hin]; done.
    + intros Hno.
      assert (Hb : bool_decide (obtener fam ced = Some r) && vivo p = false).
      { apply andb_false_iff. destruct (vivo p); [left|by right].
        apply bool_decide_eq_false_2. intros Hr. apply Hno. split; [done|].
        exists ced. split; [left|done]. }
      rewrite Hb in *. apply IHno. intros [Hv (ced' & Hin & Hr)].
      apply Hno. split; [done|]. exists ced'. split; [by right|done].
Qed.

(** X20. [gestionar_viudez] widows exactly the living members that an
    identifier in the partner set of the deceased names: when each member
    of the family is registered once, it does not raise, each of those
    members gets the status "Viudo(a)", loses the identifier of the
    deceased from its partner set, gets the history entry
    "Quedó viudo(a)" and 10 points less of emotional health (not below
    0); every other person is left as it was (so is the deceased, once it
    has its death date), and so is the rest of the state. *)
Theorem gestionar_viudez_efecto (st : Mundo) (fam : Familia) (d : nat) (pf : Persona) :
  completa (objetos st) fam -> NoDup (todas_personas fam) ->
  objetos st !! d = Some pf ->
  exists o',
    gestionar_viudez fam d st = (Ok tt, con_objetos o' st)
    /\ forall r p, objetos st !! r = Some p ->
         (vivo p = true ->
          (exists ced, ced ∈ parejas pf /\ obtener fam ced = Some r) ->
          o' !! r = Some (enviudada (fecha_hoy st) (cedula pf) p))
         /\ (~ (vivo p = true
                /\ exists ced, ced ∈ parejas pf /\ obtener fam ced = Some r) ->
             o' !! r = Some p).
Proof.
  intros Hc Hnd Hd. eexists. split.
  - unfold gestionar_viudez.
    rewrite (bind_ok _ _ st pf st) by (by apply objeto_ok).
    by apply gestionar_viudez_bucle.
  - intros r p Hp.
    destruct (viudez_foldl fam (fecha_hoy st) (cedula pf) (elements (parejas pf))
                (objetos st) r p Hnd (NoDup_elements _) Hp) as [H1 H2].
    split.
    + intros Hv (ced & Hin & Hr). apply H1; [done|]. exists ced.
      by rewrite elem_of_elements.
    + intros Hno. apply H2. intros [Hv (ced & Hin & Hr)]. apply Hno.
      split; [done|]. exists ced. by rewrite <- elem_of_elements.
Qed.

(** *** The other queries *)

Lemma filter_sublist {A} (f : A -> bool) (l : list A) : sublist (List.filter f l) l.
Proof.
  induction l as [|x l IH]; simpl; [done|]. destruct (f x); [by apply sublist_skip|by apply sublist_cons].
Qed.

(** X21. [fallecidos_antes_de_50] gives, in the order of the family, the
    members that have a death date and whose age, whatever the date it is
    asked at, is under 50. *)
Theorem fallecidos_antes_de_50_spec (hoy : date) (m : dict Persona) :
  sublist (fallecidos_antes_de_50 hoy m) (dict_values m)
  /\ forall p, p ∈ fallecidos_antes_de_50 hoy m <->
               p ∈ dict_values m /\ vivo p = false
               /\ forall ref hoy', edad p ref hoy' < 50.
Proof.
  unfold fallecidos_antes_de_50. split.
  - apply filter_sublist.
  - intros p. rewrite list_elem_of_In, filter_In, <- list_elem_of_In.
    unfold vivo, edad, anios_entre. destruct (fecha_fallecimiento p) as [f|]; simpl.
    + rewrite Z.ltb_lt. split; [by intros [H1 H2]|].
      intros (H1 & _ & H3). split; [done|]. apply (H3 None hoy).
    + split; [by intros [_ ?]|by intros (_ & ? & _)].
Qed.

Lemma sin_repetidos_incluido vistos l p :
  p ∈ sin_repetidos vistos l -> p ∈ l /\ cedula p ∉ vistos.
Proof.
  revert vistos. induction l as [|q l IH]; intros vistos; simpl.
  - by intros ?%elem_of_nil.
  - case_bool_decide as Hq.
    + intros [H1 H2]%IH. split; [by right|done].
    + intros [->|[H1 H2]%IH]%elem_of_cons; [split; [by left|done]|].
      split; [by right|]. set_solver.
Qed.

Lemma sin_repetidos_NoDup vistos l : NoDup (map cedula (sin_repetidos vistos l)).
Proof.
  revert vistos. induction l as [|q l IH]; intros vistos; simpl; [constructor|].
  case_bool_decide as Hq; [apply IH|]. simpl. constructor; [|apply IH].
  intros (p & Hp & Hin)%list_elem_of_fmap.
  apply sin_repetidos_incluido in Hin as [_ Hin]. set_solver.
Qed.

Lemma sin_repetidos_completo vistos l p :
  p ∈ l -> cedula p ∉ vistos ->
  exists p', p' ∈ sin_repetidos vistos l /\ cedula p' = cedula p.
Proof.
  revert vistos. induction l as [|q l IH]; intros vistos; simpl.
  - by intros ?%elem_of_nil.
  - intros [->|Hin]%elem_of_cons Hv.
    + rewrite bool_decide_eq_false_2 by done. exists q. split; [by left|done].
    + case_bool_decide as Hq; [by apply IH|].
      destruct (decide (cedula p = cedula q)) as [Heq|Hne].
      * exists q. split; [by left|done].
      * destruct (IH (vistos ∪ {[cedula q]}) Hin) as (p' & Hp' & Hc); [set_solver|].
        exists p'. split; [by right|done].
Qed.

Lemma primos_candidatos m x p :
  es_primo m x p <->
  exists px, dict_get x m = Some px
    /\ p ∈ flat_map (fun ced_padre =>
                       match dict_get ced_padre m with
                       | None => []
                       | Some padre =>
                           flat_map (fun tio =>
                                       omap (fun ced_sobr => dict_get ced_sobr m)
                                            (elements (hijos tio)))
                                    (hermanos_de m padre)
                       end) (elements (padres px)).
Proof.
  unfold es_primo. split.
  - intros (px & cpad & padre & tio & cs & Hx & Hcp & Hpad & Htio & Hne & Hint & Hcs & Hp).
    exists px. split; [done|].
    apply list_elem_of_In, in_flat_map. exists cpad.
    split; [by apply list_elem_of_In, elem_of_elements|]. rewrite Hpad.
    apply in_flat_map. exists tio. split.
    + unfold hermanos_de. apply filter_In. split; [by apply list_elem_of_In|].
      rewrite !bool_decide_eq_false_2; [done|done| |done].
      intros He. apply Hint. rewrite He. set_solver.
    + apply list_elem_of_In, list_elem_of_omap. exists cs.
      split; [by apply elem_of_elements|done].
  - intros (px & Hx & Hin). exists px.
    apply list_elem_of_In, in_flat_map in Hin as (cpad & Hcp & Hin).
    apply list_elem_of_In, elem_of_elements in Hcp.
    destruct (dict_get cpad m) as [padre|] eqn:Hpad; [|done].
    apply in_flat_map in Hin as (tio & Htio & Hin).
    unfold hermanos_de in Htio. apply filter_In in Htio as [Htio Hcond].
    apply list_elem_of_In in Htio.
    apply list_elem_of_In, list_elem_of_omap in Hin as (cs & Hcs & Hp).
    apply elem_of_elements in Hcs.
    apply andb_prop in Hcond as [Hcond H3]. apply andb_prop in Hcond as [H1 H2].
    apply negb_true_iff, bool_decide_eq_false in H1, H2, H3.
    exists cpad, padre, tio, cs. done.
Qed.

(** X22. [primos_primer_grado] gives first cousins without repeating an
    identifier: every person it gives is a child of a member that shares
    a parent with a parent of [x]; every such child is in the answer or
    has the identifier of somebody in it; no two persons of the answer
    have the same identifier; for an identifier that is not a member the
    answer is empty. *)
Theorem primos_primer_grado_spec (m : dict Persona) (x : string) :
  NoDup (map cedula (primos_primer_grado m x))
  /\ (forall p, p ∈ primos_primer_grado m x -> es_primo m x p)
  /\ (forall p, es_primo m x p ->
        exists p', p' ∈ primos_primer_grado m x /\ cedula p' = cedula p)
  /\ (dict_get x m = None -> primos_primer_grado m x = []).
Proof.
  unfold primos_primer_grado. split; [|split; [|split]].
  - destruct (dict_get x m); [apply sin_repetidos_NoDup|constructor].
  - intros p Hp. apply primos_candidatos.
    destruct (dict_get x m) as [px|]; [|by apply elem_of_nil in Hp].
    exists px. split; [done|]. by apply sin_repetidos_incluido in Hp as [Hp _].
  - intros p (px & Hx & Hin)%primos_candidatos. rewrite Hx.
    by apply sin_repetidos_completo.
  - by intros ->.
Qed.

Lemma dict_get_In {V} (d : dict V) k v : dict_get k d = Some v -> In (k, v) d.
Proof.
  induction d as [|[k' v'] d IH]; simpl; [done|].
  case_bool_decide; [intros [= ->]; left; by subst|intros H'; right; by apply IH].
Qed.

Lemma bien_formada_calculada m : bien_formada_b m = true -> bien_formada m.
Proof.
  unfold bien_formada_b. intros H.
  apply andb_prop in H as [H H3]. apply andb_prop in H as [H1 H2].
  apply bool_decide_eq_true in H1.
  rewrite forallb_forall in H2. rewrite forallb_forall in H3.
  split; [done| |].
  - intros k p Hk. apply dict_get_In, H2 in Hk. by apply bool_decide_eq_true in Hk.
  - intros p c q Hp Hc Hq. apply list_elem_of_In, H3 in Hp.
    rewrite forallb_forall in Hp. apply elem_of_elements, list_elem_of_In, Hp in Hc.
    rewrite Hq in Hc. by apply bool_decide_eq_true in Hc.
Qed.

Lemma bien_formada_valor m p :
  bien_formada m -> p ∈ dict_values m -> dict_get (cedula p) m = Some p.
Proof.
  intros [H1 H2 _] Hp.
  destruct (dict_get_values_NoDup m p H1 Hp) as [k Hk].
  by rewrite (H2 k p Hk).
Qed.

(** X23. The two ways of finding cousins agree: in a family whose members
    are registered once under their own identifier and whose child links
    have their parent link, [relacion_entre] between [x] and any person
    that [primos_primer_grado] gives for [x] is a close relation, first
    cousins when no closer one holds, and never "Relación lejana o no
    directa" nor "No encontrado". *)
Theorem primos_relacionados (m : dict Persona) (x : string) (p : Persona) :
  bien_formada m -> p ∈ primos_primer_grado m x ->
  relacion_entre m x (cedula p) ∈ RELACIONES_CERCANAS.
Proof.
  intros Hbf Hp.
  destruct (primos_primer_grado_spec m x) as (_ & Hes & _).
  destruct (Hes p Hp)
    as (px & cpad & padre & tio & cs & Hx & Hcp & Hpad & Htio & Hne & Hint & Hcs & Hgp).
  pose proof (bf_cedula m Hbf cs p Hgp) as Hced. rewrite Hced.
  unfold relacion_entre, RELACIONES_CERCANAS. rewrite Hx, Hgp.
  repeat (case_bool_decide; [set_solver|]).
  destruct (comparten_padre px p); [set_solver|].
  cbv zeta.
  match goal with
  | |- (if ?b then _ else _) ∈ _ => assert (b = true) as ->; [|set_solver]
  end.
  apply existsb_exists. exists (Some padre). split.
  { apply in_map_iff. exists cpad. split; [exact Hpad|].
    by apply list_elem_of_In, elem_of_elements. }
  apply existsb_exists. exists (Some tio). split.
  { apply in_map_iff. exists (cedula tio). split; [by apply bien_formada_valor|].
    apply list_elem_of_In, elem_of_elements. by apply (bf_enlaces m Hbf tio cs p). }
  unfold comparten_padre.
  rewrite !bool_decide_eq_false_2; [done|done| |].
  - intros He. apply Hint. rewrite He. set_solver.
  - intros He. apply Hint. rewrite He. set_solver.
Qed.

Lemma madre_de_asciende m p q : madre_de m p = Some q -> asciende m p q.
Proof.
  unfold madre_de, asciende, progenitor.
  destruct (List.find _ _) as [[q0|]|] eqn:Hfind.
  - intros [= <-]. apply find_some in Hfind as [Hin Hgen].
    apply in_map_iff in Hin as (c & Hc & Hin).
    apply list_elem_of_In, elem_of_elements in Hin.
    apply bool_decide_eq_true in Hgen. split; [by exists c|done].
  - by apply find_some in Hfind as [_ ?].
  - destruct (elements (padres p)) as [|c l] eqn:Hel; [done|].
    intros Hq. split.
    + exists c. split; [|done]. apply elem_of_elements. rewrite Hel. by left.
    + intros (q' & (c' & Hc' & Hq') & Hgen).
      assert (Hin : In (Some q') (map (fun c => dict_get c m) (c :: l))).
      { apply in_map_iff. exists c'. split; [done|].
        apply list_elem_of_In. rewrite <- Hel. by apply elem_of_elements. }
      pose proof (find_none _ _ Hfind (Some q') Hin) as Hn. simpl in Hn.
      by apply bool_decide_eq_false in Hn.
Qed.

Lemma antepasados_bucle_cadena m fuel p cur res out :
  (forall c, cur = Some c -> asciende m p c) ->
  antepasados_bucle fuel m cur res = Some out ->
  exists l, out = (res ++ l)%list /\ cadena (asciende m) p l.
Proof.
  revert p cur res. induction fuel as [|fuel IH]; intros p cur res Hcur; simpl; [done|].
  destruct cur as [c|].
  - intros (l & -> & Hl)%(IH c); [|intros c'; apply madre_de_asciende].
    exists (c :: l). split; [by rewrite <- app_assoc|]. split; [by apply Hcur|done].
  - intros [= <-]. exists []. by rewrite app_nil_r.
Qed.

Lemma progenitor_miembro m p q : tc (progenitor m) p q -> q ∈ dict_values m.
Proof.
  intros (y & c & _ & Hq)%tc_ultimo. by eapply dict_get_values.
Qed.

Lemma antepasados_bucle_termina m c res :
  sn (progenitor m) c -> exists fuel out, antepasados_bucle fuel m (Some c) res = Some out.
Proof.
  intros Hsn. revert res. induction Hsn as [c _ IH]. intros res.
  destruct (madre_de m c) as [q|] eqn:Hq.
  - destruct (IH q (proj1 (madre_de_asciende m c q Hq)) (res ++ [c])%list)
      as (fuel & out & H).
    exists (S fuel), out. simpl. by rewrite Hq.
  - exists 2%nat, (res ++ [c])%list. simpl. by rewrite Hq.
Qed.

Lemma antepasados_bucle_no_termina m c fuel res :
  madre_de m c = Some c -> antepasados_bucle fuel m (Some c) res = None.
Proof.
  intros Hc. revert res. induction fuel as [|fuel IH]; intros res; simpl; [done|].
  rewrite Hc. apply IH.
Qed.

(** X24. [antepasados_maternos] goes up parent by parent: each person of
    the answer is a parent on record, member of the family, of the one
    before it (the first of [x]), and a woman whenever the one before it
    has a woman among its parents in the family; when no member is its own
    ancestor the query terminates; when [x] is its own only parent it
    does not. *)
Theorem antepasados_maternos_spec (m : dict Persona) (x : string) (px : Persona) :
  dict_get x m = Some px ->
  (forall fuel l, antepasados_maternos fuel m x = Some l -> cadena (asciende m) px l)
  /\ ((forall q, ~ tc (progenitor m) q q) ->
      exists fuel l, antepasados_maternos fuel m x = Some l)
  /\ (padres px = {[x]} -> forall fuel, antepasados_maternos fuel m x = None).
Proof.
  intros Hx. unfold antepasados_maternos. rewrite Hx. split; [|split].
  - intros fuel l Hl.
    apply (antepasados_bucle_cadena m fuel px) in Hl as (l' & -> & Hl');
      [done|apply madre_de_asciende].
  - intros Hac. destruct (madre_de m px) as [q|] eqn:Hq; [|by exists 1%nat, []].
    apply (antepasados_bucle_termina m q []).
    apply tc_finite_sn; [exact Hac|].
    exists (dict_values m). intros y. apply progenitor_miembro.
  - intros Hp fuel.
    assert (Hm : madre_de m px = Some px).
    { unfold madre_de. rewrite Hp, elements_singleton. simpl. rewrite Hx.
      by case_bool_decide. }
    rewrite Hm. by apply antepasados_bucle_no_termina.
Qed.

Lemma bien_formada_tres_generaciones : bien_formada tres_generaciones.
Proof. apply bien_formada_calculada. vm_compute. reflexivity. Qed.

Lemma antepasados_maternos_spec_witness :
  antepasados_maternos 3 tres_generaciones "5"
  = Some [default ana (dict_get "3" tres_generaciones);
          default ana (dict_get "1" tres_generaciones)]
  /\ cadena (asciende tres_generaciones) (default ana (dict_get "5" tres_generaciones))
       [default ana (dict_get "3" tres_generaciones);
        default ana (dict_get "1" tres_generaciones)].
Proof.
  split; [vm_compute; reflexivity|].
  apply (proj1 (antepasados_maternos_spec tres_generaciones "5"
                  (default ana (dict_get "5" tres_generaciones))
                  ltac:(vm_compute; reflexivity)) 3%nat).
  vm_compute. reflexivity.
Defined.

Lemma primos_relacionados_witness :
  relacion_entre tres_generaciones "5" "6" ∈ RELACIONES_CERCANAS
  /\ relacion_entre tres_generaciones "5" "6" = "Primos(as) de primer grado".
Proof.
  split; [|vm_compute; reflexivity].
  apply (primos_relacionados tres_generaciones "5"
           (default ana (dict_get "6" tres_generaciones))).
  - apply bien_formada_tres_generaciones.
  - apply list_elem_of_In. vm_compute. right. left. reflexivity.
Defined.

Lemma parejas_con_mas_de_dos_hijos_eq m :
  parejas_con_mas_de_dos_hijos m
  = (foldl (fun acc x => paso_pareja m x.1 acc x.2) (∅, []) (pares_de (dict_values m))).2.
Proof.
  unfold parejas_con_mas_de_dos_hijos, pares_de. f_equal.
  generalize (∅ : gset (string * string), [] : list (Persona * Persona)).
  generalize (dict_values m). intros l. induction l as [|p l IH]; intros acc; simpl; [done|].
  rewrite foldl_app, IH. f_equal.
  generalize (elements (parejas p)). intros cs. revert acc.
  induction cs as [|c cs IHc]; intros acc; simpl; [done|]. apply IHc.
Qed.

Lemma bien_formada_registrada m : bien_formada m -> registrada m.
Proof. by intros [H1 H2 _]. Qed.

Lemma registrada_valor m p :
  registrada m -> p ∈ dict_values m -> dict_get (cedula p) m = Some p.
Proof.
  intros [H1 H2] Hp.
  destruct (dict_get_values_NoDup m p H1 Hp) as [k Hk].
  by rewrite (H2 k p Hk).
Qed.

Lemma registrada_igual m p q :
  registrada m -> p ∈ dict_values m -> q ∈ dict_values m ->
  cedula p = cedula q -> p = q.
Proof.
  intros Hbf Hp Hq Hc.
  apply (registrada_valor m p Hbf) in Hp. apply (registrada_valor m q Hbf) in Hq.
  rewrite Hc in Hp. congruence.
Qed.

Lemma recorrido_paso m l acc p ced :
  registrada m -> p ∈ dict_values m -> ced ∈ parejas p ->
  recorrido m l acc -> recorrido m (l ++ [(p, ced)]) (paso_pareja m p acc ced).
Proof.
  intros Hbf Hp Hced [Hv Hr [Hnd Hu] Hc]. destruct acc as [vistos res]. simpl in *.
  unfold paso_pareja.
  destruct (bool_decide ((cedula p, ced) ∈ vistos)
            || bool_decide ((ced, cedula p) ∈ vistos)) eqn:Hvisto.
  { (* the pair has been seen, in this order or the other *)
    split; simpl; [done|done|done|].
    intros p0 ced0 q0 [Hin|[= -> ->]%list_elem_of_singleton]%elem_of_app Hq0 Hsz;
      [by eapply Hc|].
    apply orb_prop in Hvisto as [Hvisto|Hvisto]; apply bool_decide_eq_true in Hvisto.
    - destruct (Hv _ _ Hvisto) as (p' & q' & Hp' & Hc' & _ & Hq' & Hres).
      assert (p' = p) as -> by (by apply (registrada_igual m)).
      assert (q' = q0) as -> by congruence.
      left. by apply Hres.
    - destruct (Hv _ _ Hvisto) as (p' & q' & Hp' & Hc' & _ & Hq' & Hres).
      assert (Hq0v : q0 ∈ dict_values m) by (by eapply dict_get_values).
      assert (p' = q0) as ->.
      { apply (registrada_igual m); [done..|].
        by rewrite (proj2 Hbf _ _ Hq0). }
      assert (q' = p) as ->.
      { rewrite (registrada_valor m p Hbf Hp) in Hq'. congruence. }
      right. apply Hres. by rewrite (comm_L (∩)). }
  apply orb_false_iff in Hvisto as [Hv1 Hv2].
  apply bool_decide_eq_false in Hv1, Hv2.
  destruct (dict_get ced m) as [q|] eqn:Hq.
  2:{ split; simpl; [done|done|done|].
      intros p0 ced0 q0 [Hin|[= -> ->]%list_elem_of_singleton]%elem_of_app Hq0 Hsz;
        [by eapply Hc|congruence]. }
  pose proof (proj2 Hbf _ _ Hq) as Hcq.
  assert (Hnuevo : ((p, q) ∉ res) /\ ((q, p) ∉ res)).
  { split; intros [_ Hin]%Hr; [by rewrite Hcq in Hin|by rewrite Hcq in Hin]. }
  destruct (Z.leb_spec 2 (Z.of_nat (size (hijos p ∩ hijos q)))) as [Hsz|Hsz].
  - split; simpl.
    + intros a b [Hab|[= -> ->]%elem_of_singleton]%elem_of_union.
      * destruct (Hv a b Hab) as (p' & q' & ? & ? & ? & ? & Hres).
        exists p', q'. repeat split; try done. intros ?. apply elem_of_app. left. auto.
      * exists p, q. repeat split; try done. intros _. apply elem_of_app. right.
        by apply list_elem_of_singleton.
    + intros p0 q0 [Hin|[= -> ->]%list_elem_of_singleton]%elem_of_app.
      * destruct (Hr _ _ Hin) as [H1 H2]. split; [done|]. set_solver.
      * split; [|rewrite Hcq; set_solver].
        split; [done|]. rewrite Hcq. repeat split; try done. lia.
    + split.
      * apply NoDup_app. split; [done|]. split; [|apply NoDup_singleton].
        intros x Hx ->%list_elem_of_singleton. by destruct Hnuevo.
      * intros p0 q0 [Hin|Heq%list_elem_of_singleton]%elem_of_app Hne
               [Hin'|Heq'%list_elem_of_singleton]%elem_of_app; simplify_eq.
        -- by eapply Hu.
        -- by destruct Hnuevo.
        -- by destruct Hnuevo.
    + intros p0 ced0 q0 [Hin|[= -> ->]%list_elem_of_singleton]%elem_of_app Hq0 Hsz0.
      * destruct (Hc _ _ _ Hin Hq0 Hsz0); [left|right]; apply elem_of_app; by left.
      * left. apply elem_of_app. right. apply list_elem_of_singleton. congruence.
  - split; simpl.
    + intros a b [Hab|[= -> ->]%elem_of_singleton]%elem_of_union.
      * by apply Hv.
      * exists p, q. repeat split; try done. lia.
    + intros p0 q0 Hin. destruct (Hr _ _ Hin) as [H1 H2]. split; [done|]. set_solver.
    + done.
    + intros p0 ced0 q0 [Hin|[= -> ->]%list_elem_of_singleton]%elem_of_app Hq0 Hsz0;
        [by eapply Hc|].
      assert (q0 = q) as -> by congruence. lia.
Qed.

Lemma recorrido_todo m l :
  registrada m ->
  Forall (fun x : Persona * string => x.1 ∈ dict_values m /\ x.2 ∈ parejas x.1) l ->
  recorrido m l (foldl (fun acc x => paso_pareja m x.1 acc x.2) (∅, []) l).
Proof.
  intros Hbf. induction l as [|[p ced] l IH] using rev_ind; intros Hl.
  - split; simpl; [set_solver|set_solver|split; [constructor|set_solver]|set_solver].
  - apply Forall_app in Hl as [Hl [[Hp Hced] _]%Forall_cons].
    rewrite foldl_app. simpl. by apply recorrido_paso; [..|apply IH].
Qed.

Lemma pares_de_miembros m :
  Forall (fun x : Persona * string => x.1 ∈ dict_values m /\ x.2 ∈ parejas x.1)
         (pares_de (dict_values m)).
Proof.
  apply Forall_forall. intros [p ced] Hin. unfold pares_de in Hin.
  apply list_elem_of_In, in_flat_map in Hin as (p' & Hp' & Hin).
  apply in_map_iff in Hin as (c & [= <- <-] & Hc). simpl.
  split; [by apply list_elem_of_In|]. by apply elem_of_elements, list_elem_of_In.
Qed.

(** X25. [parejas_con_mas_de_dos_hijos] gives each couple with two or
    more children in common once: in a family whose members are
    registered once under their own identifier, a pair (p, q) of the
    answer is a member p and the member q named in the partner set of p,
    with at least two identifiers in both child sets; every such pair is
    in the answer in one of the two orders; and no pair is in the answer
    twice, nor in both orders. *)
Theorem parejas_con_mas_de_dos_hijos_spec (m : dict Persona) :
  registrada m ->
  (forall p q, (p, q) ∈ parejas_con_mas_de_dos_hijos m -> pareja_con_hijos m p q)
  /\ (forall p q, pareja_con_hijos m p q ->
        (p, q) ∈ parejas_con_mas_de_dos_hijos m
        \/ (q, p) ∈ parejas_con_mas_de_dos_hijos m)
  /\ NoDup (parejas_con_mas_de_dos_hijos m)
  /\ (forall p q, (p, q) ∈ parejas_con_mas_de_dos_hijos m -> p ≠ q ->
        (q, p) ∉ parejas_con_mas_de_dos_hijos m).
Proof.
  intros Hbf. rewrite parejas_con_mas_de_dos_hijos_eq.
  destruct (recorrido_todo m (pares_de (dict_values m)) Hbf (pares_de_miembros m))
    as [Hv Hr [Hnd Hu] Hc].
  split; [|split; [|split]]; [|  |done|done].
  - intros p q Hin. by apply Hr.
  - intros p q (Hp & Hq & Hg & Hsz). apply (Hc p (cedula q) q); [|done..].
    unfold pares_de. apply list_elem_of_In, in_flat_map. exists p.
    split; [by apply list_elem_of_In|]. apply in_map_iff. exists (cedula q).
    split; [done|]. by apply list_elem_of_In, elem_of_elements.
Qed.

Lemma parejas_con_mas_de_dos_hijos_spec_witness :
  parejas_con_mas_de_dos_hijos tres_generaciones
  = [(default ana (dict_get "1" tres_generaciones),
      default ana (dict_get "2" tres_generaciones))]
  /\ NoDup (parejas_con_mas_de_dos_hijos tres_generaciones).
Proof.
  split; [vm_compute; reflexivity|].
  apply (parejas_con_mas_de_dos_hijos_spec tres_generaciones
           (bien_formada_registrada _ bien_formada_tres_generaciones)).
Defined.

(** *** Births that succeed *)

Lemma nth_mod_elem (l : list string) (x : Z) :
  l ≠ [] -> nth (Z.to_nat (x mod Z.of_nat (length l))) l "" ∈ l.
Proof.
  intros Hl. apply list_elem_of_In, nth_In.
  assert (0 < Z.of_nat (length l)) by (destruct l; [done|simpl; lia]).
  pose proof (Z.mod_pos_bound x (Z.of_nat (length l)) ltac:(lia)). lia.
Qed.

Lemma drop_6 {A} (l : list A) : drop 6 l = tl (tl (tl (tl (tl (tl l))))).
Proof. by destruct l as [|? [|? [|? [|? [|? [|? ?]]]]]]. Qed.

Lemma registrar_nacimiento_de_pareja_exec st id_fam fam c1 c2 a b pa pb :
  dict_get id_fam (familias st) = Some fam ->
  obtener fam c1 = Some a -> obtener fam c2 = Some b ->
  objetos st !! a = Some pa -> objetos st !! b = Some pb ->
  cedula pb ∈ parejas pa ->
  dict_in (cedula_sorteada st) (miembros fam) = false ->
  exists nom gen prov l,
    nom ∈ NOMBRES /\ gen ∈ ["Masculino"; "Femenino"]
    /\ prov ∈ [provincia pa; provincia pb] /\ muestra_valida l
    /\ registrar_nacimiento_de_pareja id_fam c1 c2 st
       = (Ok (Some (length (objetos st))),
          mk_Mundo
            (objetos_con_hijo a b (length (objetos st))
               (recien_nacido (cedula_sorteada st) nom gen prov (fecha_simulada st) l
                  pa pb)
               (fecha_hoy st) (objetos st))
            (dict_set id_fam
               (Familia_con fam (cedula_sorteada st) (length (objetos st)))
               (familias st))
            (fecha_simulada st) (drop 6 (azar st)) (fecha_hoy st)).
Proof.
  intros Hf Ha Hb Hpa Hpb Hpar Hnew.
  pose proof (lookup_lt_Some _ _ _ Hpa) as Hla.
  pose proof (lookup_lt_Some _ _ _ Hpb) as Hlb.
  set (n := length (objetos st)).
  set (nom := nth (Z.to_nat (Z.of_N (hd 0%N (tl (azar st))) mod 8)) NOMBRES "").
  set (gen := nth (Z.to_nat (Z.of_N (hd 0%N (tl (tl (azar st)))) mod 2))
                  ["Masculino"; "Femenino"] "").
  set (prov := nth (Z.to_nat (Z.of_N (hd 0%N (tl (tl (tl (azar st))))) mod 2))
                   [provincia pa; provincia pb] "").
  set (nuevo := Persona_nueva (cedula_sorteada st) nom (fecha_simulada st) gen prov).
  set (st1 := mk_Mundo (objetos st ++ [nuevo])%list (familias st) (fecha_simulada st)
                (tl (tl (tl (tl (azar st))))) (fecha_hoy st)).
  destruct (agregar_persona_exito st1 id_fam n fam nuevo) as (extra & az & Hex & Hag).
  { done. }
  { simpl. by apply list_lookup_middle. }
  { done. }
  destruct Hex as [(Hsz & _)|(_ & -> & l & Hl & ->)];
    [change (afinidades nuevo) with (∅ : gset string) in Hsz;
     rewrite size_empty in Hsz; lia|].
  exists nom, gen, prov, l.
  split; [by apply (nth_mod_elem NOMBRES)|].
  split; [by apply (nth_mod_elem ["Masculino"; "Femenino"])|].
  split; [by apply (nth_mod_elem [provincia pa; provincia pb])|].
  split; [done|].
  unfold registrar_nacimiento_de_pareja.
  erewrite bind_ok; [|unfold get_familia, leer; rewrite Hf; reflexivity].
  cbv beta iota. rewrite Ha, Hb.
  erewrite bind_ok; [|apply objeto_ok, Hpa].
  erewrite bind_ok; [|apply objeto_ok, Hpb].
  rewrite bool_decide_eq_true_2 by done. cbv beta iota delta [negb].
  do 6 corre.
  erewrite bind_ok; [|exact Hag].
  assert (Hne_a : n ≠ a) by lia. assert (Hne_b : n ≠ b) by lia.
  erewrite bind_ok.
  2:{ apply objeto_ok. simpl. rewrite list_lookup_insert_ne by done.
      by apply lookup_app_l_Some. }
  erewrite bind_ok.
  2:{ apply objeto_ok. simpl. rewrite list_lookup_insert_ne by done.
      by apply lookup_app_l_Some. }
  corre.
  erewrite bind_ok.
  2:{ apply objeto_ok. simpl. rewrite list_lookup_alter_eq, list_lookup_insert_eq.
      - reflexivity.
      - rewrite length_app. simpl. lia. }
  do 2 corre. unfold evento. do 2 corre.
  unfold bind, leer, modificar, ret, con_objetos, objetos_con_hijo. simpl.
  f_equal. f_equal; [|by rewrite drop_6].
  do 4 f_equal. fold n.
  apply list_eq. intros i. rewrite lookup_alter_si.
  destruct (decide (n = i)) as [<-|Hni].
  - rewrite list_lookup_insert_eq by (rewrite length_app; simpl; lia).
    rewrite list_lookup_middle by done. simpl. f_equal.
    unfold recien_nacido, registrar_evento, con_padres, con_afinidades, con_historial,
      nuevo, Persona_nueva. simpl. f_equal; apply leibniz_equiv; set_solver.
  - rewrite list_lookup_insert_ne by done.
    destruct (decide (i < n)%nat).
    + rewrite !lookup_app_l by done. by destruct (objetos st !! i).
    + rewrite !lookup_ge_None_2; [done|rewrite length_app; simpl; lia..].
Qed.

Lemma objetos_con_hijo_lookup a b n hijo hoy o r :
  n = length o ->
  objetos_con_hijo a b n hijo hoy o !! r
  = (fun q => if decide (b = r)
              then registrar_evento ("Nacimiento de hijo/a " ++ nombre hijo) None hoy q
              else q)
    <$> ((fun q => if decide (a = r)
                   then registrar_evento ("Nacimiento de hijo/a " ++ nombre hijo) None hoy q
                   else q)
    <$> ((fun q => if decide (b = r)
                   then con_hijos (agregar_a (cedula hijo) (hijos q)) q else q)
    <$> ((fun q => if decide (a = r)
                   then con_hijos (agregar_a (cedula hijo) (hijos q)) q else q)
    <$> (o ++ [hijo])%list !! r))).
Proof.
  intros _. unfold objetos_con_hijo. rewrite !lookup_alter_si.
  destruct ((o ++ [hijo])%list !! r) as [q|]; simpl; [|done].
  by destruct (decide (a = r)), (decide (b = r)).
Qed.

(** X26. A birth that succeeds: when the second member is in the partner
    set of the first and the identifier drawn is not yet one of the
    family, [registrar_nacimiento_de_pareja] returns a new person object,
    registered at the end of the family under the identifier drawn: born
    on the simulated date, single and alive, with a name of the list, one
    of the two genders, the province of one of the parents, the
    identifiers of both parents as its parents, two distinct affinities of
    the vocabulary and the history entry "Nacimiento"; its identifier is
    added to the children of both parents; no other object changes, and
    six random outcomes are consumed. *)
Theorem registrar_nacimiento_de_pareja_exito (st : Mundo) (id_fam c1 c2 : string)
    (fam : Familia) (a b : nat) (pa pb : Persona) :
  dict_get id_fam (familias st) = Some fam ->
  obtener fam c1 = Some a -> obtener fam c2 = Some b ->
  objetos st !! a = Some pa -> objetos st !! b = Some pb ->
  cedula pb ∈ parejas pa ->
  dict_in (cedula_sorteada st) (miembros fam) = false ->
  exists nom gen prov l st' fam',
    nom ∈ NOMBRES /\ gen ∈ ["Masculino"; "Femenino"]
    /\ prov ∈ [provincia pa; provincia pb] /\ muestra_valida l
    /\ registrar_nacimiento_de_pareja id_fam c1 c2 st
       = (Ok (Some (length (objetos st))), st')
    /\ objetos st' !! length (objetos st)
       = Some (recien_nacido (cedula_sorteada st) nom gen prov (fecha_simulada st) l
                 pa pb)
    /\ dict_get id_fam (familias st') = Some fam'
    /\ obtener fam' (cedula_sorteada st) = Some (length (objetos st))
    /\ todas_personas fam' = (todas_personas fam ++ [length (objetos st)])%list
    /\ (exists pa' pb',
          objetos st' !! a = Some pa' /\ objetos st' !! b = Some pb'
          /\ hijos pa' = hijos pa ∪ {[cedula_sorteada st]}
          /\ hijos pb' = hijos pb ∪ {[cedula_sorteada st]})
    /\ (forall r, r ≠ a -> r ≠ b -> r ≠ length (objetos st) ->
          objetos st' !! r = objetos st !! r)
    /\ azar st' = drop 6 (azar st).
Proof.
  intros Hf Ha Hb Hpa Hpb Hpar Hnew.
  destruct (registrar_nacimiento_de_pareja_exec st id_fam fam c1 c2 a b pa pb)
    as (nom & gen & prov & l & Hnom & Hgen & Hprov & Hl & Hrun); [done..|].
  pose proof (lookup_lt_Some _ _ _ Hpa) as Hla.
  pose proof (lookup_lt_Some _ _ _ Hpb) as Hlb.
  exists nom, gen, prov, l. eexists _, _.
  split; [done|]. split; [done|]. split; [done|]. split; [done|].
  split; [exact Hrun|]. simpl.
  split.
  { rewrite objetos_con_hijo_lookup by done. rewrite list_lookup_middle by done. simpl.
    destruct (decide (a = length (objetos st))); [lia|].
    destruct (decide (b = length (objetos st))); [lia|]. done. }
  split; [apply dict_get_set_eq|].
  split; [apply dict_get_set_eq|].
  split.
  { unfold todas_personas, Familia_con, dict_values. simpl.
    rewrite dict_set_nuevo by (by apply dict_in_false). by rewrite fmap_app. }
  split.
  { pose proof (objetos_con_hijo_lookup a b (length (objetos st))
                  (recien_nacido (cedula_sorteada st) nom gen prov (fecha_simulada st) l
                     pa pb) (fecha_hoy st) (objetos st) a eq_refl) as Hxa.
    pose proof (objetos_con_hijo_lookup a b (length (objetos st))
                  (recien_nacido (cedula_sorteada st) nom gen prov (fecha_simulada st) l
                     pa pb) (fecha_hoy st) (objetos st) b eq_refl) as Hxb.
    rewrite lookup_app_l, Hpa in Hxa by done.
    rewrite lookup_app_l, Hpb in Hxb by done. simpl in Hxa, Hxb.
    eexists _, _. split; [exact Hxa|]. split; [exact Hxb|].
    unfold agregar_a.
    split; destruct (decide (a = b)), (decide (b = a)), (decide (a = a)),
             (decide (b = b)); simpl; try done; apply leibniz_equiv; set_solver. }
  split; [|done].
  intros r Hra Hrb Hrn. rewrite objetos_con_hijo_lookup by done.
  destruct (decide (r < length (objetos st))%nat).
  - rewrite lookup_app_l by done. destruct (objetos st !! r); simpl; [|done].
    destruct (decide (a = r)); [done|]. by destruct (decide (b = r)).
  - rewrite !lookup_ge_None_2; [done|lia|rewrite length_app; simpl; lia].
Qed.

Lemma registrar_nacimiento_de_pareja_exito_witness :
  exists st' hijo,
    registrar_nacimiento_de_pareja "F1" "101" "102" mundo_pareja = (Ok (Some 2%nat), st')
    /\ objetos st' !! 2%nat = Some hijo
    /\ cedula hijo = "10000005" /\ padres hijo = {["101"; "102"]}.
Proof.
  destruct (registrar_nacimiento_de_pareja_exito mundo_pareja "F1" "101" "102" familia_F1
              0%nat 1%nat (default ana (objetos mundo_pareja !! 0%nat))
              (default luis (objetos mundo_pareja !! 1%nat))
              ltac:(vm_compute; reflexivity) eq_refl eq_refl
              ltac:(vm_compute; reflexivity) ltac:(vm_compute; reflexivity)
              ltac:(apply (bool_decide_unpack _); vm_compute; exact I)
              ltac:(vm_compute; reflexivity))
    as (nom & gen & prov & l & st' & fam' & _ & _ & _ & _ & Hrun & Hhijo & _).
  exists st', (recien_nacido "10000005" nom gen prov (mk_date 2025 6 15) l
                 (default ana (objetos mundo_pareja !! 0%nat))
                 (default luis (objetos mundo_pareja !! 1%nat))).
  split; [exact Hrun|]. split; [exact Hhijo|]. split; [reflexivity|].
  vm_compute. reflexivity.
Defined.

Lemma gestionar_viudez_efecto_witness :
  exists o' viudo,
    gestionar_viudez familia_F1 0%nat mundo_fallecida
    = (Ok tt, con_objetos o' mundo_fallecida)
    /\ o' !! 1%nat = Some viudo
    /\ estado_civil viudo = "Viudo(a)" /\ ("101" ∉ parejas viudo)
    /\ salud_emocional viudo = 65
    /\ o' !! 0%nat = objetos mundo_fallecida !! 0%nat.
Proof.
  destruct (gestionar_viudez_efecto mundo_fallecida familia_F1 0%nat
              (default ana (objetos mundo_fallecida !! 0%nat))
              ltac:(apply completa_calculada; vm_compute; reflexivity)
              ltac:(apply (bool_decide_unpack _); vm_compute; exact I)
              ltac:(vm_compute; reflexivity))
    as (o' & Hrun & Hobj).
  assert (H1 : objetos mundo_fallecida !! 1%nat
               = Some (default luis (objetos mundo_fallecida !! 1%nat)))
    by (vm_compute; reflexivity).
  assert (H0 : objetos mundo_fallecida !! 0%nat
               = Some (default ana (objetos mundo_fallecida !! 0%nat)))
    by (vm_compute; reflexivity).
  destruct (Hobj 1%nat _ H1) as [Hluis _].
  destruct (Hobj 0%nat _ H0) as [_ Hana].
  exists o', (enviudada (mk_date 2025 6 15) "101"
                (default luis (objetos mundo_fallecida !! 1%nat))).
  split; [exact Hrun|]. split.
  - apply Hluis; [vm_compute; reflexivity|]. exists "102".
    split; [apply (bool_decide_unpack _); vm_compute; exact I|reflexivity].
  - split; [reflexivity|]. split; [intros H; vm_compute in H; discriminate H|].
    split; [vm_compute; reflexivity|].
    rewrite Hana; [vm_compute; reflexivity|].
    intros [Hv _]. vm_compute in Hv. discriminate Hv.
Defined.

(** *** The generations of the drawn tree *)

Lemma padres_fuera_spec m p :
  padres_fuera m p = true <-> forall c', c' ∈ padres p -> dict_get c' m = None.
Proof.
  unfold padres_fuera. rewrite forallb_forall. split.
  - intros H c' Hc. specialize (H c'). destruct (dict_get c' m); [|done].
    discriminate H. by apply list_elem_of_In, elem_of_elements.
  - intros H c' Hc. rewrite H; [done|]. by apply elem_of_elements, list_elem_of_In.
Qed.

Lemma cola_inicial_spec m c l : (c, l) ∈ cola_inicial m <-> l = 0 /\ raiz m c.
Proof.
  unfold cola_inicial, raiz. rewrite elem_of_app, !list_elem_of_In, !in_map_iff.
  split.
  - intros [(p & [= <- <-] & [Hp Hf]%filter_In) | (p & [= <- <-] & [Hp Hf]%filter_In)];
      (split; [done|]); exists p; rewrite list_elem_of_In;
      (split; [done|]); (split; [done|]).
    + apply bool_decide_eq_true_1 in Hf. rewrite Hf. set_solver.
    + apply andb_true_iff in Hf as [_ Hf]. by apply padres_fuera_spec.
  - intros [-> (p & Hp & <- & Hf)]. apply list_elem_of_In in Hp.
    destruct (decide (padres p = ∅)) as [He|He].
    + left. exists p. split; [done|]. apply filter_In. split; [done|].
      by apply bool_decide_eq_true_2.
    + right. exists p. split; [done|]. apply filter_In. split; [done|].
      rewrite bool_decide_eq_false_2 by done. simpl. by apply padres_fuera_spec.
Qed.

Lemma layout_inv_inicial m : layout_inv m (cola_inicial m) ∅ [].
Proof.
  split; try done.
  - intros c. simpl. split; [set_solver|by intros [? ?]].
  - intros i j c n c' n' Hi Hj _.
    apply list_elem_of_lookup_2 in Hi, Hj.
    apply cola_inicial_spec in Hi as [-> _]. apply cola_inicial_spec in Hj as [-> _]. lia.
  - intros c l [-> H]%cola_inicial_spec. exists 0%nat. split; [done|]. by constructor.
  - intros c H. right. by apply cola_inicial_spec.
Qed.

(** What a chain of [n] links reaches has a level of at most [n], or the
    queue still holds an element of level at most [n]. *)
Lemma layout_cubre m Q vs N n x :
  layout_inv m Q vs N -> camino m n x ->
  (exists d, dict_get x N = Some d /\ d <= Z.of_nat n)
  \/ (exists y l, (y, l) ∈ Q /\ l <= Z.of_nat n).
Proof.
  intros HI. induction 1 as [c Hc|n c c' Hcam IH [p [Hp Hh]]].
  - destruct (li_raiz _ _ _ _ HI c Hc) as [H|H].
    + left. exists 0. split; [done|lia].
    + right. exists c, 0. split; [done|lia].
  - destruct IH as [(d & Hd & Hle)|(y & l & Hy & Hle)].
    + destruct (li_hijos _ _ _ _ HI c d p c' Hd Hp Hh) as [(d' & Hd' & Hle')|Hq].
      * left. exists d'. split; [done|lia].
      * right. exists c', (d + 1). split; [done|lia].
    + right. exists y, l. split; [done|lia].
Qed.

Lemma layout_inv_visto m c n Q vs N :
  layout_inv m ((c, n) :: Q) vs N -> c ∈ vs -> layout_inv m Q vs N.
Proof.
  intros [Hdom Hord Hcola Hvisto Hhijos Hbajo Hraiz] Hc.
  apply Hdom in Hc as [d0 Hd0].
  assert (H0 : d0 <= n) by (apply (Hbajo c d0 c n); [done|by left]).
  split.
  - done.
  - intros i j c1 n1 c2 n2 Hi Hj Hij.
    apply (Hord (S i) (S j) c1 n1 c2 n2); [done|done|lia].
  - intros c1 l H. apply Hcola. by right.
  - done.
  - intros c1 d p h Hd Hp Hh.
    destruct (Hhijos c1 d p h Hd Hp Hh) as [H|H]; [by left|].
    apply elem_of_cons in H as [H|H]; [|by right].
    injection H as -> Hn. left. exists d0. split; [done|lia].
  - intros c1 d y l Hd Hy. apply (Hbajo c1 d y l); [done|by right].
  - intros c1 Hr. destruct (Hraiz c1 Hr) as [H|H]; [by left|].
    apply elem_of_cons in H as [H|H]; [|by right].
    injection H as -> <-. left.
    destruct (Hvisto c d0 Hd0) as (k & -> & _). rewrite Hd0. f_equal. lia.
Qed.

Lemma layout_inv_nuevo m c n Q vs N :
  layout_inv m ((c, n) :: Q) vs N -> c ∉ vs ->
  layout_inv m
    (Q ++ match dict_get c m with
          | Some pers => map (fun h => (h, n + 1)) (elements (hijos pers))
          | None => []
          end)
    ({[c]} ∪ vs) (dict_set c n N).
Proof.
  intros HI Hc. pose proof HI as [Hdom Hord Hcola Hvisto Hhijos Hbajo Hraiz].
  set (kids := match dict_get c m with
               | Some pers => map (fun h => (h, n + 1)) (elements (hijos pers))
               | None => []
               end).
  assert (HcN : dict_get c N = None).
  { destruct (dict_get c N) eqn:E; [|done]. destruct Hc. apply Hdom. by eexists. }
  assert (Hkids : forall y l, (y, l) ∈ kids ->
            l = n + 1 /\ exists pers, dict_get c m = Some pers /\ y ∈ hijos pers).
  { intros y l. unfold kids. destruct (dict_get c m) as [pers|]; [|by intros ?%elem_of_nil].
    intros (h & [= -> ->] & Hh)%list_elem_of_fmap. split; [done|]. exists pers.
    split; [done|]. by apply elem_of_elements. }
  assert (Hhead : forall y l, (y, l) ∈ Q -> n <= l <= n + 1).
  { intros y l (i & Hi)%list_elem_of_lookup.
    apply (Hord 0%nat (S i) c n y l); [done|done|lia]. }
  destruct (Hcola c n) as (k & Hk & Hcam); [by left|].
  split.
  - intros c1. destruct (decide (c1 = c)) as [->|Hne].
    + rewrite dict_get_set_eq. split; [by eexists|set_solver].
    + rewrite dict_get_set_ne by done. rewrite <- Hdom. set_solver.
  - intros i j c1 n1 c2 n2 Hi Hj Hij.
    apply lookup_app_Some in Hi as [Hi|[Hli Hi]];
      apply lookup_app_Some in Hj as [Hj|[Hlj Hj]].
    + apply (Hord (S i) (S j) c1 n1 c2 n2); [done|done|lia].
    + apply list_elem_of_lookup_2 in Hi, Hj.
      apply Hhead in Hi. apply Hkids in Hj as [-> _]. lia.
    + apply lookup_lt_Some in Hj. lia.
    + apply list_elem_of_lookup_2 in Hi, Hj.
      apply Hkids in Hi as [-> _]. apply Hkids in Hj as [-> _]. lia.
  - intros c1 l [H|H]%elem_of_app.
    + apply Hcola. by right.
    + apply Hkids in H as [-> (pers & Hp & Hh)]. exists (S k). split; [lia|].
      apply camino_paso with c; [done|]. by exists pers.
  - intros c1 d. destruct (decide (c1 = c)) as [->|Hne].
    + rewrite dict_get_set_eq. intros [= <-]. exists k. split; [done|]. split; [done|].
      intros n' Hn'. destruct (layout_cubre m _ vs N n' c HI Hn')
        as [(d & Hd & _)|(y & l & Hy & Hle)]; [congruence|].
      apply elem_of_cons in Hy as [[= -> ->]|Hy]; [lia|]. apply Hhead in Hy. lia.
    + rewrite dict_get_set_ne by done. apply Hvisto.
  - intros c1 d p h. destruct (decide (c1 = c)) as [->|Hne].
    + rewrite dict_get_set_eq. intros [= <-] Hp Hh. right. apply elem_of_app. right.
      unfold kids. rewrite Hp. apply list_elem_of_fmap. exists h. split; [done|].
      by apply elem_of_elements.
    + rewrite dict_get_set_ne by done. intros Hd Hp Hh.
      destruct (Hhijos c1 d p h Hd Hp Hh) as [(d' & Hd' & Hle)|H].
      * left. exists d'. split; [|done]. rewrite dict_get_set_ne; [done|]. congruence.
      * apply elem_of_cons in H as [[= -> Hn]|H].
        -- left. exists n. rewrite dict_get_set_eq. split; [done|lia].
        -- right. apply elem_of_app. by left.
  - intros c1 d y l. destruct (decide (c1 = c)) as [->|Hne].
    + rewrite dict_get_set_eq. intros [= <-] [H|H]%elem_of_app.
      * apply Hhead in H. lia.
      * apply Hkids in H as [-> _]. lia.
    + rewrite dict_get_set_ne by done. intros Hd [H|H]%elem_of_app.
      * apply (Hbajo c1 d y l); [done|by right].
      * apply Hkids in H as [-> _].
        assert (d <= n) by (apply (Hbajo c1 d c n); [done|by left]). lia.
  - intros c1 Hr. destruct (Hraiz c1 Hr) as [H|H].
    + left. rewrite dict_get_set_ne; [done|]. congruence.
    + apply elem_of_cons in H as [[= -> <-]|H].
      * left. apply dict_get_set_eq.
      * right. apply elem_of_app. by left.
Qed.

Lemma layout_bucle_inv m fuel Q vs N N' :
  layout_inv m Q vs N -> layout_bucle fuel m Q vs N = Some N' ->
  exists S', layout_inv m [] S' N'.
Proof.
  revert Q vs N. induction fuel as [|fuel IH]; intros Q vs N HI; simpl; [done|].
  destruct Q as [|[c n] Q]; [intros [= <-]; by exists vs|].
  case_bool_decide as Hc.
  - apply IH. by eapply layout_inv_visto.
  - assert (HcN : dict_get c N = None).
    { destruct (dict_get c N) eqn:E; [|done]. destruct Hc.
      apply (li_dom _ _ _ _ HI). by eexists. }
    rewrite HcN. simpl. rewrite Z.min_id.
    pose proof (layout_inv_nuevo m c n Q vs N HI Hc) as HI'.
    destruct (dict_get c m) as [pers|]; [|rewrite app_nil_r in HI']; by apply IH.
Qed.

Lemma pendiente_mono m c vs : (pendiente m ({[c]} ∪ vs) <= pendiente m vs)%nat.
Proof.
  unfold pendiente. induction m as [|[k p] m IH]; simpl; [done|].
  repeat case_bool_decide; try lia. set_solver.
Qed.

Lemma pendiente_baja m c vs pers :
  dict_get c m = Some pers -> c ∉ vs ->
  (pendiente m ({[c]} ∪ vs) + size (hijos pers) <= pendiente m vs)%nat.
Proof.
  unfold pendiente. intros Hg Hc. induction m as [|[k p] m IH]; simpl in *; [done|].
  case_bool_decide as Hk.
  - simplify_eq. pose proof (pendiente_mono m c vs) as Hm. unfold pendiente in Hm.
    rewrite bool_decide_eq_true_2 by set_solver.
    rewrite bool_decide_eq_false_2 by done. lia.
  - specialize (IH Hg). repeat case_bool_decide; try lia. set_solver.
Qed.

Lemma layout_bucle_termina m fuel Q vs N :
  (length Q + pendiente m vs < fuel)%nat -> is_Some (layout_bucle fuel m Q vs N).
Proof.
  revert Q vs N. induction fuel as [|fuel IH]; intros Q vs N Hf; [lia|]. simpl.
  destruct Q as [|[c n] Q]; [by eexists|]. simpl in Hf.
  case_bool_decide as Hc; [apply IH; lia|].
  destruct (dict_get c m) as [pers|] eqn:Hp.
  - apply IH. rewrite length_app, length_map.
    pose proof (pendiente_baja m c vs pers Hp Hc).
    assert (length (elements (hijos pers)) = size (hijos pers)) as -> by done. lia.
  - apply IH. pose proof (pendiente_mono m c vs). lia.
Qed.

Lemma filtros_disjuntos {A} (f g : A -> bool) (l : list A) :
  (length (List.filter f l) + length (List.filter (fun x => negb (f x) && g x) l)
   <= length l)%nat.
Proof.
  induction l as [|x l IH]; simpl; [done|].
  destruct (f x), (g x); simpl; lia.
Qed.

Lemma cola_inicial_length m : (length (cola_inicial m) <= length m)%nat.
Proof.
  unfold cola_inicial. rewrite length_app, !length_map.
  etransitivity; [apply filtros_disjuntos|]. unfold dict_values. by rewrite length_fmap.
Qed.

(** X27. [_layout_generacional] always terminates, also on a family whose
    child links have a cycle: its loop ends within as many iterations as
    the family has members and identifiers in their child sets. *)
Theorem layout_generacional_termina (m : dict Persona) (fuel : nat) :
  (length m + pendiente m ∅ < fuel)%nat ->
  is_Some (_layout_generacional fuel m).
Proof.
  intros Hf. apply layout_bucle_termina.
  pose proof (cola_inicial_length m). lia.
Qed.

Lemma layout_generacional_termina_witness :
  is_Some (_layout_generacional 12 familia_con_ciclo)
  /\ tc (enlace familia_con_ciclo) "2" "2".
Proof.
  split.
  - apply (layout_generacional_termina familia_con_ciclo 12). vm_compute. lia.
  - apply tc_l with "3"; [|apply tc_once]; eexists; (split; [vm_compute; reflexivity|]);
      apply (bool_decide_unpack _); vm_compute; exact I.
Defined.

(** X28. The level [_layout_generacional] gives is the least number of
    child links from a root (a member none of whose parents is in the
    family): an identifier has a level exactly when some chain of child
    links leads to it from a root, its level is the length of the
    shortest such chain, and a child of a member with a level is at most
    one level below it. No identifier is given a level twice. *)
Theorem layout_generacional_niveles (m : dict Persona) (fuel : nat) (nivel : dict Z) :
  _layout_generacional fuel m = Some nivel ->
  (forall c, is_Some (dict_get c nivel) <-> exists n, camino m n c)
  /\ (forall c d, dict_get c nivel = Some d ->
        exists n, d = Z.of_nat n /\ camino m n c
                  /\ forall n', camino m n' c -> (n <= n')%nat)
  /\ (forall c d h, dict_get c nivel = Some d -> enlace m c h ->
        exists d', dict_get h nivel = Some d' /\ d' <= d + 1).
Proof.
  intros Hl.
  destruct (layout_bucle_inv m fuel _ _ _ nivel (layout_inv_inicial m) Hl) as [vs HI].
  split; [|split].
  - intros c. split.
    + intros [d Hd]. destruct (li_visto _ _ _ _ HI c d Hd) as (n & _ & Hn & _).
      by exists n.
    + intros [n Hn].
      destruct (layout_cubre m [] vs nivel n c HI Hn) as [(d & Hd & _)|(y & l & Hy & _)];
        [by eexists|by apply elem_of_nil in Hy].
  - apply (li_visto _ _ _ _ HI).
  - intros c d h Hd (p & Hp & Hh).
    destruct (li_hijos _ _ _ _ HI c d p h Hd Hp Hh) as [H|H]; [done|].
    by apply elem_of_nil in H.
Qed.

Lemma layout_generacional_niveles_witness :
  let nivel := [("1", 0); ("2", 1); ("3", 2); ("4", 3)] in
  _layout_generacional 12 familia_con_ciclo = Some nivel
  /\ (forall c, is_Some (dict_get c nivel) <-> exists n, camino familia_con_ciclo n c)
  /\ (forall c d, dict_get c nivel = Some d ->
        exists n, d = Z.of_nat n /\ camino familia_con_ciclo n c
                  /\ forall n', camino familia_con_ciclo n' c -> (n <= n')%nat)
  /\ (forall c d h, dict_get c nivel = Some d -> enlace familia_con_ciclo c h ->
        exists d', dict_get h nivel = Some d' /\ d' <= d + 1).
Proof.
  split; [vm_compute; reflexivity|].
  apply (layout_generacional_niveles familia_con_ciclo 12). vm_compute. reflexivity.
Defined.
